(** * drag-race: the scoring engine of the fantasy-league site

    A shallow embedding of the query library and of the join-league request
    handlers, with the properties of the recalculation engine stated over it.
    The sources hold two versions of the query library, one after the other
    in [astro.config.mjs]: module [V1] is the first (its scores carry the
    league of the roster entry), module [V2] the second (it takes the
    multipliers as an argument and finds the leagues through the
    memberships).

    Conventions of the embedding.
    - A JavaScript string is a [string]: the bytes of its UTF-8 encoding.
    - A JavaScript number is a [number]: NaN, a signed infinity, or a finite
      value kept as an exact rational in lowest terms.  Rounding to binary64,
      overflow and the sign of zero are outside the model.
    - A plain object built from entries is the finite map of its own
      properties; a read with an arbitrary name falls back on the members of
      [Object.prototype].
    - A SQL table is the list of its rows; a table written through
      [ON CONFLICT (cols) DO UPDATE] is a finite map from the conflict columns
      to the remaining columns, since the statement is only accepted when
      [cols] carries a unique index.
    - A query without [ORDER BY] returns its rows in the order of the table,
      and the groups of a [GROUP BY] in the order of their first row.
    - Every awaited [sql] call is one statement, executed on its own: the
      sources open no transaction. *)

From Stdlib Require Import ZArith QArith String Ascii List Lia.
From Stdlib Require Qcanon.
From stdpp Require Import base option list gmap strings sorting.

Local Open Scope string_scope.
Local Open Scope Z_scope.
Local Open Scope list_scope.

(** ** JavaScript numbers *)

Inductive number : Type :=
  | NaN
  | Infinity (negative : bool)
  | Fin (q : Q).

Definition Qzero (q : Q) : bool := Z.eqb (Qnum q) 0.

(** ToBoolean on a number: NaN and zero are falsy. *)
Definition truthy (n : number) : bool :=
  match n with
  | NaN => false
  | Infinity _ => true
  | Fin q => negb (Qzero q)
  end.

Definition Qnegative (q : Q) : bool := Z.ltb (Qnum q) 0.

(** [a * b] *)
Definition nmul (a b : number) : number :=
  match a, b with
  | NaN, _ | _, NaN => NaN
  | Fin x, Fin y => Fin (Qred (x * y))
  | Infinity s, Infinity t => Infinity (xorb s t)
  | Infinity s, Fin y =>
      if Qzero y then NaN else Infinity (xorb s (Qnegative y))
  | Fin x, Infinity t =>
      if Qzero x then NaN else Infinity (xorb (Qnegative x) t)
  end.

(** [a + b] *)
Definition nadd (a b : number) : number :=
  match a, b with
  | NaN, _ | _, NaN => NaN
  | Fin x, Fin y => Fin (Qred (x + y))
  | Infinity s, Infinity t => if Bool.eqb s t then Infinity s else NaN
  | Infinity s, Fin _ => Infinity s
  | Fin _, Infinity t => Infinity t
  end.

Definition nneg (a : number) : number :=
  match a with
  | NaN => NaN
  | Infinity s => Infinity (negb s)
  | Fin x => Fin (Qred (- x))
  end.

(** [o || d] where [o] is a number or undefined. *)
Definition or_number (o : option number) (d : number) : number :=
  match o with
  | Some n => if truthy n then n else d
  | None => d
  end.

(** [o || d] where [o] is a string or undefined: the empty string is falsy. *)
Definition or_string (o : option string) (d : string) : string :=
  match o with
  | Some s => if decide (s = "") then d else s
  | None => d
  end.

(** ** The built-ins [parseFloat] and [parseInt] *)

Module Parse.

(** The white space and the line terminators of the language, which
    [parseFloat], [parseInt] and [trim] skip, in the UTF-8 encoding of the
    text.  One byte: U+0009 to U+000D and U+0020. *)
Definition is_ws (c : ascii) : bool :=
  let n := nat_of_ascii c in
  ((9 <=? n) && (n <=? 13))%nat || (n =? 32)%nat.

(** Two bytes: U+00A0, the no-break space (C2 A0). *)
Definition is_ws2 (a b : ascii) : bool :=
  ((nat_of_ascii a =? 194) && (nat_of_ascii b =? 160))%nat.

(** Three bytes: U+1680 (E1 9A 80), U+2000 to U+200A (E2 80 80 to E2 80 8A),
    U+2028 and U+2029 (E2 80 A8, E2 80 A9), U+202F (E2 80 AF), U+205F
    (E2 81 9F), U+3000 (E3 80 80) and U+FEFF (EF BB BF). *)
Definition is_ws3 (a b c : ascii) : bool :=
  let x := nat_of_ascii a in
  let y := nat_of_ascii b in
  let z := nat_of_ascii c in
  (((x =? 225) && (y =? 154) && (z =? 128))
   || ((x =? 226) && (y =? 128)
       && (((128 <=? z) && (z <=? 138)) || (z =? 168) || (z =? 169) || (z =? 175)))
   || ((x =? 226) && (y =? 129) && (z =? 159))
   || ((x =? 227) && (y =? 128) && (z =? 128))
   || ((x =? 239) && (y =? 187) && (z =? 191)))%nat.

(** Read from the end of a text ([backwards]), the bytes of a character come
    last byte first. *)
Definition ws2 (backwards : bool) (a b : ascii) : bool :=
  if backwards then is_ws2 b a else is_ws2 a b.

Definition ws3 (backwards : bool) (a b c : ascii) : bool :=
  if backwards then is_ws3 c b a else is_ws3 a b c.

(** The text after the white-space character at its head, if there is
    one. *)
Definition ws_head (backwards : bool) (s : string) : option string :=
  match s with
  | String a s1 =>
      if is_ws a then Some s1 else
      match s1 with
      | String b s2 =>
          if ws2 backwards a b then Some s2 else
          match s2 with
          | String c s3 => if ws3 backwards a b c then Some s3 else None
          | EmptyString => None
          end
      | EmptyString => None
      end
  | EmptyString => None
  end.

(** The text after all the white space at its head. *)
Fixpoint skip_ws (backwards : bool) (s : string) : string :=
  match s with
  | String a s1 =>
      if is_ws a then skip_ws backwards s1 else
      match s1 with
      | String b s2 =>
          if ws2 backwards a b then skip_ws backwards s2 else
          match s2 with
          | String c s3 => if ws3 backwards a b c then skip_ws backwards s3 else s
          | EmptyString => s
          end
      | EmptyString => s
      end
  | EmptyString => s
  end.

Definition trim_left (s : string) : string := skip_ws false s.

Definition trim_right (s : string) : string :=
  String.rev (skip_ws true (String.rev s)).

(** Value of a digit in radix 10 or 16. *)
Definition digit (radix : Z) (c : ascii) : option Z :=
  let n := Z.of_nat (nat_of_ascii c) in
  let v :=
    if (48 <=? n) && (n <=? 57) then Some (n - 48)
    else if (97 <=? n) && (n <=? 102) then Some (n - 87)
    else if (65 <=? n) && (n <=? 70) then Some (n - 55)
    else None in
  match v with
  | Some d => if d <? radix then Some d else None
  | None => None
  end.

(** The longest prefix of digits, most significant first, and the rest. *)
Fixpoint digits (radix : Z) (s : string) : list Z * string :=
  match s with
  | String c s' =>
      match digit radix c with
      | Some d => let '(ds, rest) := digits radix s' in (d :: ds, rest)
      | None => ([], s)
      end
  | EmptyString => ([], s)
  end.

Definition value_of (radix : Z) (ds : list Z) : Z :=
  fold_left (fun acc d => acc * radix + d) ds 0.

(** An optional sign; [true] when negative. *)
Definition sign (s : string) : bool * string :=
  match s with
  | String "-" s' => (true, s')
  | String "+" s' => (false, s')
  | _ => (false, s)
  end.

Definition strip_prefix (p s : string) : option string :=
  if String.prefix p s
  then Some (String.substring (String.length p)
                              (String.length s - String.length p) s)
  else None.

(** The exponent part [e±ddd], read only when a digit follows. *)
Definition exponent (s : string) : Z :=
  match s with
  | String c s' =>
      if (Ascii.eqb c "e" || Ascii.eqb c "E")%bool then
        let '(neg, s'') := sign s' in
        match digits 10 s'' with
        | ([], _) => 0
        | (ds, _) => if neg then - value_of 10 ds else value_of 10 ds
        end
      else 0
  | EmptyString => 0
  end.

Definition pow10 (m : Z) (e : Z) : Q :=
  if 0 <=? e then Qred (inject_Z (m * 10 ^ e))
  else Qred (Qmake m (Z.to_pos (10 ^ (- e)))).

(** [parseFloat(s)]: leading white space is skipped, then the longest prefix
    that is a decimal literal is read; anything after it is ignored.  With
    no such prefix the result is NaN. *)
Definition parseFloat (s : string) : number :=
  let '(neg, s1) := sign (trim_left s) in
  let signed (n : number) := if neg then nneg n else n in
  match strip_prefix "Infinity" s1 with
  | Some _ => Infinity neg
  | None =>
      let '(int_ds, s2) := digits 10 s1 in
      let '(frac_ds, s3) :=
        match s2 with
        | String "." s2' => digits 10 s2'
        | _ => ([], s2)
        end in
      match int_ds, frac_ds with
      | [], [] => NaN
      | _, _ =>
          let m := value_of 10 (int_ds ++ frac_ds) in
          let e := exponent s3 - Z.of_nat (List.length frac_ds) in
          signed (Fin (pow10 m e))
      end
  end.

(** [parseInt(s)] with no radix: white space, a sign, an optional [0x]
    prefix selecting radix 16, then the longest prefix of digits. *)
Definition parseInt (s : string) : number :=
  let '(neg, s1) := sign (trim_left s) in
  let '(radix, s2) :=
    match s1 with
    | String "0" (String "x" r) | String "0" (String "X" r) => (16, r)
    | _ => (10, s1)
    end in
  match digits radix s2 with
  | ([], _) => NaN
  | (ds, _) =>
      let v := value_of radix ds in
      Fin (inject_Z (if neg then - v else v))
  end.

End Parse.

(** [parseFloat(n)] for a number [n]: the argument is first turned into its
    decimal text, which reads back as [n]. *)
Definition parseFloat_number (n : number) : number := n.

(** ** The tables *)

(** [rosters] *)
Record roster : Type := Roster {
  roster_user_id : string;
  roster_league_id : Z;
  roster_queen_name : string;
  roster_rank : Z;
  roster_episode_number : Z }.

(** [queen_box_scores] *)
Record box_score : Type := BoxScore {
  box_queen_name : string;
  box_episode_number : Z;
  box_points : Q }.

(** [league_members] *)
Record member : Type := Member {
  member_league_id : Z;
  member_user_id : string }.

(** [leagues] *)
Record league : Type := League {
  league_id : Z;
  league_invite_code : string;
  league_name : string;
  league_created_by : string }.

(** Modelled from the spec: the schema of the database is not part of the
    sources.  The columns are those that the statements name; users and
    contestants are identified by texts, leagues, episodes and ranks by
    integers, and raw points are exact numbers.  The unique indexes are those
    that the [ON CONFLICT] targets of the statements name.

    The tables that the engine only reads.  [settings] holds (key, value)
    rows. *)
Record tables : Type := Tables {
  rosters : list roster;
  queen_box_scores : list box_score;
  settings : list (string * string);
  league_members : list member;
  leagues : list league }.

(** A row of [user_queen_scores], with all its columns. *)
Record score : Type := Score {
  score_user_id : string;
  score_league_id : Z;
  score_queen_name : string;
  score_episode_number : Z;
  score_calculated_points : number;
  score_rank : Z }.

#[global] Instance roster_eq_dec : EqDecision roster.
Proof. solve_decision. Defined.
#[global] Instance member_eq_dec : EqDecision member.
Proof. solve_decision. Defined.

(** ** SQL and JavaScript helpers *)

(** [Object.fromEntries]: a later entry replaces an earlier one with the
    same key. *)
Definition fromEntries `{Countable K} {V : Type} (entries : list (K * V)) : gmap K V :=
  foldl (fun o e => <[e.1 := e.2]> o) ∅ entries.

(** The names that every plain object inherits from [Object.prototype]. *)
Definition Object_prototype : list string :=
  ["constructor"; "__defineGetter__"; "__defineSetter__"; "hasOwnProperty";
   "__lookupGetter__"; "__lookupSetter__"; "isPrototypeOf"; "propertyIsEnumerable";
   "toString"; "valueOf"; "__proto__"; "toLocaleString"].

(** What [o[k]] gives for a plain object [o] that was built from entries: the
    property of the object itself; without one, for a name of
    [Object.prototype], the inherited member, which is a function or, under
    [__proto__], the prototype; and undefined otherwise. *)
Inductive property (V : Type) : Type :=
  | Own (v : V)
  | Inherited
  | Undefined.
Arguments Own {V} v.
Arguments Inherited {V}.
Arguments Undefined {V}.

Definition get {V : Type} (o : gmap string V) (k : string) : property V :=
  match o !! k with
  | Some v => Own v
  | None => if decide (k ∈ Object_prototype) then Inherited else Undefined
  end.

(** [INSERT ... ON CONFLICT (key) DO UPDATE SET] every other column, for each
    row of a list in turn. *)
Definition upsert_all `{Countable K} {V : Type} (entries : list (K * V)) (t : gmap K V) : gmap K V :=
  foldl (fun o e => <[e.1 := e.2]> o) t entries.

(** The value that a run of upserts leaves at [k], starting from [o]. *)
Definition written `{Countable K} {V : Type} (k : K) (o : option V) (l : list (K * V)) : option V :=
  foldl (fun acc e => if decide (e.1 = k) then Some e.2 else acc) o l.

(** [SUM] over a numeric column of the raw tables. *)
Definition sum_points (l : list Q) : Q := Qred (foldr Qplus 0%Q l).

(** [SUM(calculated_points)] *)
Definition sum_numbers (l : list number) : number := foldr nadd (Fin 0) l.

(** [SELECT user_id, league_id, SUM(calculated_points) FROM user_queen_scores
    GROUP BY user_id, league_id], over the rows of the table. *)
Definition score_pair (r : score) : string * Z := (score_user_id r, score_league_id r).

Definition pair_scores (rows : list score) (p : string * Z) : list number :=
  score_calculated_points <$> filter (fun r => score_pair r = p) rows.

Definition standings_select (rows : list score) : list ((string * Z) * number) :=
  (fun p => (p, sum_numbers (pair_scores rows p))) <$> remove_dups (score_pair <$> rows).

(** ** Statements run one after the other *)

Section Run.
Context {State Statement : Type} (exec : Statement -> State -> State).

Definition run (p : list Statement) (s : State) : State :=
  foldl (fun s c => exec c s) s p.

(** One step executes the next statement; a reader may observe the store
    between any two steps. *)
Inductive step : list Statement * State -> list Statement * State -> Prop :=
  | step_exec c p s : step (c :: p, s) (p, exec c s).
End Run.

(** ** Queries shared by the two versions *)

(** [SELECT value FROM settings WHERE key = 'current_episode'] *)
Definition select_setting (key : string) (t : tables) : list string :=
  snd <$> filter (fun r => r.1 = key) (settings t).

Definition getCurrentEpisode (t : tables) : number :=
  let row := select_setting "current_episode" t in
  Parse.parseInt (or_string (head row) "1").

Definition getSettings (t : tables) : gmap string string :=
  fromEntries (settings t).

(** ** The first version of the query library (scores keyed by league and
    contestant) *)

Module V1.

Definition formatMultipliers (settings : gmap string string) : gmap Z number :=
  {[ 1 := Parse.parseFloat (or_string (settings !! "multiplier_rank_1") "2.5");
     2 := Parse.parseFloat (or_string (settings !! "multiplier_rank_2") "2.0");
     3 := Parse.parseFloat (or_string (settings !! "multiplier_rank_3") "1.5");
     4 := Parse.parseFloat (or_string (settings !! "multiplier_rank_4") "1.0") ]}.

(** [user_queen_scores] maps (user_id, league_id, queen_name, episode_number)
    to (calculated_points, rank); [league_standings] maps
    (user_id, league_id) to total_score. *)
Record db : Type := Db {
  base : tables;
  user_queen_scores : gmap (string * Z * string * Z) (number * Z);
  league_standings : gmap (string * Z) number }.

Definition score_rows (s : db) : list score :=
  (fun e => match e with ((u, l, q, ep), (p, rk)) => Score u l q ep p rk end)
    <$> map_to_list (user_queen_scores s).

Inductive statement : Type :=
  | UpsertScore (k : string * Z * string * Z) (v : number * Z)
  | UpsertStandings.

Definition exec (c : statement) (s : db) : db :=
  match c with
  | UpsertScore k v =>
      Db (base s) (<[k := v]> (user_queen_scores s)) (league_standings s)
  | UpsertStandings =>
      Db (base s) (user_queen_scores s)
         (upsert_all (standings_select (score_rows s)) (league_standings s))
  end.

Definition allRosters (t : tables) (episodeNumber : Z) : list roster :=
  filter (fun r => roster_episode_number r = episodeNumber) (rosters t).

Definition queenPoints (t : tables) (episodeNumber : Z) : list (string * number) :=
  let rows := filter (fun b => box_episode_number b = episodeNumber) (queen_box_scores t) in
  (fun q => (q, Fin (sum_points (box_points <$> filter (fun b => box_queen_name b = q) rows))))
    <$> remove_dups (box_queen_name <$> rows).

Definition pointsMap (t : tables) (episodeNumber : Z) : gmap string number :=
  fromEntries (queenPoints t episodeNumber).

Definition mults (t : tables) : gmap Z number := formatMultipliers (getSettings t).

(** [parseFloat(pointsMap[roster.queen_name] || 0)].  An inherited member is
    an object and so truthy; [parseFloat] reads its text, which starts with
    [function] or is [[object Object]], as NaN. *)
Definition rawPoints (t : tables) (episodeNumber : Z) (queen_name : string) : number :=
  match get (pointsMap t episodeNumber) queen_name with
  | Own n => parseFloat_number (or_number (Some n) (Fin 0))
  | Inherited => NaN
  | Undefined => parseFloat_number (Fin 0)
  end.

Definition multiplier (t : tables) (rank : Z) : number :=
  or_number (mults t !! rank) (Fin 1).

Definition points (t : tables) (episodeNumber : Z) (r : roster) : number :=
  nmul (rawPoints t episodeNumber (roster_queen_name r)) (multiplier t (roster_rank r)).

Definition score_key (episodeNumber : Z) (r : roster) : string * Z * string * Z :=
  (roster_user_id r, roster_league_id r, roster_queen_name r, episodeNumber).

(** Step 3: one upsert per roster entry. *)
Definition persist (t : tables) (episodeNumber : Z) : list statement :=
  (fun r => UpsertScore (score_key episodeNumber r) (points t episodeNumber r, roster_rank r))
    <$> allRosters t episodeNumber.

(** Step 4: the season totals, in one statement. *)
Definition rebuild : list statement := [UpsertStandings].

Definition script (t : tables) (episodeNumber : Z) : list statement :=
  persist t episodeNumber ++ rebuild.

Definition recalculateScores (episodeNumber : Z) (s : db) : db :=
  run exec (script (base s) episodeNumber) s.

End V1.

(** ** The second version of the query library (scores keyed by user and
    rank) *)

Module V2.

Definition formatMultipliers (settings : gmap string string) : gmap Z number :=
  {[ 1 := Parse.parseFloat (or_string (settings !! "multiplier_rank_1") "2.0");
     2 := Parse.parseFloat (or_string (settings !! "multiplier_rank_2") "1.5");
     3 := Parse.parseFloat (or_string (settings !! "multiplier_rank_3") "1.0");
     4 := Parse.parseFloat (or_string (settings !! "multiplier_rank_4") "0.5") ]}.

(** [user_queen_scores] maps (user_id, rank, episode_number) to
    (league_id, queen_name, calculated_points). *)
Record db : Type := Db {
  base : tables;
  user_queen_scores : gmap (string * Z * Z) (Z * string * number);
  league_standings : gmap (string * Z) number }.

Definition score_rows (s : db) : list score :=
  (fun e => match e with ((u, rk, ep), (l, q, p)) => Score u l q ep p rk end)
    <$> map_to_list (user_queen_scores s).

Inductive statement : Type :=
  | UpsertScore (k : string * Z * Z) (v : Z * string * number)
  | DeleteStandings
  | InsertStandings.

(** A plain [INSERT] that meets an existing (user_id, league_id) is rejected
    and changes nothing. *)
Definition insert_all (entries : list ((string * Z) * number)) (t : gmap (string * Z) number)
  : gmap (string * Z) number :=
  if decide (Forall (fun e => t !! e.1 = None) entries) then upsert_all entries t else t.

Definition exec (c : statement) (s : db) : db :=
  match c with
  | UpsertScore k v =>
      Db (base s) (<[k := v]> (user_queen_scores s)) (league_standings s)
  | DeleteStandings =>
      Db (base s) (user_queen_scores s) ∅
  | InsertStandings =>
      Db (base s) (user_queen_scores s)
         (insert_all (standings_select (score_rows s)) (league_standings s))
  end.

(** A row of the [epPoints] query. *)
Record epPoints_row : Type := EpPoints {
  ep_user_id : string;
  ep_league_id : Z;
  ep_rank : Z;
  ep_queen_name : string;
  ep_raw_points : number }.

(** [rosters r JOIN league_members lm ON r.user_id = lm.user_id WHERE
    r.episode_number = episodeNumber] *)
Definition joined (t : tables) (episodeNumber : Z) : list (roster * member) :=
  r ← filter (fun r => roster_episode_number r = episodeNumber) (rosters t);
  lm ← filter (fun lm => roster_user_id r = member_user_id lm) (league_members t);
  [(r, lm)].

(** The [GROUP BY] columns: r.user_id, lm.league_id, r.rank, r.queen_name. *)
Definition group_of (j : roster * member) : string * Z * Z * string :=
  (roster_user_id j.1, member_league_id j.2, roster_rank j.1, roster_queen_name j.1).

(** The [qbs.points] of a group after the [LEFT JOIN]: every joined row
    contributes the box scores of its contestant and episode. *)
Definition group_points (t : tables) (episodeNumber : Z) (g : string * Z * Z * string) : list Q :=
  j ← filter (fun j => group_of j = g) (joined t episodeNumber);
  box_points <$> filter (fun b => roster_queen_name j.1 = box_queen_name b
                                  /\ roster_episode_number j.1 = box_episode_number b)
                        (queen_box_scores t).

(** [COALESCE(SUM(qbs.points), 0)] *)
Definition raw_points (t : tables) (episodeNumber : Z) (g : string * Z * Z * string) : number :=
  match group_points t episodeNumber g with
  | [] => Fin 0
  | l => Fin (sum_points l)
  end.

Definition epPoints (t : tables) (episodeNumber : Z) : list epPoints_row :=
  (fun g => match g with (u, l, rk, q) =>
              EpPoints u l rk q (raw_points t episodeNumber g) end)
    <$> remove_dups (group_of <$> joined t episodeNumber).

Definition weighted (multipliers : gmap Z number) (row : epPoints_row) : number :=
  nmul (parseFloat_number (ep_raw_points row))
       (or_number (multipliers !! ep_rank row) (Fin 1)).

Definition score_key (episodeNumber : Z) (row : epPoints_row) : string * Z * Z :=
  (ep_user_id row, ep_rank row, episodeNumber).

(** Step 2: one upsert per row of the query. *)
Definition persist (t : tables) (episodeNumber : Z) (multipliers : gmap Z number) : list statement :=
  (fun row => UpsertScore (score_key episodeNumber row)
                          (ep_league_id row, ep_queen_name row, weighted multipliers row))
    <$> epPoints t episodeNumber.

(** Step 3: the cache is emptied, then filled again, in two statements. *)
Definition rebuild : list statement := [DeleteStandings; InsertStandings].

Definition script (t : tables) (episodeNumber : Z) (multipliers : gmap Z number) : list statement :=
  persist t episodeNumber multipliers ++ rebuild.

Definition recalculateScores (episodeNumber : Z) (multipliers : gmap Z number) (s : db) : db :=
  run exec (script (base s) episodeNumber multipliers) s.

End V2.

(** ** The rows that a run writes *)

(** The (key, columns) pairs of the upserts of a run, in the order of the
    loop. *)
Definition V1_entries (t : tables) (ep : Z) : list ((string * Z * string * Z) * (number * Z)) :=
  (fun r => (V1.score_key ep r, (V1.points t ep r, roster_rank r))) <$> V1.allRosters t ep.

Definition V2_entries (t : tables) (ep : Z) (m : gmap Z number)
  : list ((string * Z * Z) * (Z * string * number)) :=
  (fun row => (V2.score_key ep row, (V2.ep_league_id row, V2.ep_queen_name row, V2.weighted m row)))
    <$> V2.epPoints t ep.

(** Every row of the cache belongs to a pair that has scores.  The first
    version never deletes from either table, so this holds of every store it
    builds up from empty tables. *)
Definition V1_backed (s : V1.db) : Prop :=
  forall p total, V1.league_standings s !! p = Some total ->
    exists r, r ∈ V1.score_rows s /\ score_pair r = p.

(** ** Joining and creating leagues *)

Module Membership.

(** The request as the handlers read it: the [userId] cookie and the
    [inviteCode] form field, either of which may be absent. *)
Record request : Type := Request {
  cookie_userId : option string;
  form_inviteCode : option string }.

Inductive response : Type :=
  | Redirect (url : string)
  | RedirectLeague (id : Z)
  | Rejected.

(** [s.toUpperCase()] on a text of ASCII characters, where only the letters
    a-z change.  The mapping of the other letters of Unicode is outside the
    model: the bytes of a character above U+007F are left as they are. *)
Definition upper (c : ascii) : ascii :=
  let n := nat_of_ascii c in
  if ((97 <=? n) && (n <=? 122))%nat then ascii_of_nat (n - 32) else c.

Fixpoint toUpperCase (s : string) : string :=
  match s with
  | String c s' => String (upper c) (toUpperCase s')
  | EmptyString => EmptyString
  end.

(** [s.trim()] *)
Definition trim (s : string) : string :=
  Parse.trim_right (Parse.trim_left s).

(** [SELECT id FROM leagues WHERE invite_code = inviteCode]; an absent code
    matches nothing. *)
Definition select_league (inviteCode : option string) (t : tables) : list Z :=
  match inviteCode with
  | Some code => league_id <$> filter (fun l => league_invite_code l = code) (leagues t)
  | None => []
  end.

Definition set_members (lm : list member) (t : tables) : tables :=
  Tables (rosters t) (queen_box_scores t) (settings t) lm (leagues t).

(** [INSERT INTO league_members ... ON CONFLICT DO NOTHING].  The conflict is
    on (league_id, user_id), the unique index that the second handler names
    as its target and that the data model asks for. *)
Definition insert_do_nothing (row : member) (lm : list member) : list member :=
  if decide (row ∈ lm) then lm else (lm ++ [row])%list.

(** A plain [INSERT INTO league_members]: a row that meets the unique index
    on (league_id, user_id) is rejected. *)
Definition insert_plain (row : member) (lm : list member) : option (list member) :=
  if decide (row ∈ lm) then None else Some (lm ++ [row])%list.

(** The handler that redirects to the league page (it does not look at the
    cookie before the insert; without a user id the statement has no value
    to bind and is rejected). *)
Module JoinA.
Definition POST (req : request) (t : tables) : tables * response :=
  let userId := cookie_userId req in
  let inviteCode := toUpperCase <$> form_inviteCode req in
  match select_league inviteCode t with
  | id :: _ =>
      match userId with
      | Some u => (set_members (insert_do_nothing (Member id u) (league_members t)) t,
                   RedirectLeague id)
      | None => (t, Rejected)
      end
  | [] => (t, Redirect "/dashboard?error=invalid_code")
  end.
End JoinA.

(** The handler that first sends a visitor without a user id to the login
    page. *)
Module JoinB.
Definition POST (req : request) (t : tables) : tables * response :=
  match cookie_userId req with
  | None => (t, Redirect "/login")
  | Some userId =>
      if decide (userId = "") then (t, Redirect "/login") else
      let inviteCode := (fun c => toUpperCase (trim c)) <$> form_inviteCode req in
      match select_league inviteCode t with
      | [] => (t, Redirect "/leagues?error=notfound")
      | id :: _ =>
          (set_members (insert_do_nothing (Member id userId) (league_members t)) t,
           Redirect "/leagues")
      end
  end.
End JoinB.

(** [createLeague(userId, leagueName)].  Two choices are made outside the
    sources and are arguments here: the invite code, which is drawn at
    random, and the id of the new league, which is whatever
    [INSERT INTO leagues ... RETURNING id] hands out.  The two statements are
    awaited one after the other, without a transaction: when the second one
    is rejected the league stays and no id is returned. *)
Definition createLeague (id : Z) (inviteCode userId leagueName : string) (t : tables)
  : tables * option Z :=
  let t1 := Tables (rosters t) (queen_box_scores t) (settings t) (league_members t)
                   (leagues t ++ [League id inviteCode leagueName userId])%list in
  match insert_plain (Member id userId) (league_members t1) with
  | Some lm => (set_members lm t1, Some id)
  | None => (t1, None)
  end.

End Membership.

(** ** Writing the settings and the leagues *)

Definition set_settings (rows : list (string * string)) (t : tables) : tables :=
  Tables (rosters t) (queen_box_scores t) rows (league_members t) (leagues t).

Definition set_rosters (rows : list roster) (t : tables) : tables :=
  Tables rows (queen_box_scores t) (settings t) (league_members t) (leagues t).

Definition set_leagues (rows : list league) (t : tables) : tables :=
  Tables (rosters t) (queen_box_scores t) (settings t) (league_members t) rows.

(** [INSERT INTO settings (key, value) VALUES (key, value) ON CONFLICT (key)
    DO UPDATE SET value = value]: the row of the key takes the value, or a
    new row is added. *)
Definition upsert_setting (key value : string) (rows : list (string * string))
  : list (string * string) :=
  if decide (key ∈ rows.*1)
  then (fun r => if decide (r.1 = key) then (key, value) else r) <$> rows
  else rows ++ [(key, value)].

Definition updateSetting (key value : string) (t : tables) : tables :=
  set_settings (upsert_setting key value (settings t)) t.

(** [updateSettingsBatch(updates)], over the entries of [updates] in their
    order: an entry with a falsy value, the empty text, is passed over. *)
Definition updateSettingsBatch (updates : list (string * string)) (t : tables) : tables :=
  foldl (fun t e => if decide (e.2 = "") then t else updateSetting e.1 e.2 t) t updates.

(** [UPDATE leagues SET league_name = newName WHERE id = leagueId AND
    created_by = userId RETURNING id] *)
Definition updateLeagueName (leagueId : Z) (userId newName : string) (t : tables)
  : tables * list Z :=
  (set_leagues
     ((fun l => if decide (league_id l = leagueId /\ league_created_by l = userId)
                then League (league_id l) (league_invite_code l) newName (league_created_by l)
                else l) <$> leagues t) t,
   league_id <$> filter (fun l => league_id l = leagueId /\ league_created_by l = userId)
                        (leagues t)).

(** A row of [getLeagueDetails]: the league and its number of members. *)
Record league_details : Type := LeagueDetails {
  details_league : league;
  details_member_count : Z }.

(** [SELECT COUNT( * ) FROM league_members WHERE league_id = id] *)
Definition count_members (id : Z) (t : tables) : Z :=
  Z.of_nat (length (filter (fun lm => member_league_id lm = id) (league_members t))).

(** [getLeagueDetails(leagueId, userId)]: the first row of the join of the
    league with the membership of the user, or undefined. *)
Definition getLeagueDetails (leagueId : Z) (userId : string) (t : tables)
  : option league_details :=
  head (l ← filter (fun l => league_id l = leagueId) (leagues t);
        lm ← filter (fun lm => league_id l = member_league_id lm /\ member_user_id lm = userId)
                    (league_members t);
        [LeagueDetails l (count_members (league_id l) t)]).

(** Every membership is that of a league of the table (the foreign key of
    [league_members]). *)
Definition members_reference_leagues (t : tables) : Prop :=
  forall lm, lm ∈ league_members t ->
    exists lg, lg ∈ leagues t /\ league_id lg = member_league_id lm.

(** A text that does not start with white space. *)
Definition no_leading_ws (backwards : bool) (s : string) : Prop :=
  Parse.ws_head backwards s = None.

(** A text of ASCII characters. *)
Definition ascii_text (s : string) : Prop :=
  Forall (fun c => (nat_of_ascii c < 128)%nat) (list_ascii_of_string s).

(** ** Users *)

(** [users] *)
Record user : Type := User {
  user_id : string;
  user_username : string;
  user_is_active : bool }.

(** [UPDATE users SET is_active = !currentStatus WHERE id = targetId] *)
Definition toggleUserStatus (targetId : string) (currentStatus : bool) (users : list user)
  : list user :=
  (fun x => if decide (user_id x = targetId)
            then User (user_id x) (user_username x) (negb currentStatus)
            else x) <$> users.

(** ** Rosters and the team page of the first version *)

Module Roster1.

(** An element of [selections]. *)
Record selection : Type := Selection {
  sel_queen_name : string;
  sel_rank : Z }.

Definition same_roster (userId : string) (leagueId episode : Z) (r : roster) : Prop :=
  roster_user_id r = userId /\ roster_league_id r = leagueId /\ roster_episode_number r = episode.

#[global] Instance same_roster_dec userId leagueId episode r :
  Decision (same_roster userId leagueId episode r).
Proof. unfold same_roster. apply _. Defined.

(** [saveRosterSelection(userId, leagueId, episode, selections)]: one
    [DELETE], then one [INSERT] per selection. *)
Definition saveRosterSelection (userId : string) (leagueId episode : Z)
    (selections : list selection) (t : tables) : tables :=
  let cleared := filter (fun r => ~ same_roster userId leagueId episode r) (rosters t) in
  set_rosters
    (foldl (fun rows s =>
              rows ++ [Roster userId leagueId (sel_queen_name s) (sel_rank s) episode])
           cleared selections) t.

(** A row of [getUserTeam]. *)
Record team_row : Type := TeamRow {
  team_queen_name : string;
  team_rank : Z;
  team_calculated_points : number }.

Definition rank_le (a b : team_row) : Prop := team_rank a <= team_rank b.

#[global] Instance rank_le_dec a b : Decision (rank_le a b).
Proof. unfold rank_le. apply _. Defined.

(** [getUserTeam(userId, currentEp, leagueId)]: the roster of the user, each
    entry with the points of its score row or 0 when there is none, ordered
    by rank (rows of equal rank in the order the sort leaves them). *)
Definition getUserTeam (userId : string) (currentEp leagueId : Z) (s : V1.db)
  : list team_row :=
  merge_sort rank_le
    (r ← filter (fun r => roster_user_id r = userId /\ roster_episode_number r = currentEp
                          /\ roster_league_id r = leagueId) (rosters (V1.base s));
     match V1.user_queen_scores s
             !! (roster_user_id r, roster_league_id r, roster_queen_name r,
                 roster_episode_number r) with
     | Some (p, _) => [TeamRow (roster_queen_name r) (roster_rank r) p]
     | None => [TeamRow (roster_queen_name r) (roster_rank r) (Fin 0)]
     end).

(** What an operator and the users do to a store of the first version: a
    recalculation, a roster submission, a batch of settings. *)
Inductive operation : Type :=
  | Recalculate (episodeNumber : Z)
  | SaveRoster (userId : string) (leagueId episode : Z) (selections : list selection)
  | UpdateSettings (updates : list (string * string)).

Definition with_base (f : tables -> tables) (s : V1.db) : V1.db :=
  V1.Db (f (V1.base s)) (V1.user_queen_scores s) (V1.league_standings s).

Definition apply (s : V1.db) (o : operation) : V1.db :=
  match o with
  | Recalculate ep => V1.recalculateScores ep s
  | SaveRoster u l e selections => with_base (saveRosterSelection u l e selections) s
  | UpdateSettings updates => with_base (updateSettingsBatch updates) s
  end.

End Roster1.

(** The row that [saveRosterSelection] inserts for a selection. *)
Definition selected (userId : string) (leagueId episode : Z) (sel : Roster1.selection)
  : roster :=
  Roster userId leagueId (Roster1.sel_queen_name sel) (Roster1.sel_rank sel) episode.

(** ** The dashboard of the second version *)

Module Dashboard2.

(** A row of [getUserLeagues]. *)
Record league_summary : Type := LeagueSummary {
  summary_id : Z;
  summary_league_name : string;
  summary_invite_code : string;
  summary_season_total : number;
  summary_weekly_score : number;
  summary_member_count : Z }.

(** [SELECT COALESCE(SUM(calculated_points), 0) FROM user_queen_scores WHERE
    user_id = userId AND episode_number = currentEp AND league_id = id] *)
Definition weekly_score (userId : string) (currentEp id : Z) (s : V2.db) : number :=
  match score_calculated_points <$>
          filter (fun r => score_user_id r = userId /\ score_episode_number r = currentEp
                           /\ score_league_id r = id) (V2.score_rows s) with
  | [] => Fin 0
  | l => sum_numbers l
  end.

(** [getUserLeagues(userId, currentEp)]: the leagues of the user, each with
    the cached season total (0 without a standings row), the points of the
    episode and the number of members. *)
Definition getUserLeagues (userId : string) (currentEp : Z) (s : V2.db)
  : list league_summary :=
  l ← leagues (V2.base s);
  lm ← filter (fun lm => league_id l = member_league_id lm /\ member_user_id lm = userId)
              (league_members (V2.base s));
  [LeagueSummary (league_id l) (league_name l) (league_invite_code l)
     (default (Fin 0) (V2.league_standings s !! (userId, league_id l)))
     (weekly_score userId currentEp (league_id l) s)
     (count_members (league_id l) (V2.base s))].

End Dashboard2.

(** ** The team page of the second version *)

Module Team2.

(** The condition of the [LEFT JOIN] of [getUserTeam]: user, contestant and
    episode; neither the league nor the rank of the score row is compared. *)
Definition matches (r : roster) (x : score) : Prop :=
  roster_user_id r = score_user_id x /\ roster_queen_name r = score_queen_name x /\
  roster_episode_number r = score_episode_number x.

#[global] Instance matches_dec r x : Decision (matches r x).
Proof. unfold matches. apply _. Defined.

(** The rows of one roster entry: one per matching score row, or one with 0
    points when there is none. *)
Definition joined_rows (r : roster) (s : V2.db) : list Roster1.team_row :=
  match filter (matches r) (V2.score_rows s) with
  | [] => [Roster1.TeamRow (roster_queen_name r) (roster_rank r) (Fin 0)]
  | xs => (fun x => Roster1.TeamRow (roster_queen_name r) (roster_rank r)
                      (score_calculated_points x)) <$> xs
  end.

(** [getUserTeam(userId, currentEp)], ordered by rank (rows of equal rank in
    the order the sort leaves them). *)
Definition getUserTeam (userId : string) (currentEp : Z) (s : V2.db)
  : list Roster1.team_row :=
  merge_sort Roster1.rank_le
    (r ← filter (fun r => roster_user_id r = userId /\ roster_episode_number r = currentEp)
                (rosters (V2.base s));
     joined_rows r s).

End Team2.

(** ** The resolver policy in the words of the specification *)

Definition positive (n : number) : bool :=
  match n with
  | NaN => false
  | Infinity negative => negb negative
  | Fin q => 0 <? Qnum q
  end.

(** "Parse each configured value as a decimal number; if missing, unparsable,
    or non-positive, substitute a fixed default for that rank." *)
Definition resolve_by_policy (default : number) (configured : option string) : number :=
  match configured with
  | None => default
  | Some v => let n := Parse.parseFloat v in if positive n then n else default
  end.

(** The setting that configures a rank, and the default texts of the two
    versions of [formatMultipliers]. *)
Definition multiplier_key (r : Z) : string :=
  match r with
  | 1 => "multiplier_rank_1"
  | 2 => "multiplier_rank_2"
  | 3 => "multiplier_rank_3"
  | _ => "multiplier_rank_4"
  end.

Definition V1_default (r : Z) : string :=
  match r with 1 => "2.5" | 2 => "2.0" | 3 => "1.5" | _ => "1.0" end.

Definition V2_default (r : Z) : string :=
  match r with 1 => "2.0" | 2 => "1.5" | 3 => "1.0" | _ => "0.5" end.

(** ** The season total in the words of the specification *)

(** "The sum of their EpisodeScore rows across all episodes": the calculated
    points of the rows of the user and the league, whatever their episode,
    added up. *)
Fixpoint season_total (rows : list score) (u : string) (l : Z) : number :=
  match rows with
  | [] => Fin 0
  | r :: rows' =>
      if decide (score_user_id r = u /\ score_league_id r = l)
      then nadd (score_calculated_points r) (season_total rows' u l)
      else season_total rows' u l
  end.

(** ** Sample stores *)

Module Sample.

(** One user in two leagues, the same contestant at rank 1 in both; two box
    scores, 3 and 4, for the contestant in episode 2. *)
Definition two_leagues : tables := Tables
  [Roster "ada" 1 "Bob" 1 2; Roster "ada" 2 "Bob" 1 2]
  [BoxScore "Bob" 2 (3 # 1); BoxScore "Bob" 2 (4 # 1)]
  []
  [Member 1 "ada"; Member 2 "ada"]
  [League 1 "AAAA1111" "First" "ada"; League 2 "BBBB2222" "Second" "ada"].

(** One user with one pick, member of two leagues. *)
Definition one_pick : tables := Tables
  [Roster "ada" 1 "Bob" 1 2]
  [BoxScore "Bob" 2 (3 # 1); BoxScore "Bob" 2 (4 # 1)]
  []
  [Member 1 "ada"; Member 2 "ada"]
  [League 1 "AAAA1111" "First" "ada"; League 2 "BBBB2222" "Second" "ada"].

(** Two users, each in a league of their own, both with the same contestant
    at rank 1; every multiplier is configured. *)
Definition two_users : tables := Tables
  [Roster "ada" 1 "Bob" 1 2; Roster "eve" 2 "Bob" 1 2]
  [BoxScore "Bob" 2 (3 # 1); BoxScore "Bob" 2 (4 # 1)]
  [("multiplier_rank_1", "2.5"); ("multiplier_rank_2", "2.0");
   ("multiplier_rank_3", "1.5"); ("multiplier_rank_4", "1.0")]
  [Member 1 "ada"; Member 2 "eve"]
  [League 1 "AAAA1111" "First" "ada"; League 2 "BBBB2222" "Second" "eve"].

(** As [two_leagues], with every multiplier configured. *)
Definition two_leagues_configured : tables := Tables
  (rosters two_leagues) (queen_box_scores two_leagues)
  (settings two_users) (league_members two_leagues) (leagues two_leagues).

(** One user, one league, rank 2, raw points 5 in episode 2. *)
Definition second_episode : tables := Tables
  [Roster "ada" 1 "Bob" 2 2]
  [BoxScore "Bob" 2 (5 # 1)]
  [("multiplier_rank_1", "2.5"); ("multiplier_rank_2", "2.0");
   ("multiplier_rank_3", "1.5"); ("multiplier_rank_4", "1.0")]
  [Member 1 "ada"]
  [League 1 "AAAA1111" "First" "ada"].

(** The stores of the two versions after episode 1 gave 17.5 points. *)
Definition after_first_V1 : V1.db :=
  V1.Db second_episode {[ ("ada", 1, "Bob", 1) := (Fin (35 # 2), 1) ]}
        {[ ("ada", 1) := Fin (35 # 2) ]}.

Definition after_first_V2 : V2.db :=
  V2.Db second_episode {[ ("ada", 1, 1) := (1, "Bob", Fin (35 # 2)) ]}
        {[ ("ada", 1) := Fin (35 # 2) ]}.

(** Stores whose standings hold a row of a pair without scores. *)
Definition stale_V1 : V1.db :=
  V1.Db second_episode ∅ {[ ("zoe", 9) := Fin (3 # 1) ]}.

Definition stale_V2 : V2.db :=
  V2.Db second_episode ∅ {[ ("zoe", 9) := Fin (3 # 1) ]}.

(** One league and no settings at all: one user with a pick at rank 1,
    another with the same pick at rank 5 and, at rank 2, a contestant
    without box scores. *)
Definition unconfigured : tables := Tables
  [Roster "ada" 1 "Bob" 1 2; Roster "eve" 1 "Bob" 5 2; Roster "eve" 1 "Cat" 2 2]
  [BoxScore "Bob" 2 (3 # 1); BoxScore "Bob" 2 (4 # 1)]
  []
  [Member 1 "ada"; Member 1 "eve"]
  [League 1 "AAAA1111" "First" "ada"].

(** Requests of a member of league 1 who enters its invite code again. *)
Definition rejoin : Membership.request :=
  Membership.Request (Some "ada") (Some " aaaa1111 ").

Definition rejoin_exact : Membership.request :=
  Membership.Request (Some "ada") (Some "aaaa1111").

(** A request of the same user for the other league. *)
Definition join_other : Membership.request :=
  Membership.Request (Some "ada") (Some "bbbb2222").

(** A store without a setting for the current episode, and one where the
    setting is empty. *)
Definition no_episode : tables := two_users.

Definition empty_episode : tables := Tables [] [] [("current_episode", "")] [] [].

End Sample.

(** ** Sample operations *)

Module Scenario.

(** A batch of settings: a new episode, a new multiplier of rank 1, and an
    empty value for the multiplier of rank 2. *)
Definition updates : list (string * string) :=
  [("current_episode", "3"); ("multiplier_rank_1", "3"); ("multiplier_rank_2", "")].

(** A batch whose value for the current episode is empty. *)
Definition no_new_episode : list (string * string) :=
  [("current_episode", ""); ("multiplier_rank_1", "3")].

(** A roster submission: two picks, the second of the better rank. *)
Definition picks : list Roster1.selection :=
  [Roster1.Selection "Cat" 2; Roster1.Selection "Bob" 1].

(** A roster submission without the contestant picked before. *)
Definition other_pick : list Roster1.selection := [Roster1.Selection "Cat" 1].

(** A store where the multiplier of rank 1 is configured as 0; the second
    member picked a contestant named [constructor], who has no box score. *)
Definition zero_multiplier : tables := Tables
  [Roster "ada" 1 "Bob" 1 2; Roster "eve" 1 "constructor" 1 2]
  [BoxScore "Bob" 2 (3 # 1); BoxScore "Bob" 2 (4 # 1)]
  [("multiplier_rank_1", "0")]
  [Member 1 "ada"; Member 1 "eve"]
  [League 1 "AAAA1111" "First" "ada"].

(** A league of four whose first member picked a contestant named
    [constructor], who has no box score; the multiplier of rank 2 is
    configured as 3, the others are not configured. *)
Definition inherited_name : tables := Tables
  [Roster "ada" 1 "constructor" 1 2; Roster "eve" 1 "Bob" 1 2;
   Roster "eve" 1 "Cat" 2 2; Roster "zoe" 1 "Bob" 5 2; Roster "liz" 1 "Bob" 2 2]
  [BoxScore "Bob" 2 (3 # 1); BoxScore "Bob" 2 (4 # 1)]
  [("multiplier_rank_2", "3")]
  [Member 1 "ada"; Member 1 "eve"; Member 1 "zoe"; Member 1 "liz"]
  [League 1 "AAAA1111" "First" "ada"].

(** Two users and two leagues, the first user in both, with every
    multiplier configured and the scores of episode 1 in the stores of the
    two versions.  In the store of the second version only the second user
    has a roster for episode 2. *)
Definition season : tables := Tables
  [Roster "ada" 1 "Bob" 2 2; Roster "ada" 2 "Cat" 1 2; Roster "eve" 1 "Cat" 2 2]
  [BoxScore "Bob" 2 (5 # 1); BoxScore "Cat" 2 (2 # 1)]
  (settings Sample.two_users)
  [Member 1 "ada"; Member 2 "ada"; Member 1 "eve"]
  [League 1 "AAAA1111" "First" "ada"; League 2 "BBBB2222" "Second" "ada"].

Definition season_V1 : V1.db :=
  V1.Db season
    {[ ("ada", 1, "Bob", 1) := (Fin (35 # 2), 1); ("ada", 2, "Bob", 1) := (Fin 4, 3);
       ("eve", 1, "Cat", 1) := (Fin 3, 2) ]}
    {[ ("ada", 1) := Fin (35 # 2); ("ada", 2) := Fin 4; ("eve", 1) := Fin 3 ]}.

Definition season_V2 : V2.db :=
  V2.Db (Tables [Roster "eve" 1 "Cat" 2 2] (queen_box_scores season) (settings season)
                (league_members season) (leagues season))
    {[ ("ada", 1, 1) := (1, "Bob", Fin (35 # 2)); ("ada", 3, 1) := (2, "Bob", Fin 4);
       ("eve", 2, 1) := (1, "Cat", Fin 3) ]}
    {[ ("ada", 1) := Fin (35 # 2); ("ada", 2) := Fin 4; ("eve", 1) := Fin 3 ]}.

(** The store of the first version after episode 2 was scored. *)
Definition scored : V1.db := V1.recalculateScores 2 (V1.Db Sample.unconfigured ∅ ∅).

(** A roster submission, a batch of settings and a recalculation. *)
Definition operations : list Roster1.operation :=
  [Roster1.SaveRoster "ada" 1 2 picks; Roster1.UpdateSettings updates;
   Roster1.Recalculate 2; Roster1.SaveRoster "ada" 1 2 other_pick].

Definition users : list user := [User "ada" "Ada" true; User "eve" "Eve" false].

(** A roster submission with a contestant named [constructor]. *)
Definition inherited_pick : list Roster1.selection :=
  [Roster1.Selection "constructor" 1; Roster1.Selection "Bob" 2].

(** The no-break space, U+00A0, and the request of a user who enters the
    invite code of league 2 in lower case between two of them. *)
Definition nbsp : string := String "194" (String "160" "").

Definition join_padded : Membership.request :=
  Membership.Request (Some "ada") (Some (String.app nbsp (String.app "bbbb2222" nbsp))).

End Scenario.

(** * Properties *)

(** ** The built-ins on a few texts *)

Example parseFloat_decimal : Parse.parseFloat "2.5" = Fin (5 # 2).
Proof. reflexivity. Qed.
Example parseFloat_unparsable : Parse.parseFloat "abc" = NaN.
Proof. reflexivity. Qed.
Example parseFloat_prefix : Parse.parseFloat "  -1.50e1xyz" = Fin (-15 # 1).
Proof. reflexivity. Qed.
Example parseFloat_dot : Parse.parseFloat "." = NaN.
Proof. reflexivity. Qed.
Example parseFloat_trailing_dot : Parse.parseFloat "5." = Fin 5.
Proof. reflexivity. Qed.
Example parseFloat_dangling_exponent : Parse.parseFloat ".5e" = Fin (1 # 2).
Proof. reflexivity. Qed.
Example parseFloat_infinity : Parse.parseFloat "-Infinity" = Infinity true.
Proof. reflexivity. Qed.
Example parseFloat_negative_exponent : Parse.parseFloat "1e-2" = Fin (1 # 100).
Proof. reflexivity. Qed.
Example parseInt_one : Parse.parseInt "1" = Fin 1.
Proof. reflexivity. Qed.
Example parseInt_prefix : Parse.parseInt " 12abc" = Fin 12.
Proof. reflexivity. Qed.
Example parseInt_hex : Parse.parseInt "0x1f" = Fin 31.
Proof. reflexivity. Qed.
Example parseInt_unparsable : Parse.parseInt "x" = NaN.
Proof. reflexivity. Qed.
Example toUpperCase_code : Membership.toUpperCase (Membership.trim " aaaa1111 ") = "AAAA1111".
Proof. reflexivity. Qed.

(** ** Upserts *)

Section Upsert.
Context `{Countable K} {V : Type}.
Implicit Types (l : list (K * V)) (t : gmap K V) (k : K) (o : option V).

Lemma lookup_upsert_all l t k :
  upsert_all l t !! k = written k (t !! k) l.
Proof.
  unfold upsert_all, written. revert t.
  induction l as [|[k' v'] l IH]; intros t; simpl; [done|].
  rewrite IH, lookup_insert. done.
Qed.

Lemma written_cases k l :
  (forall o, written k o l = o) \/ (exists v, forall o, written k o l = Some v).
Proof.
  unfold written.
  induction l as [|[k' v'] l IH] using rev_ind; [by left|].
  setoid_rewrite foldl_app. simpl.
  destruct (decide (k' = k)) as [->|Hne]; [right; by exists v'|].
  destruct IH as [IH|[v IH]]; [left|right; exists v]; intros o; by rewrite IH.
Qed.

Lemma written_notin k o l : k ∉ l.*1 -> written k o l = o.
Proof.
  unfold written. revert o.
  induction l as [|[k' v'] l IH]; intros o Hk; simpl in *; [done|].
  apply not_elem_of_cons in Hk as [Hne Hk].
  rewrite decide_False by done. by apply IH.
Qed.

Lemma written_last k o pre v post :
  k ∉ post.*1 -> written k o (pre ++ (k, v) :: post) = Some v.
Proof.
  intros Hk. unfold written. rewrite foldl_app. simpl.
  rewrite decide_True by done. by apply written_notin.
Qed.

Lemma written_NoDup k v o l :
  NoDup l.*1 -> (k, v) ∈ l -> written k o l = Some v.
Proof.
  intros Hnd Hin. apply list_elem_of_split in Hin as (pre & post & ->).
  apply written_last.
  rewrite fmap_app, fmap_cons in Hnd. simpl in Hnd.
  apply NoDup_app in Hnd as (_ & _ & Hnd). by apply NoDup_cons in Hnd as [? _].
Qed.

Lemma upsert_all_app l1 l2 t :
  upsert_all (l1 ++ l2) t = upsert_all l2 (upsert_all l1 t).
Proof. unfold upsert_all. apply foldl_app. Qed.

(** Upserting the same rows again changes nothing. *)
Lemma upsert_all_idem l t : upsert_all l (upsert_all l t) = upsert_all l t.
Proof.
  apply map_eq; intros k. rewrite !lookup_upsert_all.
  destruct (written_cases k l) as [Hw|[v Hw]]; by rewrite !Hw.
Qed.

Lemma upsert_all_nonempty l t : l <> [] -> upsert_all l t <> ∅.
Proof.
  destruct l as [|e l] using rev_ind; [done|]. intros _.
  rewrite upsert_all_app. simpl. unfold upsert_all at 1. simpl.
  apply insert_non_empty.
Qed.
End Upsert.

Lemma run_app {State Statement : Type} (exec : Statement -> State -> State) p1 p2 s :
  run exec (p1 ++ p2) s = run exec p2 (run exec p1 s).
Proof. unfold run. apply foldl_app. Qed.

(** ** The engine as two table updates *)

Lemma V1_run_upserts l s :
  run V1.exec ((fun e => V1.UpsertScore e.1 e.2) <$> l) s
  = V1.Db (V1.base s) (upsert_all l (V1.user_queen_scores s)) (V1.league_standings s).
Proof.
  unfold run. revert s. induction l as [|[k v] l IH]; intros s; [by destruct s|].
  simpl. rewrite IH. done.
Qed.

Lemma V2_run_upserts l s :
  run V2.exec ((fun e => V2.UpsertScore e.1 e.2) <$> l) s
  = V2.Db (V2.base s) (upsert_all l (V2.user_queen_scores s)) (V2.league_standings s).
Proof.
  unfold run. revert s. induction l as [|[k v] l IH]; intros s; [by destruct s|].
  simpl. rewrite IH. done.
Qed.

Lemma V1_persist_entries t ep :
  V1.persist t ep = (fun e => V1.UpsertScore e.1 e.2) <$> V1_entries t ep.
Proof. unfold V1.persist, V1_entries. by rewrite <- list_fmap_compose. Qed.

Lemma V2_persist_entries t ep m :
  V2.persist t ep m = (fun e => V2.UpsertScore e.1 e.2) <$> V2_entries t ep m.
Proof. unfold V2.persist, V2_entries. by rewrite <- list_fmap_compose. Qed.

Lemma V2_insert_all_empty l : V2.insert_all l ∅ = upsert_all l ∅.
Proof.
  unfold V2.insert_all. rewrite decide_True; [done|].
  apply Forall_forall. intros e _. apply lookup_empty.
Qed.

Lemma V1_recalculateScores_eq ep s :
  V1.recalculateScores ep s =
  let u := upsert_all (V1_entries (V1.base s) ep) (V1.user_queen_scores s) in
  let s' := V1.Db (V1.base s) u (V1.league_standings s) in
  V1.Db (V1.base s) u (upsert_all (standings_select (V1.score_rows s')) (V1.league_standings s)).
Proof.
  unfold V1.recalculateScores, V1.script.
  rewrite run_app, V1_persist_entries, V1_run_upserts. done.
Qed.

Lemma V2_recalculateScores_eq ep m s :
  V2.recalculateScores ep m s =
  let u := upsert_all (V2_entries (V2.base s) ep m) (V2.user_queen_scores s) in
  let s' := V2.Db (V2.base s) u ∅ in
  V2.Db (V2.base s) u (upsert_all (standings_select (V2.score_rows s')) ∅).
Proof.
  unfold V2.recalculateScores, V2.script.
  rewrite run_app, V2_persist_entries, V2_run_upserts.
  cbn. by rewrite V2_insert_all_empty.
Qed.

(** A run leaves the rosters, the box scores, the settings and the
    memberships as they are. *)
Lemma recalculateScores_reads_base (ep : Z) (m : gmap Z number) (s1 : V1.db) (s2 : V2.db) :
  V1.base (V1.recalculateScores ep s1) = V1.base s1 /\
  V2.base (V2.recalculateScores ep m s2) = V2.base s2.
Proof. by rewrite V1_recalculateScores_eq, V2_recalculateScores_eq. Qed.

(** A second run over unchanged inputs rewrites every row with the value it
    already holds. *)
Lemma V1_recalculateScores_twice ep s :
  V1.recalculateScores ep (V1.recalculateScores ep s) = V1.recalculateScores ep s.
Proof.
  rewrite !V1_recalculateScores_eq. cbn.
  rewrite upsert_all_idem. unfold V1.score_rows; cbn.
  by rewrite upsert_all_idem.
Qed.

Lemma V2_recalculateScores_twice ep m s :
  V2.recalculateScores ep m (V2.recalculateScores ep m s) = V2.recalculateScores ep m s.
Proof.
  rewrite !V2_recalculateScores_eq. cbn.
  by rewrite upsert_all_idem.
Qed.

Lemma iter_idempotent {A : Type} (f : A -> A) (x : A) (N : nat) :
  (forall y, f (f y) = f y) -> (1 <= N)%nat -> Nat.iter N f x = f x.
Proof.
  intros Hf HN. destruct N as [|n]; [lia|]. clear HN.
  induction n as [|n IH]; [done|].
  change (Nat.iter (S (S n)) f x) with (f (Nat.iter (S n) f x)).
  by rewrite IH.
Qed.

(** C7. Running [recalculateScores] for the same episode N >= 1 times in a
    row, with the rosters, the box scores, the memberships and the settings
    unchanged, leaves [user_queen_scores] and [league_standings] exactly as
    one run leaves them; this holds for both versions of the engine. *)
Theorem recalculateScores_idempotent (N : nat) (ep : Z) (m : gmap Z number)
    (s1 : V1.db) (s2 : V2.db) (HN : (1 <= N)%nat) :
  Nat.iter N (V1.recalculateScores ep) s1 = V1.recalculateScores ep s1 /\
  Nat.iter N (V2.recalculateScores ep m) s2 = V2.recalculateScores ep m s2.
Proof.
  split; apply iter_idempotent; auto using V1_recalculateScores_twice, V2_recalculateScores_twice.
Qed.

(** ** Season totals *)

Lemma standings_select_keys (rows : list score) :
  (standings_select rows).*1 = remove_dups (score_pair <$> rows).
Proof.
  unfold standings_select.
  generalize (remove_dups (score_pair <$> rows)); intros ps.
  induction ps as [|p ps IH]; [done|].
  cbn. f_equal. exact IH.
Qed.

Lemma standings_select_total (rows : list score) (r : score) :
  r ∈ rows ->
  (score_pair r, sum_numbers (pair_scores rows (score_pair r))) ∈ standings_select rows.
Proof.
  intros Hr. unfold standings_select.
  apply (list_elem_of_fmap_2 (fun p => (p, sum_numbers (pair_scores rows p)))).
  apply elem_of_remove_dups. by apply list_elem_of_fmap_2.
Qed.

Lemma lookup_rebuilt_standings (rows : list score) (r : score) (old : gmap (string * Z) number) :
  r ∈ rows ->
  upsert_all (standings_select rows) old !! score_pair r
  = Some (sum_numbers (pair_scores rows (score_pair r))).
Proof.
  intros Hr. rewrite lookup_upsert_all.
  apply written_NoDup; [|by apply standings_select_total].
  rewrite standings_select_keys. apply NoDup_remove_dups.
Qed.

Lemma V1_score_rows_lookup s u l q e v :
  V1.user_queen_scores s !! (u, l, q, e) = Some v ->
  exists r, r ∈ V1.score_rows s /\ score_pair r = (u, l).
Proof.
  intros Hv. destruct v as [p rk]. exists (Score u l q e p rk). split; [|done].
  unfold V1.score_rows.
  apply (list_elem_of_fmap_2
           (fun e => match e with ((u, l, q, ep), (p, rk)) => Score u l q ep p rk end)
           _ ((u, l, q, e), (p, rk))).
  by apply elem_of_map_to_list.
Qed.

Lemma V2_score_rows_lookup s u rk e l q p :
  V2.user_queen_scores s !! (u, rk, e) = Some (l, q, p) ->
  exists r, r ∈ V2.score_rows s /\ score_pair r = (u, l).
Proof.
  intros Hv. exists (Score u l q e p rk). split; [|done].
  unfold V2.score_rows.
  apply (list_elem_of_fmap_2
           (fun e => match e with ((u, rk, ep), (l, q, p)) => Score u l q ep p rk end)
           _ ((u, rk, e), (l, q, p))).
  by apply elem_of_map_to_list.
Qed.

Lemma rebuilt_standings_cases (rows : list score) (old : gmap (string * Z) number)
    (p : string * Z) (total : number) :
  upsert_all (standings_select rows) old !! p = Some total ->
  (exists r, r ∈ rows /\ score_pair r = p) /\ total = sum_numbers (pair_scores rows p) \/
  (forall r, r ∈ rows -> score_pair r <> p) /\ old !! p = Some total.
Proof.
  intros Hp. destruct (decide (p ∈ score_pair <$> rows)) as [Hin|Hnot].
  - left. apply list_elem_of_fmap in Hin as (r & -> & Hr).
    rewrite lookup_rebuilt_standings in Hp by done.
    split; [by exists r|congruence].
  - right. rewrite lookup_upsert_all, written_notin in Hp.
    + split; [|done]. intros r Hr <-. apply Hnot. by apply list_elem_of_fmap_2.
    + by rewrite standings_select_keys, elem_of_remove_dups.
Qed.

Lemma V1_score_rows_inv (s : V1.db) (r : score) :
  r ∈ V1.score_rows s ->
  V1.user_queen_scores s
    !! (score_user_id r, score_league_id r, score_queen_name r, score_episode_number r)
  = Some (score_calculated_points r, score_rank r).
Proof.
  unfold V1.score_rows. intros Hr.
  apply list_elem_of_fmap in Hr as ([[[[u l] q] e] [pt rk]] & -> & He).
  by apply elem_of_map_to_list in He.
Qed.

(** The upserts of a run keep every row that was there. *)
Lemma V1_recalculateScores_keeps_pairs (ep : Z) (s : V1.db) (r : score) :
  r ∈ V1.score_rows s ->
  exists r', r' ∈ V1.score_rows (V1.recalculateScores ep s) /\ score_pair r' = score_pair r.
Proof.
  intros Hr. apply V1_score_rows_inv in Hr.
  set (k := (score_user_id r, score_league_id r, score_queen_name r, score_episode_number r)) in *.
  assert (Hsome : is_Some (V1.user_queen_scores (V1.recalculateScores ep s) !! k)).
  { rewrite V1_recalculateScores_eq. cbn. rewrite lookup_upsert_all, Hr.
    destruct (written_cases k (V1_entries (V1.base s) ep)) as [Hw|[v Hw]];
      rewrite Hw; eauto. }
  destruct Hsome as [v Hv]. by apply V1_score_rows_lookup in Hv.
Qed.

Lemma V1_backed_empty (t : tables) : V1_backed (V1.Db t ∅ ∅).
Proof. intros p total Hp. cbn in Hp. by rewrite lookup_empty in Hp. Qed.

Lemma V1_standings_rows (ep : Z) (s : V1.db) (p : string * Z) (total : number) :
  V1_backed s ->
  V1.league_standings (V1.recalculateScores ep s) !! p = Some total ->
  (exists r, r ∈ V1.score_rows (V1.recalculateScores ep s) /\ score_pair r = p) /\
  total = sum_numbers (pair_scores (V1.score_rows (V1.recalculateScores ep s)) p).
Proof.
  intros Hback Hp.
  assert (Hrows : V1.score_rows (V1.recalculateScores ep s)
    = V1.score_rows (V1.Db (V1.base s)
        (upsert_all (V1_entries (V1.base s) ep) (V1.user_queen_scores s))
        (V1.league_standings s))) by (by rewrite V1_recalculateScores_eq).
  rewrite V1_recalculateScores_eq in Hp. cbn in Hp. rewrite <- Hrows in Hp.
  apply rebuilt_standings_cases in Hp as [Hp|[Hnone Hold]]; [done|].
  destruct (Hback p total Hold) as (r & Hr & Hpair).
  destruct (V1_recalculateScores_keeps_pairs ep s r Hr) as (r' & Hr' & Hpair').
  destruct (Hnone r' Hr'). congruence.
Qed.

(** The invariant is kept by a run. *)
Lemma V1_backed_preserved (ep : Z) (s : V1.db) :
  V1_backed s -> V1_backed (V1.recalculateScores ep s).
Proof. intros Hback p total Hp. by apply (V1_standings_rows ep s p total). Qed.

Lemma V2_standings_rows (ep : Z) (m : gmap Z number) (s : V2.db)
    (p : string * Z) (total : number) :
  V2.league_standings (V2.recalculateScores ep m s) !! p = Some total ->
  (exists r, r ∈ V2.score_rows (V2.recalculateScores ep m s) /\ score_pair r = p) /\
  total = sum_numbers (pair_scores (V2.score_rows (V2.recalculateScores ep m s)) p).
Proof.
  intros Hp.
  assert (Hrows : V2.score_rows (V2.recalculateScores ep m s)
    = V2.score_rows (V2.Db (V2.base s)
        (upsert_all (V2_entries (V2.base s) ep m) (V2.user_queen_scores s)) ∅))
    by (by rewrite V2_recalculateScores_eq).
  rewrite V2_recalculateScores_eq in Hp. cbn in Hp. rewrite <- Hrows in Hp.
  apply rebuilt_standings_cases in Hp as [Hp|[_ Hold]]; [done|].
  by rewrite lookup_empty in Hold.
Qed.

(** The total that the query of the rebuild computes for a pair is the
    season total of the specification. *)
Lemma season_total_pair_scores (rows : list score) (u : string) (l : Z) :
  sum_numbers (pair_scores rows (u, l)) = season_total rows u l.
Proof.
  unfold pair_scores, score_pair. induction rows as [|r rows IH]; [done|].
  rewrite filter_cons. cbn [season_total].
  destruct (decide ((score_user_id r, score_league_id r) = (u, l))) as [Heq|Hne].
  - rewrite decide_True by (by inversion Heq). rewrite fmap_cons.
    unfold sum_numbers in *. cbn [foldr]. by rewrite IH.
  - rewrite decide_False; [done|]. intros [<- <-]. by apply Hne.
Qed.

(** C5. After [recalculateScores] has run for an episode, the
    [league_standings] row of every (user, league) pair that has a row in
    [user_queen_scores] holds the season total of the pair: the sum of the
    [calculated_points] of the rows of that user and that league over all
    the rows of the table, whatever their episode.  Conversely, in the second
    version, which empties the cache first, every row of the cache is the
    season total of a pair with scores; in the first one, which only
    upserts, a row of the cache is such a total or is a row that the cache
    held before the run for a pair that has no scores at all, which the run
    leaves as it was. *)
Theorem standings_are_season_totals (ep : Z) (m : gmap Z number)
    (s1 : V1.db) (s2 : V2.db) (u : string) (l : Z) :
  let f1 := V1.recalculateScores ep s1 in
  let f2 := V2.recalculateScores ep m s2 in
  (forall q e v, V1.user_queen_scores f1 !! (u, l, q, e) = Some v ->
     V1.league_standings f1 !! (u, l) = Some (season_total (V1.score_rows f1) u l)) /\
  (forall rk e q p, V2.user_queen_scores f2 !! (u, rk, e) = Some (l, q, p) ->
     V2.league_standings f2 !! (u, l) = Some (season_total (V2.score_rows f2) u l)) /\
  (forall total, V1.league_standings f1 !! (u, l) = Some total ->
     total = season_total (V1.score_rows f1) u l \/
     (forall q e, V1.user_queen_scores f1 !! (u, l, q, e) = None) /\
     V1.league_standings s1 !! (u, l) = Some total) /\
  (forall total, V2.league_standings f2 !! (u, l) = Some total ->
     total = season_total (V2.score_rows f2) u l /\
     exists rk e q p, V2.user_queen_scores f2 !! (u, rk, e) = Some (l, q, p)).
Proof.
  intros f1 f2. split_and!.
  - intros q e v Hv. apply V1_score_rows_lookup in Hv as (r & Hr & Hp).
    revert Hr. subst f1. rewrite V1_recalculateScores_eq. cbn.
    unfold V1.score_rows; cbn. intros Hr. rewrite <- season_total_pair_scores, <- Hp.
    by apply lookup_rebuilt_standings.
  - intros rk e q p Hv. apply V2_score_rows_lookup in Hv as (r & Hr & Hp).
    revert Hr. subst f2. rewrite V2_recalculateScores_eq. cbn.
    unfold V2.score_rows; cbn. intros Hr. rewrite <- season_total_pair_scores, <- Hp.
    by apply lookup_rebuilt_standings.
  - intros total Hp. rewrite <- season_total_pair_scores.
    assert (Hrows : V1.score_rows f1
      = V1.score_rows (V1.Db (V1.base s1)
          (upsert_all (V1_entries (V1.base s1) ep) (V1.user_queen_scores s1))
          (V1.league_standings s1))) by (subst f1; by rewrite V1_recalculateScores_eq).
    assert (Hst : V1.league_standings f1
      = upsert_all (standings_select (V1.score_rows f1)) (V1.league_standings s1)).
    { rewrite Hrows. subst f1. by rewrite V1_recalculateScores_eq. }
    rewrite Hst in Hp.
    apply rebuilt_standings_cases in Hp as [[_ Hp]|[Hnone Hold]]; [by left|].
    right. split; [|done]. intros q e.
    destruct (V1.user_queen_scores f1 !! (u, l, q, e)) as [v|] eqn:Hv; [|done].
    apply V1_score_rows_lookup in Hv as (r & Hr & Hpair). by destruct (Hnone r Hr).
  - intros total Hp. rewrite <- season_total_pair_scores.
    apply V2_standings_rows in Hp as [(r & Hr & Hpair) Htotal]. split; [done|].
    unfold V2.score_rows in Hr.
    apply list_elem_of_fmap in Hr as ([[[u' rk] e] [[l' q] p]] & -> & Hr).
    apply elem_of_map_to_list in Hr. injection Hpair as -> ->. by exists rk, e, q, p.
Qed.

(** ** Raw points *)

Lemma Qred_num_zero (q : Q) : Qnum (Qred q) = 0 -> Qred q = 0%Q.
Proof.
  intros Hq. rewrite <- Qcanon.Qred_involutive.
  change 0%Q with (Qred 0). apply Qred_complete.
  unfold Qeq. simpl. lia.
Qed.

Lemma lookup_fromEntries `{Countable K} {V : Type} (l : list (K * V)) (k : K) :
  fromEntries l !! k = written k None l.
Proof.
  change (fromEntries l) with (upsert_all l (∅ : gmap K V)).
  by rewrite lookup_upsert_all, lookup_empty.
Qed.

Lemma V1_queenPoints_keys t ep :
  (V1.queenPoints t ep).*1
  = remove_dups (box_queen_name <$> filter (fun b => box_episode_number b = ep) (queen_box_scores t)).
Proof.
  unfold V1.queenPoints.
  generalize (remove_dups (box_queen_name <$>
    filter (fun b => box_episode_number b = ep) (queen_box_scores t))); intros qs.
  induction qs as [|q qs IH]; [done|]. cbn. f_equal. exact IH.
Qed.

Lemma filter_nil_notin {A B : Type} `{EqDecision B} (f : A -> B) (y : B) (l : list A) :
  y ∉ f <$> l -> filter (fun x => f x = y) l = [].
Proof.
  intros Hy. induction l as [|x l IH]; [done|].
  rewrite fmap_cons in Hy. apply not_elem_of_cons in Hy as [Hne Hy].
  rewrite filter_cons, decide_False by done. by apply IH.
Qed.

Lemma V1_pointsMap_lookup (t : tables) (ep : Z) (q : string) :
  let rows := filter (fun b => box_episode_number b = ep) (queen_box_scores t) in
  V1.pointsMap t ep !! q
  = if decide (q ∈ box_queen_name <$> rows)
    then Some (Fin (sum_points (box_points <$> filter (fun b => box_queen_name b = q) rows)))
    else None.
Proof.
  intros rows. unfold V1.pointsMap. rewrite lookup_fromEntries.
  destruct (decide (q ∈ box_queen_name <$> rows)) as [Hin|Hnot].
  - apply written_NoDup.
    + rewrite V1_queenPoints_keys. apply NoDup_remove_dups.
    + unfold V1.queenPoints. fold rows.
      apply list_elem_of_fmap. exists q. split; [done|].
      by apply elem_of_remove_dups.
  - apply written_notin.
    rewrite V1_queenPoints_keys. fold rows. by rewrite elem_of_remove_dups.
Qed.

(** The aggregate that the first version multiplies is the sum of the
    contestant's box scores of the episode: always when there are some, and
    without any when the name of the contestant is not one that the object
    inherits. *)
Lemma V1_rawPoints_sum (t : tables) (ep : Z) (q : string) :
  q ∈ box_queen_name <$> filter (fun b => box_episode_number b = ep) (queen_box_scores t)
  \/ q ∉ Object_prototype ->
  V1.rawPoints t ep q
  = Fin (sum_points (box_points <$>
           filter (fun b => box_queen_name b = q /\ box_episode_number b = ep)
                  (queen_box_scores t))).
Proof.
  intros Hq. unfold V1.rawPoints, get, parseFloat_number.
  rewrite V1_pointsMap_lookup, <- list_filter_filter.
  set (rows := filter (fun b => box_episode_number b = ep) (queen_box_scores t)) in *.
  destruct (decide (q ∈ box_queen_name <$> rows)) as [Hin|Hnot].
  - cbn. unfold Qzero. destruct (Z.eqb_spec (Qnum (sum_points (box_points <$>
               filter (fun b => box_queen_name b = q) rows))) 0) as [Hz|Hz]; [|done].
    cbn. f_equal. symmetry. unfold sum_points in *. by apply Qred_num_zero.
  - destruct Hq as [Hq|Hq]; [done|]. rewrite decide_False by done.
    rewrite filter_nil_notin by done. reflexivity.
Qed.

(** Without box scores, the name of a member of [Object.prototype] reads as
    NaN. *)
Lemma V1_rawPoints_inherited (t : tables) (ep : Z) (q : string) :
  q ∉ box_queen_name <$> filter (fun b => box_episode_number b = ep) (queen_box_scores t) ->
  q ∈ Object_prototype ->
  V1.rawPoints t ep q = NaN.
Proof.
  intros Hnot Hq. unfold V1.rawPoints, get. rewrite V1_pointsMap_lookup.
  by rewrite decide_False, decide_True.
Qed.

Lemma V1_rawPoints_reduced (t : tables) (ep : Z) (q : string) :
  V1.rawPoints t ep q = NaN \/ exists x, V1.rawPoints t ep q = Fin (Qred x).
Proof.
  destruct (decide (q ∈ box_queen_name <$>
              filter (fun b => box_episode_number b = ep) (queen_box_scores t))) as [Hin|Hnot].
  - right. rewrite V1_rawPoints_sum by (by left). unfold sum_points. eauto.
  - destruct (decide (q ∈ Object_prototype)) as [Hq|Hq].
    + left. by apply V1_rawPoints_inherited.
    + right. rewrite V1_rawPoints_sum by (by right). unfold sum_points. eauto.
Qed.

(** ** What each upsert persists *)

Lemma V1_persisted_at_write (s : V1.db) (ep : Z) (pre post : list roster) (r : roster) :
  V1.allRosters (V1.base s) ep = pre ++ r :: post ->
  V1.user_queen_scores
    (run V1.exec (take (S (length pre)) (V1.script (V1.base s) ep)) s)
    !! V1.score_key ep r
  = Some (V1.points (V1.base s) ep r, roster_rank r).
Proof.
  intros Hsplit. unfold V1.script. rewrite V1_persist_entries.
  unfold V1_entries. rewrite Hsplit.
  rewrite (cons_middle r pre post), (assoc_L (++)), !fmap_app, <- !(assoc_L (++)).
  rewrite (assoc_L (++)), <- !fmap_app.
  rewrite take_app_length' by (rewrite !length_fmap, length_app; simpl; lia).
  rewrite V1_run_upserts. cbn [V1.user_queen_scores].
  rewrite lookup_upsert_all, fmap_app. cbn [fmap list_fmap].
  apply written_last. cbn. apply not_elem_of_nil.
Qed.

Lemma V1_persisted_at_end (s : V1.db) (ep : Z) (pre post : list roster) (r : roster) :
  V1.allRosters (V1.base s) ep = pre ++ r :: post ->
  (forall r', r' ∈ post -> V1.score_key ep r' <> V1.score_key ep r) ->
  V1.user_queen_scores (V1.recalculateScores ep s) !! V1.score_key ep r
  = Some (V1.points (V1.base s) ep r, roster_rank r).
Proof.
  intros Hsplit Hlast. rewrite V1_recalculateScores_eq. cbn.
  rewrite lookup_upsert_all. unfold V1_entries. rewrite Hsplit, fmap_app, fmap_cons.
  apply written_last.
  rewrite <- list_fmap_compose. intros Hin.
  apply list_elem_of_fmap in Hin as (r' & Hk & Hr'). by apply (Hlast r').
Qed.

Lemma V2_persisted_at_write (s : V2.db) (ep : Z) (m : gmap Z number)
    (pre post : list V2.epPoints_row) (row : V2.epPoints_row) :
  V2.epPoints (V2.base s) ep = pre ++ row :: post ->
  V2.user_queen_scores
    (run V2.exec (take (S (length pre)) (V2.script (V2.base s) ep m)) s)
    !! V2.score_key ep row
  = Some (V2.ep_league_id row, V2.ep_queen_name row, V2.weighted m row).
Proof.
  intros Hsplit. unfold V2.script. rewrite V2_persist_entries.
  unfold V2_entries. rewrite Hsplit.
  rewrite (cons_middle row pre post), (assoc_L (++)), !fmap_app, <- !(assoc_L (++)).
  rewrite (assoc_L (++)), <- !fmap_app.
  rewrite take_app_length' by (rewrite !length_fmap, length_app; simpl; lia).
  rewrite V2_run_upserts. cbn [V2.user_queen_scores].
  rewrite lookup_upsert_all, fmap_app. cbn [fmap list_fmap].
  apply written_last. cbn. apply not_elem_of_nil.
Qed.

Lemma V2_persisted_at_end (s : V2.db) (ep : Z) (m : gmap Z number)
    (pre post : list V2.epPoints_row) (row : V2.epPoints_row) :
  V2.epPoints (V2.base s) ep = pre ++ row :: post ->
  (forall row', row' ∈ post -> V2.score_key ep row' <> V2.score_key ep row) ->
  V2.user_queen_scores (V2.recalculateScores ep m s) !! V2.score_key ep row
  = Some (V2.ep_league_id row, V2.ep_queen_name row, V2.weighted m row).
Proof.
  intros Hsplit Hlast. rewrite V2_recalculateScores_eq. cbn.
  rewrite lookup_upsert_all. unfold V2_entries. rewrite Hsplit, fmap_app, fmap_cons.
  apply written_last.
  rewrite <- list_fmap_compose. intros Hin.
  apply list_elem_of_fmap in Hin as (r' & Hk & Hr'). by apply (Hlast r').
Qed.

Lemma V1_formatMultipliers_unmapped (settings : gmap string string) (rk : Z) :
  ~ (1 <= rk <= 4) -> V1.formatMultipliers settings !! rk = None.
Proof.
  intros Hrk. unfold V1.formatMultipliers.
  rewrite !lookup_insert_ne, lookup_singleton_ne by lia. done.
Qed.

Lemma V2_formatMultipliers_unmapped (settings : gmap string string) (rk : Z) :
  ~ (1 <= rk <= 4) -> V2.formatMultipliers settings !! rk = None.
Proof.
  intros Hrk. unfold V2.formatMultipliers.
  rewrite !lookup_insert_ne, lookup_singleton_ne by lia. done.
Qed.

Lemma V1_rawPoints_unmatched (t : tables) (ep : Z) (q : string) :
  q ∉ Object_prototype ->
  (forall b, b ∈ queen_box_scores t -> box_episode_number b = ep -> box_queen_name b <> q) ->
  V1.rawPoints t ep q = Fin 0.
Proof.
  intros Hname Hno. rewrite V1_rawPoints_sum by (by right).
  replace (filter _ (queen_box_scores t)) with (@nil box_score); [reflexivity|].
  symmetry. induction (queen_box_scores t) as [|b l IH]; [done|].
  rewrite filter_cons. destruct (decide _) as [[Hq He]|_].
  - destruct (Hno b); [left|..]; done.
  - apply IH. intros b' Hb'. apply Hno. by right.
Qed.

Lemma V2_joined_episode (t : tables) (ep : Z) (j : roster * member) :
  j ∈ V2.joined t ep -> roster_episode_number j.1 = ep.
Proof.
  unfold V2.joined. intros Hj.
  apply list_elem_of_bind in Hj as (r & Hj & Hr).
  apply list_elem_of_filter in Hr as [Hep _].
  apply list_elem_of_bind in Hj as (lm & Hj & _).
  apply list_elem_of_singleton in Hj as ->. done.
Qed.

Lemma V2_raw_points_unmatched (t : tables) (ep : Z) (row : V2.epPoints_row) :
  row ∈ V2.epPoints t ep ->
  (forall b, b ∈ queen_box_scores t -> box_episode_number b = ep ->
             box_queen_name b <> V2.ep_queen_name row) ->
  V2.ep_raw_points row = Fin 0.
Proof.
  intros Hrow Hno. unfold V2.epPoints in Hrow.
  apply list_elem_of_fmap in Hrow as ([[[u l] rk] q] & -> & _). cbn in *.
  unfold V2.raw_points.
  replace (V2.group_points t ep (u, l, rk, q)) with (@nil Q); [done|].
  symmetry. unfold V2.group_points.
  assert (Hall : forall j, j ∈ filter (fun j => V2.group_of j = (u, l, rk, q)) (V2.joined t ep) ->
            roster_queen_name j.1 = q /\ roster_episode_number j.1 = ep).
  { intros j Hj. apply list_elem_of_filter in Hj as [Hg Hj].
    split; [by inversion Hg|by apply (V2_joined_episode t ep j)]. }
  induction (filter (fun j => V2.group_of j = (u, l, rk, q)) (V2.joined t ep)) as [|j js IH];
    [done|].
  rewrite bind_cons, IH by (intros j' Hj'; apply Hall; by right).
  rewrite app_nil_r. destruct (Hall j) as [Hq He]; [by left|].
  replace (filter _ (queen_box_scores t)) with (@nil box_score); [done|].
  symmetry. clear IH. induction (queen_box_scores t) as [|b bs IHb]; [done|].
  rewrite filter_cons. destruct (decide _) as [[Hq' He']|_].
  - destruct (Hno b); [by left|congruence|congruence].
  - apply IHb. intros b' Hb'. apply Hno. by right.
Qed.

(** What the first version persists for an entry at the end of a run, in
    the terms of the tables: the sum of the box scores of the contestant for
    the episode (0 without any, for a name that the object does not inherit)
    times the multiplier of the rank. *)
Lemma V1_persists_sum_times_multiplier (s : V1.db) (ep : Z) (pre post : list roster)
    (r : roster) :
  V1.allRosters (V1.base s) ep = pre ++ r :: post ->
  (forall r', r' ∈ post -> V1.score_key ep r' <> V1.score_key ep r) ->
  roster_queen_name r ∉ Object_prototype ->
  V1.user_queen_scores (V1.recalculateScores ep s) !! V1.score_key ep r
  = Some (nmul (Fin (sum_points (box_points <$>
                  filter (fun b => box_queen_name b = roster_queen_name r
                                   /\ box_episode_number b = ep)
                         (queen_box_scores (V1.base s)))))
               (or_number (V1.formatMultipliers (getSettings (V1.base s)) !! roster_rank r)
                          (Fin 1)),
          roster_rank r).
Proof.
  intros Hsplit Hlast Hq.
  rewrite (V1_persisted_at_end s ep pre post r Hsplit Hlast).
  unfold V1.points. by rewrite V1_rawPoints_sum by (by right).
Qed.

(** C3. The raw points of a contestant without box scores are not always 0.
    The first version reads them from a plain object, as
    [pointsMap[name] || 0]: for a contestant who has no box score for the
    episode and whose name is that of a member of [Object.prototype], the
    lookup gives the inherited member and the run persists NaN, which reaches
    the standings; the specification, and the second version, whose query
    coalesces the sum, give 0.  The other entries of the same run follow the
    specification: 7 raw points at rank 1 give 17.5 and at rank 2, whose
    multiplier is configured as 3, they give 21; a contestant without box
    scores gives 0; and rank 5, which the mapping does not hold, gives the
    raw points, 7.  In the second version the factor is the aggregate of the
    query, which counts a box score once per joined row: where the box
    scores sum to 7 and the multiplier is 2 it persists 28. *)
Theorem V1_raw_points_of_inherited_name :
  let t := Scenario.inherited_name in
  let f1 := V1.recalculateScores 2 (V1.Db t ∅ ∅) in
  let f2 := V2.recalculateScores 2 (V2.formatMultipliers (getSettings t)) (V2.Db t ∅ ∅) in
  let g2 := V2.recalculateScores 2 (V2.formatMultipliers ∅) (V2.Db Sample.two_leagues ∅ ∅) in
  filter (fun b => box_queen_name b = "constructor" /\ box_episode_number b = 2)
         (queen_box_scores t) = [] /\
  V1.rawPoints t 2 "constructor" = NaN /\
  V1.multiplier t 1 = Fin (5 # 2) /\
  V1.user_queen_scores f1 !! ("ada", 1, "constructor", 2) = Some (NaN, 1) /\
  V1.league_standings f1 !! ("ada", 1) = Some NaN /\
  V2.user_queen_scores f2 !! ("ada", 1, 2) = Some (1, "constructor", Fin 0) /\
  V1.user_queen_scores f1 !! ("eve", 1, "Bob", 2) = Some (Fin (35 # 2), 1) /\
  V1.user_queen_scores f1 !! ("eve", 1, "Cat", 2) = Some (Fin 0, 2) /\
  V1.multiplier t 2 = Fin 3 /\
  V1.user_queen_scores f1 !! ("liz", 1, "Bob", 2) = Some (Fin 21, 2) /\
  V1.multiplier t 5 = Fin 1 /\
  V1.user_queen_scores f1 !! ("zoe", 1, "Bob", 2) = Some (Fin 7, 5) /\
  sum_points (box_points <$>
     filter (fun b => box_queen_name b = "Bob" /\ box_episode_number b = 2)
            (queen_box_scores Sample.two_leagues)) = (7 # 1)%Q /\
  V2.formatMultipliers ∅ !! 1 = Some (Fin 2) /\
  V2.weighted (V2.formatMultipliers ∅) <$> V2.epPoints Sample.two_leagues 2
  = [Fin 28; Fin 28] /\
  snd <$> V2.user_queen_scores g2 !! ("ada", 1, 2) = Some (Fin 28).
Proof. split_and!; vm_compute; reflexivity. Qed.

(** ** The conflict key *)

Lemma written_elem `{Countable K} {V : Type} (k : K) (l : list (K * V)) :
  k ∈ l.*1 -> exists v, (k, v) ∈ l /\ forall o, written k o l = Some v.
Proof.
  induction l as [|[k' v'] l IH] using rev_ind; [by intros ?%elem_of_nil|].
  rewrite fmap_app. cbn. intros Hk.
  destruct (decide (k' = k)) as [->|Hne].
  - exists v'. split; [apply elem_of_app; right; by left|].
    intros o. apply written_last. cbn. apply not_elem_of_nil.
  - apply elem_of_app in Hk as [Hk|Hk%list_elem_of_singleton]; [|done].
    destruct (IH Hk) as (v & Hin & Hw). exists v. split; [apply elem_of_app; by left|].
    intros o. unfold written in *. rewrite foldl_app. cbn.
    rewrite decide_False by done. apply Hw.
Qed.

(** In the first version two roster entries of an episode that differ in
    user, league or contestant are written to two rows: each row is there at
    the end of the run, holds the score of an entry with its own key, and is
    left alone by the other entry's upsert. *)
Lemma V1_conflict_key_sound (ep : Z) (s : V1.db) (r1 r2 : roster) :
  r1 ∈ V1.allRosters (V1.base s) ep ->
  r2 ∈ V1.allRosters (V1.base s) ep ->
  roster_user_id r1 <> roster_user_id r2 \/
  roster_league_id r1 <> roster_league_id r2 \/
  roster_queen_name r1 <> roster_queen_name r2 ->
  let k1 := V1.score_key ep r1 in
  let k2 := V1.score_key ep r2 in
  let f := V1.recalculateScores ep s in
  k1 <> k2 /\
  (exists r, r ∈ V1.allRosters (V1.base s) ep /\ V1.score_key ep r = k1 /\
     V1.user_queen_scores f !! k1 = Some (V1.points (V1.base s) ep r, roster_rank r)) /\
  (exists r, r ∈ V1.allRosters (V1.base s) ep /\ V1.score_key ep r = k2 /\
     V1.user_queen_scores f !! k2 = Some (V1.points (V1.base s) ep r, roster_rank r)) /\
  (forall v s', V1.user_queen_scores (V1.exec (V1.UpsertScore k2 v) s') !! k1
                = V1.user_queen_scores s' !! k1) /\
  (forall v s', V1.user_queen_scores (V1.exec (V1.UpsertScore k1 v) s') !! k2
                = V1.user_queen_scores s' !! k2).
Proof.
  intros H1 H2 Hdiff k1 k2 f.
  assert (Hne : k1 <> k2).
  { subst k1 k2. unfold V1.score_key. intros [=]. destruct Hdiff as [?|[?|?]]; done. }
  assert (Hrow : forall r0, r0 ∈ V1.allRosters (V1.base s) ep ->
    exists r, r ∈ V1.allRosters (V1.base s) ep /\ V1.score_key ep r = V1.score_key ep r0 /\
      V1.user_queen_scores f !! V1.score_key ep r0
      = Some (V1.points (V1.base s) ep r, roster_rank r)).
  { intros r0 Hr0. subst f. rewrite V1_recalculateScores_eq. cbn.
    rewrite lookup_upsert_all.
    destruct (written_elem (V1.score_key ep r0) (V1_entries (V1.base s) ep))
      as (v & Hin & Hw).
    - unfold V1_entries. rewrite <- list_fmap_compose.
      by apply (list_elem_of_fmap_2 (V1.score_key ep)).
    - unfold V1_entries in Hin. apply list_elem_of_fmap in Hin as (r & Heq & Hr).
      apply pair_equal_spec in Heq as [Hk ->].
      exists r. by rewrite Hw. }
  split_and!; [done|by apply Hrow|by apply Hrow|..];
    intros v s'; cbn; by rewrite lookup_insert_ne.
Qed.

(** In the second version the rows of a user at one rank have a single key,
    whatever their league and contestant, and an upsert replaces what the
    key held. *)
Lemma V2_conflict_key_ignores_league (ep : Z) (row1 row2 : V2.epPoints_row)
    (v1 v2 : Z * string * number) (s : V2.db) :
  V2.ep_user_id row1 = V2.ep_user_id row2 ->
  V2.ep_rank row1 = V2.ep_rank row2 ->
  V2.score_key ep row1 = V2.score_key ep row2 /\
  V2.user_queen_scores
    (V2.exec (V2.UpsertScore (V2.score_key ep row2) v2)
       (V2.exec (V2.UpsertScore (V2.score_key ep row1) v1) s))
    !! V2.score_key ep row1 = Some v2.
Proof.
  intros Hu Hrk. unfold V2.score_key. rewrite Hu, Hrk. split; [done|].
  cbn. by rewrite lookup_insert_eq.
Qed.

(** C1. In the second version the upsert is keyed by (user, rank, episode):
    for a user who is a member of two leagues the query yields two rows that
    differ in the league, the second upsert overwrites the first, and a
    single row of [user_queen_scores] is left, that of league 2. *)
Theorem V2_conflict_key_collapses_leagues :
  let m := V2.formatMultipliers (getSettings Sample.one_pick) in
  let f := V2.recalculateScores 2 m (V2.Db Sample.one_pick ∅ ∅) in
  V2.epPoints Sample.one_pick 2
  = [V2.EpPoints "ada" 1 1 "Bob" (Fin 7); V2.EpPoints "ada" 2 1 "Bob" (Fin 7)] /\
  V2.score_rows f = [Score "ada" 2 "Bob" 2 (Fin 14) 1].
Proof. split; vm_compute; reflexivity. Qed.

(** The two users of the specification's example keep a row each in the
    first version. *)
Example V1_two_users_two_rows :
  V1.score_rows (V1.recalculateScores 2 (V1.Db Sample.two_users ∅ ∅))
  = [Score "ada" 1 "Bob" 2 (Fin (35 # 2)) 1; Score "eve" 2 "Bob" 2 (Fin (35 # 2)) 1].
Proof. vm_compute. reflexivity. Qed.

(** ** The window of the rebuild *)

Lemma rtc_run_prefix {State Statement : Type} (exec : Statement -> State -> State)
    (p1 p2 : list Statement) (s : State) :
  rtc (step exec) (p1 ++ p2, s) (p2, run exec p1 s).
Proof.
  revert s. induction p1 as [|c p1 IH]; intros s; [apply rtc_refl|].
  eapply rtc_l; [apply step_exec|]. apply IH.
Qed.

Lemma upsert_all_keeps_nonempty `{Countable K} {V : Type} (l : list (K * V)) (t : gmap K V) :
  t <> ∅ -> upsert_all l t <> ∅.
Proof.
  revert t. induction l as [|e l IH]; intros t Ht; [done|].
  cbn. apply IH, insert_non_empty.
Qed.

(** Between the [DELETE] and the [INSERT] of the second version the cache is
    empty, whatever it held and whatever the scores are. *)
Lemma V2_script_reaches_empty_standings (ep : Z) (m : gmap Z number) (s : V2.db) :
  exists s', rtc (step V2.exec) (V2.script (V2.base s) ep m, s) ([V2.InsertStandings], s') /\
    V2.league_standings s' = ∅ /\
    V2.user_queen_scores s'
    = upsert_all (V2_entries (V2.base s) ep m) (V2.user_queen_scores s).
Proof.
  exists (run V2.exec (V2.persist (V2.base s) ep m ++ [V2.DeleteStandings]) s).
  split_and!.
  - unfold V2.script, V2.rebuild.
    rewrite (cons_middle V2.DeleteStandings), (assoc_L (++)). apply rtc_run_prefix.
  - by rewrite run_app.
  - by rewrite run_app, V2_persist_entries, V2_run_upserts.
Qed.

(** The first version never empties the cache: no state of a run has empty
    standings when the run started with some. *)
Lemma V1_standings_never_emptied (c c' : list V1.statement * V1.db) :
  rtc (step V1.exec) c c' ->
  V1.league_standings c.2 <> ∅ -> V1.league_standings c'.2 <> ∅.
Proof.
  induction 1 as [|c1 c2 c3 Hstep _ IH]; [done|].
  intros Hne. apply IH. destruct Hstep as [st p s]. cbn in *.
  destruct st; cbn; [done|]. by apply upsert_all_keeps_nonempty.
Qed.

Lemma standings_select_nonempty (rows : list score) :
  rows <> [] -> standings_select rows <> [].
Proof.
  destruct rows as [|r rows]; [done|]. intros _ Heq.
  pose proof (standings_select_total (r :: rows) r (list_elem_of_here _ _)) as Hin.
  rewrite Heq in Hin. by apply elem_of_nil in Hin.
Qed.

(** And its rebuild, a single statement, ends with a row for every pair that
    has scores: the cache is not empty when the scores are not. *)
Lemma V1_rebuild_standings_nonempty (s : V1.db) (c : list V1.statement * V1.db) :
  tc (step V1.exec) (V1.rebuild, s) c ->
  V1.user_queen_scores c.2 <> ∅ -> V1.league_standings c.2 <> ∅.
Proof.
  intros Htc.
  assert (c = ([], V1.exec V1.UpsertStandings s)) as ->.
  { inversion Htc as [? ? Hs|? c2 ? Hs Hrest]; subst.
    - by inversion Hs.
    - inversion Hs; subst. inversion Hrest as [? ? Hs'|? ? ? Hs' _]; inversion Hs'. }
  cbn. intros Hne. apply upsert_all_nonempty, standings_select_nonempty.
  unfold V1.score_rows.
  destruct (map_to_list (V1.user_queen_scores s)) as [|e l] eqn:Hl; [|done].
  by apply map_to_list_empty_iff in Hl.
Qed.

(** C2. A reader of the second version does observe an empty cache: a second
    run over the store that a first run left, whose standings are not empty,
    reaches after its [DELETE] a state where [league_standings] is empty
    while [user_queen_scores] is not. *)
Theorem V2_rebuild_exposes_empty_standings :
  let m := V2.formatMultipliers (getSettings Sample.one_pick) in
  let s := V2.recalculateScores 2 m (V2.Db Sample.one_pick ∅ ∅) in
  V2.league_standings s <> ∅ /\
  exists s', rtc (step V2.exec) (V2.script (V2.base s) 2 m, s) ([V2.InsertStandings], s') /\
    V2.league_standings s' = ∅ /\ V2.user_queen_scores s' <> ∅.
Proof.
  intros m s. split.
  - intros Hempty. apply (f_equal (fun st => st !! ("ada", 2))) in Hempty.
    vm_compute in Hempty. discriminate.
  - destruct (V2_script_reaches_empty_standings 2 m s) as (s' & Hreach & Hst & Hsc).
    exists s'. split_and!; [done..|].
    rewrite Hsc. intros Hempty. apply (f_equal (fun t => t !! ("ada", 1, 2))) in Hempty.
    vm_compute in Hempty. discriminate.
Qed.

(** ** The aggregate of the second version *)

(** When a group of the second version's query holds a single joined row, its
    raw points are the sum of the contestant's box scores of the episode. *)
Lemma V2_raw_points_sum (t : tables) (ep : Z) (g : string * Z * Z * string)
    (j : roster * member) :
  filter (fun j => V2.group_of j = g) (V2.joined t ep) = [j] ->
  V2.raw_points t ep g
  = Fin (sum_points (box_points <$>
           filter (fun b => box_queen_name b = roster_queen_name j.1 /\
                            box_episode_number b = ep)
                  (queen_box_scores t))).
Proof.
  intros Hg.
  assert (Hep : roster_episode_number j.1 = ep).
  { apply (V2_joined_episode t ep j).
    assert (Hj : j ∈ filter (fun j => V2.group_of j = g) (V2.joined t ep))
      by (rewrite Hg; left).
    by apply list_elem_of_filter in Hj as [_ Hj]. }
  unfold V2.raw_points, V2.group_points. rewrite Hg. cbn. rewrite app_nil_r.
  replace (filter (fun b => roster_queen_name j.1 = box_queen_name b /\
                            roster_episode_number j.1 = box_episode_number b)
                  (queen_box_scores t))
    with (filter (fun b => box_queen_name b = roster_queen_name j.1 /\
                           box_episode_number b = ep) (queen_box_scores t)).
  - by destruct (box_points <$> _).
  - apply list_filter_iff. intros b. rewrite Hep. intuition congruence.
Qed.

(** C4. In the second version the aggregate is taken over the join of the
    rosters with the memberships on the user alone: for a user who holds the
    same contestant at the same rank in two leagues, the two box scores 3 and
    4 of the contestant are counted once per roster row, and the raw points
    of each row are 14, while the box scores of the contestant sum to 7, the
    value that the first version uses. *)
Theorem V2_raw_points_counted_per_roster_row :
  V2.epPoints Sample.two_leagues 2
  = [V2.EpPoints "ada" 1 1 "Bob" (Fin 14); V2.EpPoints "ada" 2 1 "Bob" (Fin 14)] /\
  sum_points (box_points <$>
     filter (fun b => box_queen_name b = "Bob" /\ box_episode_number b = 2)
            (queen_box_scores Sample.two_leagues)) = (7 # 1)%Q /\
  V1.rawPoints Sample.two_leagues 2 "Bob" = Fin 7.
Proof. split_and!; vm_compute; reflexivity. Qed.

(** ** The multipliers *)

(** C6, as the specification states it, fails: a configured value that is
    negative, zero or unparsable is not replaced by the default of its rank.
    With rank 1 configured as -2, rank 2 as abc and rank 3 as 0 the resolver
    returns -2, NaN and 0 where the policy asks for 2.5, 2.0 and 1.5. *)
Lemma formatMultipliers_keeps_configured_values :
  let settings : gmap string string :=
    {[ "multiplier_rank_1" := "-2"; "multiplier_rank_2" := "abc";
       "multiplier_rank_3" := "0" ]} in
  V1.formatMultipliers settings !! 1 = Some (Fin (-2 # 1)) /\
  resolve_by_policy (Parse.parseFloat (V1_default 1)) (settings !! multiplier_key 1)
    = Fin (5 # 2) /\
  V1.formatMultipliers settings !! 2 = Some NaN /\
  resolve_by_policy (Parse.parseFloat (V1_default 2)) (settings !! multiplier_key 2)
    = Fin 2 /\
  V1.formatMultipliers settings !! 3 = Some (Fin 0) /\
  resolve_by_policy (Parse.parseFloat (V1_default 3)) (settings !! multiplier_key 3)
    = Fin (3 # 2) /\
  ~ (forall r, 1 <= r <= 4 ->
       V1.formatMultipliers settings !! r
       = Some (resolve_by_policy (Parse.parseFloat (V1_default r))
                                 (settings !! multiplier_key r))).
Proof.
  intros settings. split_and!; [vm_compute; reflexivity..|].
  intros Hall. specialize (Hall 1 ltac:(lia)). vm_compute in Hall. discriminate.
Qed.

(** C6, amended. For every settings map and every rank r in 1..4,
    [formatMultipliers] returns the fixed positive default of the rank when
    the setting of the rank is missing or is the empty string, and otherwise
    [parseFloat] of the configured value as it is (NaN when it is
    unparsable, the number itself when it is zero or negative); this holds
    for both versions, each with its own defaults. *)
Theorem formatMultipliers_defaults_only_when_missing (settings : gmap string string) (r : Z)
    (Hr : 1 <= r <= 4) :
  let configured := settings !! multiplier_key r in
  (configured = None \/ configured = Some "" ->
     V1.formatMultipliers settings !! r = Some (Parse.parseFloat (V1_default r)) /\
     V2.formatMultipliers settings !! r = Some (Parse.parseFloat (V2_default r))) /\
  (forall v, configured = Some v -> v <> "" ->
     V1.formatMultipliers settings !! r = Some (Parse.parseFloat v) /\
     V2.formatMultipliers settings !! r = Some (Parse.parseFloat v)) /\
  positive (Parse.parseFloat (V1_default r)) = true /\
  positive (Parse.parseFloat (V2_default r)) = true.
Proof.
  intros configured.
  assert (Hcases : r = 1 \/ r = 2 \/ r = 3 \/ r = 4) by lia.
  assert (H1 : V1.formatMultipliers settings !! r
               = Some (Parse.parseFloat (or_string configured (V1_default r)))).
  { subst configured. unfold V1.formatMultipliers.
    destruct Hcases as [-> | [-> | [-> | ->]]]; by simplify_map_eq. }
  assert (H2 : V2.formatMultipliers settings !! r
               = Some (Parse.parseFloat (or_string configured (V2_default r)))).
  { subst configured. unfold V2.formatMultipliers.
    destruct Hcases as [-> | [-> | [-> | ->]]]; by simplify_map_eq. }
  rewrite H1, H2. split_and!.
  - intros [->| ->]; done.
  - intros v Hc Hv. rewrite Hc. cbn. by rewrite !decide_False.
  - destruct Hcases as [-> | [-> | [-> | ->]]]; reflexivity.
  - destruct Hcases as [-> | [-> | [-> | ->]]]; reflexivity.
Qed.

(** ** The current episode *)

(** C10. When the settings table has no row for the key current_episode, or
    the row found has the empty string as its value, [getCurrentEpisode]
    returns 1. *)
Theorem getCurrentEpisode_defaults_to_1 (t : tables)
    (Hrow : (forall r, r ∈ settings t -> r.1 <> "current_episode") \/
            head (select_setting "current_episode" t) = Some "") :
  getCurrentEpisode t = Fin 1.
Proof.
  unfold getCurrentEpisode. destruct Hrow as [Hno|Hempty].
  - replace (select_setting "current_episode" t) with (@nil string); [reflexivity|].
    unfold select_setting. symmetry.
    induction (settings t) as [|r l IH]; [done|].
    rewrite filter_cons. destruct (decide _) as [Hk|_].
    + destruct (Hno r); [by left|done].
    + apply IH. intros r' Hr'. apply Hno. by right.
  - rewrite Hempty. reflexivity.
Qed.

(** ** The two versions side by side *)

(** C8. The two versions of [recalculateScores] disagree.  From the same
    tables and empty scores and standings, with every multiplier configured,
    the first one keeps a row per league where the second one keeps a single
    row, and the standings differ; from the same stale standings the first
    one keeps the row of a pair without scores and the second one drops it;
    and with nothing configured the defaults of the two resolvers differ, so
    that the same pick scores 17.5 in one and 14 in the other. *)
Theorem recalculateScores_versions_disagree :
  (exists (t : tables) (ep : Z),
     let f1 := V1.recalculateScores ep (V1.Db t ∅ ∅) in
     let f2 := V2.recalculateScores ep (V2.formatMultipliers (getSettings t)) (V2.Db t ∅ ∅) in
     length (V1.score_rows f1) <> length (V2.score_rows f2) /\
     V1.league_standings f1 <> V2.league_standings f2) /\
  (let t := Sample.two_leagues_configured in
   let f1 := V1.recalculateScores 2 (V1.Db t ∅ ∅) in
   let f2 := V2.recalculateScores 2 (V2.formatMultipliers (getSettings t)) (V2.Db t ∅ ∅) in
   V1.formatMultipliers (getSettings t) = V2.formatMultipliers (getSettings t) /\
   V1.score_rows f1 = [Score "ada" 1 "Bob" 2 (Fin (35 # 2)) 1;
                       Score "ada" 2 "Bob" 2 (Fin (35 # 2)) 1] /\
   V2.score_rows f2 = [Score "ada" 2 "Bob" 2 (Fin 35) 1]) /\
  (let m := V2.formatMultipliers (getSettings Sample.second_episode) in
   let f1 := V1.recalculateScores 2 Sample.stale_V1 in
   let f2 := V2.recalculateScores 2 m Sample.stale_V2 in
   V1.league_standings Sample.stale_V1 = V2.league_standings Sample.stale_V2 /\
   V1.score_rows f1 = V2.score_rows f2 /\
   V1.league_standings f1 !! ("zoe", 9) = Some (Fin 3) /\
   V2.league_standings f2 !! ("zoe", 9) = None) /\
  (let t := Sample.unconfigured in
   let f1 := V1.recalculateScores 2 (V1.Db t ∅ ∅) in
   let f2 := V2.recalculateScores 2 (V2.formatMultipliers (getSettings t)) (V2.Db t ∅ ∅) in
   V1.formatMultipliers ∅ !! 1 = Some (Fin (5 # 2)) /\
   V2.formatMultipliers ∅ !! 1 = Some (Fin 2) /\
   V1.league_standings f1 !! ("ada", 1) = Some (Fin (35 # 2)) /\
   V2.league_standings f2 !! ("ada", 1) = Some (Fin 14)).
Proof.
  split_and!.
  - exists Sample.two_leagues_configured, 2. split.
    + vm_compute. discriminate.
    + intros Heq. apply (f_equal (fun st => st !! ("ada", 1))) in Heq.
      vm_compute in Heq. discriminate.
  - split_and!; vm_compute; reflexivity.
  - split_and!; vm_compute; reflexivity.
  - split_and!; vm_compute; reflexivity.
Qed.

(** ** Memberships *)

Lemma insert_do_nothing_member (row : member) (lm : list member) :
  row ∈ lm -> Membership.insert_do_nothing row lm = lm.
Proof. intros Hin. unfold Membership.insert_do_nothing. by rewrite decide_True. Qed.

Lemma insert_do_nothing_NoDup (row : member) (lm : list member) :
  NoDup lm -> NoDup (Membership.insert_do_nothing row lm).
Proof.
  intros Hnd. unfold Membership.insert_do_nothing.
  destruct (decide (row ∈ lm)) as [Hin|Hnot]; [done|].
  apply NoDup_app. split_and!; [done| |apply NoDup_singleton].
  intros x Hx ->%list_elem_of_singleton. done.
Qed.

Lemma set_members_same (t : tables) : Membership.set_members (league_members t) t = t.
Proof. by destruct t. Qed.

(** Creating a league keeps the memberships free of duplicates. *)
Lemma createLeague_NoDup (id : Z) (inviteCode userId leagueName : string) (t : tables) :
  NoDup (league_members t) ->
  NoDup (league_members (Membership.createLeague id inviteCode userId leagueName t).1).
Proof.
  unfold Membership.createLeague, Membership.insert_plain. cbn.
  destruct (decide _) as [Hin|Hnot]; [done|]. intros Hnd. cbn.
  apply NoDup_app. split_and!; [done| |apply NoDup_singleton].
  intros x Hx ->%list_elem_of_singleton. done.
Qed.

(** C9. Both join-league handlers keep [league_members] free of two rows
    with the same (league_id, user_id); and in every state a request of a
    user who is already a member of the league that the invite code resolves
    to leaves the tables as they are. *)
Theorem join_league_keeps_members_unique (t : tables) (req : Membership.request) :
  (NoDup (league_members t) ->
   NoDup (league_members (Membership.JoinA.POST req t).1) /\
   NoDup (league_members (Membership.JoinB.POST req t).1)) /\
  (forall u id,
     Membership.cookie_userId req = Some u ->
     head (Membership.select_league
             (Membership.toUpperCase <$> Membership.form_inviteCode req) t) = Some id ->
     Member id u ∈ league_members t ->
     (Membership.JoinA.POST req t).1 = t) /\
  (forall u id,
     Membership.cookie_userId req = Some u ->
     head (Membership.select_league
             ((fun c => Membership.toUpperCase (Membership.trim c))
                <$> Membership.form_inviteCode req) t) = Some id ->
     Member id u ∈ league_members t ->
     (Membership.JoinB.POST req t).1 = t).
Proof.
  split_and!.
  - intros Hunique. split.
    + unfold Membership.JoinA.POST.
      destruct (Membership.select_league _ t) as [|id ids]; [done|].
      destruct (Membership.cookie_userId req) as [u|]; [|done].
      cbn. by apply insert_do_nothing_NoDup.
    + unfold Membership.JoinB.POST.
      destruct (Membership.cookie_userId req) as [u|]; [|done].
      destruct (decide (u = "")); [done|].
      destruct (Membership.select_league _ t) as [|id ids]; [done|].
      cbn. by apply insert_do_nothing_NoDup.
  - intros u id Hu Hid Hin. unfold Membership.JoinA.POST. rewrite Hu.
    destruct (Membership.select_league _ t) as [|id' ids]; [done|].
    injection Hid as ->. cbn.
    rewrite insert_do_nothing_member by done. apply set_members_same.
  - intros u id Hu Hid Hin. unfold Membership.JoinB.POST. rewrite Hu.
    destruct (decide (u = "")); [done|].
    destruct (Membership.select_league _ t) as [|id' ids]; [done|].
    injection Hid as ->. cbn.
    rewrite insert_do_nothing_member by done. apply set_members_same.
Qed.

(** ** The theorems at the sample stores *)

Lemma recalculateScores_idempotent_witness :
  let m := V2.formatMultipliers (getSettings Sample.two_leagues) in
  let s1 := V1.Db Sample.two_leagues ∅ ∅ in
  let s2 := V2.Db Sample.two_leagues ∅ ∅ in
  (1 <= 3)%nat /\
  Nat.iter 3 (V1.recalculateScores 2) s1 = V1.recalculateScores 2 s1 /\
  Nat.iter 3 (V2.recalculateScores 2 m) s2 = V2.recalculateScores 2 m s2.
Proof.
  intros m s1 s2. split; [lia|].
  apply (recalculateScores_idempotent 3 2 m s1 s2). lia.
Defined.

Lemma standings_are_season_totals_witness :
  let m1 := V2.formatMultipliers (getSettings Sample.second_episode) in
  let e1 := V1.recalculateScores 2 Sample.after_first_V1 in
  let e2 := V2.recalculateScores 2 m1 Sample.after_first_V2 in
  let m := V2.formatMultipliers (getSettings Scenario.season) in
  let f1 := V1.recalculateScores 2 Scenario.season_V1 in
  let f2 := V2.recalculateScores 2 m Scenario.season_V2 in
  let g1 := V1.recalculateScores 2 Sample.stale_V1 in
  (V1.user_queen_scores e1 !! ("ada", 1, "Bob", 1) = Some (Fin (35 # 2), 1) /\
   V1.user_queen_scores e1 !! ("ada", 1, "Bob", 2) = Some (Fin 10, 2) /\
   V1.league_standings e1 !! ("ada", 1) = Some (Fin (55 # 2))) /\
  (V2.user_queen_scores e2 !! ("ada", 1, 1) = Some (1, "Bob", Fin (35 # 2)) /\
   V2.user_queen_scores e2 !! ("ada", 2, 2) = Some (1, "Bob", Fin 10) /\
   V2.league_standings e2 !! ("ada", 1) = Some (Fin (55 # 2))) /\
  (V1.user_queen_scores f1 !! ("ada", 1, "Bob", 2) = Some (Fin 10, 2) /\
   V1.user_queen_scores f1 !! ("ada", 2, "Cat", 2) = Some (Fin 5, 1) /\
   V1.user_queen_scores f1 !! ("eve", 1, "Cat", 2) = Some (Fin 4, 2) /\
   V1.league_standings f1 !! ("ada", 1) = Some (Fin (55 # 2)) /\
   V1.league_standings f1 !! ("ada", 2) = Some (Fin 9) /\
   V1.league_standings f1 !! ("eve", 1) = Some (Fin 7)) /\
  (V2.user_queen_scores f2 !! ("ada", 1, 1) = Some (1, "Bob", Fin (35 # 2)) /\
   V2.user_queen_scores f2 !! ("ada", 3, 1) = Some (2, "Bob", Fin 4) /\
   V2.user_queen_scores f2 !! ("eve", 2, 2) = Some (1, "Cat", Fin 4) /\
   V2.league_standings f2 !! ("ada", 1) = Some (Fin (35 # 2)) /\
   V2.league_standings f2 !! ("ada", 2) = Some (Fin 4) /\
   V2.league_standings f2 !! ("eve", 1) = Some (Fin 7)) /\
  (Fin (55 # 2) = season_total (V1.score_rows f1) "ada" 1 /\
   Fin 4 = season_total (V2.score_rows f2) "ada" 2 /\
   exists rk e q p, V2.user_queen_scores f2 !! ("ada", rk, e) = Some (2, q, p)) /\
  (V1.league_standings Sample.stale_V1 !! ("zoe", 9) = Some (Fin 3) /\
   V1.league_standings g1 !! ("zoe", 9) = Some (Fin 3) /\
   forall q e, V1.user_queen_scores g1 !! ("zoe", 9, q, e) = None).
Proof.
  intros m1 e1 e2 m f1 f2 g1.
  destruct (standings_are_season_totals 2 m1 Sample.after_first_V1 Sample.after_first_V2
              "ada" 1) as (E1 & E2 & _).
  destruct (standings_are_season_totals 2 m Scenario.season_V1 Scenario.season_V2
              "ada" 1) as (A1 & A2 & A3 & _).
  destruct (standings_are_season_totals 2 m Scenario.season_V1 Scenario.season_V2
              "ada" 2) as (B1 & B2 & _ & B4).
  destruct (standings_are_season_totals 2 m Scenario.season_V1 Scenario.season_V2
              "eve" 1) as (C1 & C2 & _).
  destruct (standings_are_season_totals 2 m Sample.stale_V1 Sample.stale_V2
              "zoe" 9) as (_ & _ & Z3 & _).
  assert (He1 : V1.user_queen_scores e1 !! ("ada", 1, "Bob", 1) = Some (Fin (35 # 2), 1))
    by (vm_compute; reflexivity).
  assert (He2 : V2.user_queen_scores e2 !! ("ada", 1, 1) = Some (1, "Bob", Fin (35 # 2)))
    by (vm_compute; reflexivity).
  assert (Ha1 : V1.user_queen_scores f1 !! ("ada", 1, "Bob", 2) = Some (Fin 10, 2))
    by (vm_compute; reflexivity).
  assert (Hb1 : V1.user_queen_scores f1 !! ("ada", 2, "Cat", 2) = Some (Fin 5, 1))
    by (vm_compute; reflexivity).
  assert (Hc1 : V1.user_queen_scores f1 !! ("eve", 1, "Cat", 2) = Some (Fin 4, 2))
    by (vm_compute; reflexivity).
  assert (Ha2 : V2.user_queen_scores f2 !! ("ada", 1, 1) = Some (1, "Bob", Fin (35 # 2)))
    by (vm_compute; reflexivity).
  assert (Hb2 : V2.user_queen_scores f2 !! ("ada", 3, 1) = Some (2, "Bob", Fin 4))
    by (vm_compute; reflexivity).
  assert (Hc2 : V2.user_queen_scores f2 !! ("eve", 2, 2) = Some (1, "Cat", Fin 4))
    by (vm_compute; reflexivity).
  assert (Hold : V1.league_standings Sample.stale_V1 !! ("zoe", 9) = Some (Fin 3))
    by (vm_compute; reflexivity).
  assert (Hkept : V1.league_standings g1 !! ("zoe", 9) = Some (Fin 3))
    by (vm_compute; reflexivity).
  assert (Hla : V1.league_standings f1 !! ("ada", 1) = Some (Fin (55 # 2))).
  { etrans; [exact (A1 _ _ _ Ha1)|vm_compute; reflexivity]. }
  assert (Hlb : V2.league_standings f2 !! ("ada", 2) = Some (Fin 4)).
  { etrans; [exact (B2 _ _ _ _ Hb2)|vm_compute; reflexivity]. }
  subst e1 e2 f1 f2 g1 m1 m.
  split_and!; [exact He1|vm_compute; reflexivity| |exact He2|vm_compute; reflexivity|
               |exact Ha1|exact Hb1|exact Hc1|exact Hla| | |exact Ha2|exact Hb2|exact Hc2
               | |exact Hlb| | | | |exact Hold|exact Hkept|].
  - etrans; [exact (E1 _ _ _ He1)|vm_compute; reflexivity].
  - etrans; [exact (E2 _ _ _ _ He2)|vm_compute; reflexivity].
  - etrans; [exact (B1 _ _ _ Hb1)|vm_compute; reflexivity].
  - etrans; [exact (C1 _ _ _ Hc1)|vm_compute; reflexivity].
  - etrans; [exact (A2 _ _ _ _ Ha2)|vm_compute; reflexivity].
  - etrans; [exact (C2 _ _ _ _ Hc2)|vm_compute; reflexivity].
  - destruct (A3 _ Hla) as [Htotal|[Hnone _]]; [exact Htotal|].
    specialize (Hnone "Bob" 2). rewrite Ha1 in Hnone. discriminate Hnone.
  - exact (proj1 (B4 _ Hlb)).
  - exact (proj2 (B4 _ Hlb)).
  - destruct (Z3 _ Hkept) as [Htotal|[Hnone _]]; [|exact Hnone].
    vm_compute in Htotal. discriminate Htotal.
Defined.

Lemma formatMultipliers_defaults_only_when_missing_witness :
  let settings : gmap string string :=
    {[ "multiplier_rank_1" := ""; "multiplier_rank_2" := "3" ]} in
  1 <= 1 <= 4 /\ 1 <= 2 <= 4 /\
  V1.formatMultipliers settings !! 1 = Some (Fin (5 # 2)) /\
  V2.formatMultipliers settings !! 1 = Some (Fin 2) /\
  V1.formatMultipliers settings !! 2 = Some (Fin 3) /\
  V2.formatMultipliers settings !! 2 = Some (Fin 3).
Proof.
  intros settings.
  assert (Hr1 : 1 <= 1 <= 4) by lia.
  assert (Hr2 : 1 <= 2 <= 4) by lia.
  destruct (formatMultipliers_defaults_only_when_missing settings 1 Hr1) as (Hdef & _).
  destruct (formatMultipliers_defaults_only_when_missing settings 2 Hr2) as (_ & Hcfg & _).
  split; [exact Hr1|]. split; [exact Hr2|].
  destruct Hdef as [Hd1 Hd2]; [right; reflexivity|].
  destruct (Hcfg "3") as [Hc1 Hc2]; [reflexivity|discriminate|].
  split_and!; [exact Hd1|exact Hd2|exact Hc1|exact Hc2].
Defined.

Lemma getCurrentEpisode_defaults_to_1_witness :
  (forall r, r ∈ settings Sample.no_episode -> r.1 <> "current_episode") /\
  getCurrentEpisode Sample.no_episode = Fin 1 /\
  head (select_setting "current_episode" Sample.empty_episode) = Some "" /\
  getCurrentEpisode Sample.empty_episode = Fin 1.
Proof.
  assert (Hno : forall r, r ∈ settings Sample.no_episode -> r.1 <> "current_episode").
  { intros r Hr. cbn in Hr.
    repeat (apply elem_of_cons in Hr as [->|Hr]; [discriminate|]).
    by apply elem_of_nil in Hr. }
  assert (Hrow : head (select_setting "current_episode" Sample.empty_episode) = Some "")
    by reflexivity.
  split_and!; [exact Hno| |exact Hrow|].
  - apply getCurrentEpisode_defaults_to_1. left. exact Hno.
  - apply getCurrentEpisode_defaults_to_1. right. exact Hrow.
Defined.

Lemma join_league_keeps_members_unique_witness :
  NoDup (league_members Sample.two_users) /\
  NoDup (league_members (Membership.JoinA.POST Sample.join_other Sample.two_users).1) /\
  NoDup (league_members (Membership.JoinB.POST Sample.join_other Sample.two_users).1) /\
  (Membership.JoinA.POST Sample.rejoin_exact Sample.two_users).1 = Sample.two_users /\
  (Membership.JoinB.POST Sample.rejoin Sample.two_users).1 = Sample.two_users.
Proof.
  assert (Hunique : NoDup (league_members Sample.two_users)).
  { apply NoDup_cons. split; [|apply NoDup_singleton].
    intros Hin%list_elem_of_singleton. discriminate. }
  destruct (join_league_keeps_members_unique Sample.two_users Sample.join_other)
    as (Hnd & _).
  destruct (Hnd Hunique) as [HndA HndB].
  destruct (join_league_keeps_members_unique Sample.two_users Sample.rejoin_exact)
    as (_ & HA & _).
  destruct (join_league_keeps_members_unique Sample.two_users Sample.rejoin)
    as (_ & _ & HB).
  split_and!; [exact Hunique|exact HndA|exact HndB| |].
  - apply (HA "ada" 1); [reflexivity|reflexivity|left].
  - apply (HB "ada" 1); [reflexivity|reflexivity|left].
Defined.

(** * The rest of the query library *)

(** ** Settings *)

Lemma written_replace (k j v : string) (o : option string) (rows : list (string * string)) :
  written j o ((fun r => if decide (r.1 = k) then (k, v) else r) <$> rows)
  = if decide (j = k)
    then (if decide (k ∈ rows.*1) then Some v else o)
    else written j o rows.
Proof.
  unfold written. revert o. induction rows as [|[k' v'] rows IH]; intros o; cbn.
  - destruct (decide (j = k)); [|done]. by rewrite decide_False by apply not_elem_of_nil.
  - rewrite IH. clear IH.
    destruct (decide (k' = k)) as [->|Hk]; cbn;
      repeat case_decide; subst; try done;
      rewrite ?elem_of_cons in *; exfalso; intuition congruence.
Qed.

Lemma fromEntries_upsert_setting (k v : string) (rows : list (string * string)) :
  fromEntries (upsert_setting k v rows) = <[k := v]> (fromEntries rows).
Proof.
  apply map_eq; intros j. rewrite lookup_insert, !lookup_fromEntries.
  unfold upsert_setting. destruct (decide (k ∈ rows.*1)) as [Hin|Hnot].
  - rewrite written_replace. destruct (decide (j = k)) as [->|Hj].
    + by rewrite !decide_True.
    + by rewrite decide_False.
  - unfold written. rewrite foldl_app. cbn.
    destruct (decide (k = j)) as [->|Hj]; [done|done].
Qed.

Lemma upsert_setting_keys (k v : string) (rows : list (string * string)) :
  (upsert_setting k v rows).*1
  = if decide (k ∈ rows.*1) then rows.*1 else rows.*1 ++ [k].
Proof.
  unfold upsert_setting. destruct (decide (k ∈ rows.*1)) as [Hin|Hnot].
  - clear Hin. induction rows as [|[k' v'] rows IH]; [done|].
    cbn. rewrite IH. by destruct (decide (k' = k)) as [->|?].
  - by rewrite fmap_app.
Qed.

(** X1. The settings object after [updateSetting(key, value)] is the object
    before it with the key set to the value: the value is read back, and no
    other setting changes.  The other tables are left as they are. *)
Theorem getSettings_updateSetting (key value : string) (t : tables) :
  getSettings (updateSetting key value t) = <[key := value]> (getSettings t) /\
  rosters (updateSetting key value t) = rosters t /\
  queen_box_scores (updateSetting key value t) = queen_box_scores t /\
  league_members (updateSetting key value t) = league_members t /\
  leagues (updateSetting key value t) = leagues t.
Proof.
  split_and!; [|done..]. unfold getSettings, updateSetting. cbn.
  apply fromEntries_upsert_setting.
Qed.

Lemma updateSetting_NoDup (key value : string) (t : tables) :
  NoDup (settings t).*1 -> NoDup (settings (updateSetting key value t)).*1.
Proof.
  intros Hnd. unfold updateSetting. cbn. rewrite upsert_setting_keys.
  destruct (decide (key ∈ (settings t).*1)) as [Hin|Hnot]; [done|].
  apply NoDup_app. split_and!; [done| |apply NoDup_singleton].
  intros x Hx ->%list_elem_of_singleton. done.
Qed.

Lemma updateSetting_keeps_keys (key value k : string) (t : tables) :
  k ∈ (settings t).*1 -> k ∈ (settings (updateSetting key value t)).*1.
Proof.
  intros Hk. unfold updateSetting. cbn. rewrite upsert_setting_keys.
  destruct (decide (key ∈ (settings t).*1)); [done|]. apply elem_of_app. by left.
Qed.

(** X2. [updateSetting] and [updateSettingsBatch] keep the keys of the
    settings table free of duplicates, and neither removes a key. *)
Theorem settings_keys_stay_unique (updates : list (string * string)) (key value : string)
    (t : tables) :
  (NoDup (settings t).*1 ->
   NoDup (settings (updateSetting key value t)).*1 /\
   NoDup (settings (updateSettingsBatch updates t)).*1) /\
  (forall k, k ∈ (settings t).*1 ->
     k ∈ (settings (updateSetting key value t)).*1 /\
     k ∈ (settings (updateSettingsBatch updates t)).*1).
Proof.
  split.
  - intros Hnd. split; [by apply updateSetting_NoDup|].
    unfold updateSettingsBatch. revert t Hnd.
    induction updates as [|[k v] updates IH]; intros t Hnd; [done|].
    cbn. apply IH. destruct (decide (v = "")); [done|]. by apply updateSetting_NoDup.
  - intros k Hk. split; [by apply updateSetting_keeps_keys|].
    unfold updateSettingsBatch. revert t Hk.
    induction updates as [|[k' v] updates IH]; intros t Hk; [done|].
    cbn. apply IH. destruct (decide (v = "")); [done|]. by apply updateSetting_keeps_keys.
Qed.

Lemma getSettings_updateSettingsBatch (updates : list (string * string)) (t : tables) :
  getSettings (updateSettingsBatch updates t)
  = upsert_all (filter (fun e => e.2 <> "") updates) (getSettings t).
Proof.
  unfold updateSettingsBatch. revert t.
  induction updates as [|[k v] updates IH]; intros t; [done|].
  cbn [foldl]. rewrite IH. cbn [snd fst].
  destruct (decide (v = "")) as [->|Hv].
  - by rewrite filter_cons_False by (cbn; tauto).
  - rewrite filter_cons_True by done. cbn [upsert_all foldl fst snd].
    unfold getSettings, updateSetting. cbn [settings set_settings].
    by rewrite fromEntries_upsert_setting.
Qed.

Lemma filter_keys_NoDup {A B : Type} (P : A * B -> Prop) `{forall x, Decision (P x)}
    (l : list (A * B)) :
  NoDup l.*1 -> NoDup (filter P l).*1.
Proof.
  intros Hnd. apply (sublist_NoDup (filter P l).*1 l.*1); [done|].
  apply fmap_sublist, sublist_filter.
Qed.

Lemma NoDup_keys_functional {A B : Type} (l : list (A * B)) (x : A) (y1 y2 : B) :
  NoDup l.*1 -> (x, y1) ∈ l -> (x, y2) ∈ l -> y1 = y2.
Proof.
  induction l as [|[x' y'] l IH]; [by intros _ ?%elem_of_nil|].
  cbn. intros [Hx Hnd]%NoDup_cons [Heq1|Hin1]%elem_of_cons [Heq2|Hin2]%elem_of_cons.
  - congruence.
  - destruct Hx. injection Heq1 as <- _. by apply (list_elem_of_fmap_2 fst _ (x, y2)).
  - destruct Hx. injection Heq2 as <- _. by apply (list_elem_of_fmap_2 fst _ (x, y1)).
  - by apply IH.
Qed.

(** What [getSettings] finds at a key after a batch. *)
Lemma lookup_settings_after_batch (updates : list (string * string))
    (t : tables) (k : string) (Hkeys : NoDup updates.*1) :
  let after := getSettings (updateSettingsBatch updates t) in
  (forall v, (k, v) ∈ updates -> v <> "" -> after !! k = Some v) /\
  ((k, "") ∈ updates -> after !! k = getSettings t !! k) /\
  (k ∉ updates.*1 -> after !! k = getSettings t !! k).
Proof.
  intros after. subst after. rewrite getSettings_updateSettingsBatch.
  split_and!.
  - intros v Hin Hv. rewrite lookup_upsert_all.
    apply written_NoDup; [by apply filter_keys_NoDup|].
    by apply list_elem_of_filter.
  - intros Hin. rewrite lookup_upsert_all. apply written_notin.
    intros Hk. apply list_elem_of_fmap in Hk as ([k' v'] & -> & Hf).
    apply list_elem_of_filter in Hf as [Hv' Hin']. cbn in *.
    by rewrite (NoDup_keys_functional _ _ _ _ Hkeys Hin' Hin) in Hv'.
  - intros Hnot. rewrite lookup_upsert_all. apply written_notin.
    intros Hk. apply Hnot. apply list_elem_of_fmap in Hk as (e & -> & Hf).
    apply list_elem_of_filter in Hf as [_ Hin']. by apply list_elem_of_fmap_2.
Qed.

(** X3. After [updateSettingsBatch(updates)], where no key occurs twice in
    [updates]: every entry with a non-empty value is read back by
    [getSettings]; a key with an empty value, or without an entry, keeps the
    setting it had, so a batch cannot blank or remove a setting. *)
Theorem updateSettingsBatch_sets_nonempty_entries (updates : list (string * string))
    (t : tables) (k : string) (Hkeys : NoDup updates.*1) :
  let after := getSettings (updateSettingsBatch updates t) in
  (forall v, (k, v) ∈ updates -> v <> "" -> after !! k = Some v) /\
  ((k, "") ∈ updates -> after !! k = getSettings t !! k) /\
  (k ∉ updates.*1 -> after !! k = getSettings t !! k).
Proof.
  intros after.
  destruct (lookup_settings_after_batch updates t k Hkeys)
    as (Hset & Hempty & Hnone).
  split_and!; [exact Hset|exact Hempty|exact Hnone].
Qed.

Lemma select_setting_updateSetting_other (key value k : string) (t : tables) :
  k <> key -> select_setting k (updateSetting key value t) = select_setting k t.
Proof.
  intros Hk. unfold select_setting, updateSetting, upsert_setting.
  cbn [settings set_settings].
  destruct (decide (key ∈ (settings t).*1)) as [_|_].
  - f_equal. induction (settings t) as [|[k' v'] rows IH]; [done|].
    rewrite fmap_cons, !filter_cons, IH. cbn [fst].
    destruct (decide (k' = key)) as [->|Hk']; cbn [fst]; [|done].
    by rewrite !decide_False by congruence.
  - rewrite filter_app, (filter_cons_False _ (key, value)) by (cbn; congruence).
    by rewrite filter_nil, app_nil_r.
Qed.

Lemma head_select_setting_updateSetting (key value : string) (t : tables) :
  head (select_setting key (updateSetting key value t)) = Some value.
Proof.
  unfold select_setting, updateSetting, upsert_setting.
  cbn [settings set_settings].
  destruct (decide (key ∈ (settings t).*1)) as [Hin|Hnot].
  - induction (settings t) as [|[k' v'] rows IH]; [by apply elem_of_nil in Hin|].
    rewrite fmap_cons, filter_cons. cbn [fst] in *.
    destruct (decide (k' = key)) as [->|Hk']; cbn [fst].
    + by rewrite decide_True.
    + rewrite decide_False by done. apply IH.
      rewrite fmap_cons in Hin. by apply elem_of_cons in Hin as [?|?].
  - rewrite filter_app, filter_cons_True by done.
    replace (filter (fun r => r.1 = key) (settings t)) with (@nil (string * string)); [done|].
    symmetry. by apply filter_nil_notin.
Qed.

Lemma getCurrentEpisode_updateSettingsBatch (updates : list (string * string)) (t : tables) :
  (forall v, ("current_episode", v) ∈ updates -> v = "") ->
  getCurrentEpisode (updateSettingsBatch updates t) = getCurrentEpisode t.
Proof.
  unfold updateSettingsBatch. revert t.
  induction updates as [|[k v] updates IH]; intros t Hup; [done|].
  cbn. rewrite IH by (intros v' Hv'; apply Hup; by right).
  destruct (decide (v = "")) as [->|Hv]; [done|].
  unfold getCurrentEpisode. rewrite select_setting_updateSetting_other; [done|].
  intros Hk. destruct Hv. apply Hup. rewrite Hk. left.
Qed.

(** X4. [getCurrentEpisode] reads back what [updateSetting] wrote under the
    key current_episode: the integer that the non-empty value starts with.
    An update of another key, or a batch without a value for that key, leaves
    the current episode as it was. *)
Theorem getCurrentEpisode_reads_updateSetting (key value : string)
    (updates : list (string * string)) (t : tables) :
  (value <> "" ->
   getCurrentEpisode (updateSetting "current_episode" value t) = Parse.parseInt value) /\
  (key <> "current_episode" ->
   getCurrentEpisode (updateSetting key value t) = getCurrentEpisode t) /\
  ((forall v, ("current_episode", v) ∈ updates -> v = "") ->
   getCurrentEpisode (updateSettingsBatch updates t) = getCurrentEpisode t).
Proof.
  split_and!.
  - intros Hv. unfold getCurrentEpisode.
    rewrite head_select_setting_updateSetting. cbn. by rewrite decide_False.
  - intros Hk. unfold getCurrentEpisode.
    by rewrite select_setting_updateSetting_other.
  - apply getCurrentEpisode_updateSettingsBatch.
Qed.

(** ** Multipliers after an update *)

Lemma V1_formatMultipliers_lookup (st : gmap string string) (r : Z) :
  1 <= r <= 4 ->
  V1.formatMultipliers st !! r
  = Some (Parse.parseFloat (or_string (st !! multiplier_key r) (V1_default r))).
Proof.
  intros Hr. assert (Hcases : r = 1 \/ r = 2 \/ r = 3 \/ r = 4) by lia.
  unfold V1.formatMultipliers.
  destruct Hcases as [-> | [-> | [-> | ->]]]; by simplify_map_eq.
Qed.

Lemma V2_formatMultipliers_lookup (st : gmap string string) (r : Z) :
  1 <= r <= 4 ->
  V2.formatMultipliers st !! r
  = Some (Parse.parseFloat (or_string (st !! multiplier_key r) (V2_default r))).
Proof.
  intros Hr. assert (Hcases : r = 1 \/ r = 2 \/ r = 3 \/ r = 4) by lia.
  unfold V2.formatMultipliers.
  destruct Hcases as [-> | [-> | [-> | ->]]]; by simplify_map_eq.
Qed.

(** X5. The multipliers that a batch of settings configures are the ones
    that [formatMultipliers] resolves afterwards: for a rank r in 1..4 whose
    key has a non-empty value in the batch, both versions return
    [parseFloat] of that value; a rank whose key has an empty value or no
    entry resolves as before the batch. *)
Theorem formatMultipliers_after_updateSettingsBatch (updates : list (string * string))
    (t : tables) (r : Z) (Hkeys : NoDup updates.*1) (Hr : 1 <= r <= 4) :
  let after := getSettings (updateSettingsBatch updates t) in
  (forall v, (multiplier_key r, v) ∈ updates -> v <> "" ->
     V1.formatMultipliers after !! r = Some (Parse.parseFloat v) /\
     V2.formatMultipliers after !! r = Some (Parse.parseFloat v)) /\
  ((multiplier_key r, "") ∈ updates \/ multiplier_key r ∉ updates.*1 ->
     V1.formatMultipliers after !! r = V1.formatMultipliers (getSettings t) !! r /\
     V2.formatMultipliers after !! r = V2.formatMultipliers (getSettings t) !! r).
Proof.
  intros after.
  destruct (lookup_settings_after_batch updates t (multiplier_key r) Hkeys)
    as (Hset & Hempty & Hnone).
  rewrite !V1_formatMultipliers_lookup, !V2_formatMultipliers_lookup by done.
  split.
  - intros v Hin Hv. subst after. rewrite (Hset v Hin Hv). cbn.
    by rewrite !decide_False.
  - intros [Hin|Hnot]; subst after.
    + by rewrite (Hempty Hin).
    + by rewrite (Hnone Hnot).
Qed.

Lemma nmul_one_reduced (x : Q) : nmul (Fin (Qred x)) (Fin 1) = Fin (Qred x).
Proof.
  cbn. f_equal. rewrite <- (Qcanon.Qred_involutive x) at 2.
  apply Qred_complete. ring.
Qed.

Lemma V2_raw_points_reduced (t : tables) (ep : Z) (g : string * Z * Z * string) :
  exists x, V2.raw_points t ep g = Fin (Qred x).
Proof.
  unfold V2.raw_points. destruct (V2.group_points t ep g) as [|y l].
  - by exists 0%Q.
  - unfold sum_points. eauto.
Qed.

(** X6. The multiplier that [recalculateScores] applies is never NaN and
    never zero.  When the setting of a rank in 1..4 is a non-empty text that
    [parseFloat] reads as NaN or as zero, the first version applies 1, not
    the default of the rank, and the points of a roster entry at that rank
    are the first factor as it is: what [pointsMap[name] || 0] reads for the
    contestant, NaN included.  In the second version, for a rank whose
    multiplier is NaN or zero, the points of a row of the query are its
    [raw_points] column as it is, the aggregate that the query computed over
    the joined rows. *)
Theorem multiplier_falls_back_to_one (t : tables) (ep r : Z) (m : gmap Z number) :
  (forall rk, truthy (V1.multiplier t rk) = true /\
              truthy (or_number (m !! rk) (Fin 1)) = true) /\
  (forall v, 1 <= r <= 4 ->
     getSettings t !! multiplier_key r = Some v -> v <> "" ->
     truthy (Parse.parseFloat v) = false ->
     V1.multiplier t r = Fin 1 /\
     forall entry, roster_rank entry = r ->
       V1.points t ep entry = V1.rawPoints t ep (roster_queen_name entry)) /\
  (forall x row, m !! V2.ep_rank row = Some x -> truthy x = false ->
     row ∈ V2.epPoints t ep ->
     V2.weighted m row = V2.ep_raw_points row).
Proof.
  split_and!.
  - intros rk. unfold V1.multiplier, or_number. split.
    + destruct (V1.mults t !! rk) as [n|]; [|done]. by destruct (truthy n) eqn:Hn.
    + destruct (m !! rk) as [n|]; [|done]. by destruct (truthy n) eqn:Hn.
  - intros v Hr Hcfg Hv Hfalsy.
    assert (Hone : V1.multiplier t r = Fin 1).
    { unfold V1.multiplier, V1.mults. rewrite V1_formatMultipliers_lookup by done.
      rewrite Hcfg. cbn. rewrite decide_False by done. by rewrite Hfalsy. }
    split; [done|]. intros entry Hrank. unfold V1.points. rewrite Hrank, Hone.
    destruct (V1_rawPoints_reduced t ep (roster_queen_name entry)) as [->|[x ->]];
      [done|apply nmul_one_reduced].
  - intros x row Hx Hfalsy Hrow. unfold V2.weighted, parseFloat_number.
    rewrite Hx. cbn. rewrite Hfalsy.
    unfold V2.epPoints in Hrow.
    apply list_elem_of_fmap in Hrow as ([[[u l] rk] q] & -> & _). cbn.
    destruct (V2_raw_points_reduced t ep (u, l, rk, q)) as [y ->].
    apply nmul_one_reduced.
Qed.

(** ** What a recalculation leaves alone *)

Lemma V1_entries_keys (t : tables) (ep : Z) (k : string * Z * string * Z) :
  k ∈ (V1_entries t ep).*1 <-> exists r, r ∈ V1.allRosters t ep /\ V1.score_key ep r = k.
Proof.
  unfold V1_entries. rewrite <- list_fmap_compose, list_elem_of_fmap. split.
  - intros (r & -> & Hr). by exists r.
  - intros (r & Hr & <-). by exists r.
Qed.

Lemma V2_entries_keys (t : tables) (ep : Z) (m : gmap Z number) (k : string * Z * Z) :
  k ∈ (V2_entries t ep m).*1 <-> exists row, row ∈ V2.epPoints t ep /\ V2.score_key ep row = k.
Proof.
  unfold V2_entries. rewrite <- list_fmap_compose, list_elem_of_fmap. split.
  - intros (r & -> & Hr). by exists r.
  - intros (r & Hr & <-). by exists r.
Qed.

Lemma written_is_Some `{Countable K} {V : Type} (k : K) (o : option V) (l : list (K * V)) :
  is_Some o -> is_Some (written k o l).
Proof.
  intros Ho. destruct (written_cases k l) as [Hw|[v Hw]]; rewrite Hw; eauto.
Qed.

(** X7. A recalculation writes only the rows of [user_queen_scores] whose
    key is that of an entry of the episode: every other row keeps its
    value, among them the rows of every other episode and the rows of picks
    that are no longer in the roster.  No row is ever deleted.  This holds
    for both versions. *)
Theorem recalculateScores_writes_only_its_entries (ep : Z) (m : gmap Z number)
    (s1 : V1.db) (s2 : V2.db) :
  (forall k, (forall r, r ∈ V1.allRosters (V1.base s1) ep -> V1.score_key ep r <> k) ->
     V1.user_queen_scores (V1.recalculateScores ep s1) !! k = V1.user_queen_scores s1 !! k) /\
  (forall u l q e, e <> ep ->
     V1.user_queen_scores (V1.recalculateScores ep s1) !! (u, l, q, e)
     = V1.user_queen_scores s1 !! (u, l, q, e)) /\
  (forall k, is_Some (V1.user_queen_scores s1 !! k) ->
     is_Some (V1.user_queen_scores (V1.recalculateScores ep s1) !! k)) /\
  (forall k, (forall row, row ∈ V2.epPoints (V2.base s2) ep -> V2.score_key ep row <> k) ->
     V2.user_queen_scores (V2.recalculateScores ep m s2) !! k
     = V2.user_queen_scores s2 !! k) /\
  (forall u rk e, e <> ep ->
     V2.user_queen_scores (V2.recalculateScores ep m s2) !! (u, rk, e)
     = V2.user_queen_scores s2 !! (u, rk, e)) /\
  (forall k, is_Some (V2.user_queen_scores s2 !! k) ->
     is_Some (V2.user_queen_scores (V2.recalculateScores ep m s2) !! k)).
Proof.
  assert (H1 : forall k,
    (forall r, r ∈ V1.allRosters (V1.base s1) ep -> V1.score_key ep r <> k) ->
    V1.user_queen_scores (V1.recalculateScores ep s1) !! k = V1.user_queen_scores s1 !! k).
  { intros k Hk. rewrite V1_recalculateScores_eq. cbn. rewrite lookup_upsert_all.
    apply written_notin. rewrite V1_entries_keys. intros (r & Hr & Heq). by apply (Hk r). }
  assert (H2 : forall k,
    (forall row, row ∈ V2.epPoints (V2.base s2) ep -> V2.score_key ep row <> k) ->
    V2.user_queen_scores (V2.recalculateScores ep m s2) !! k = V2.user_queen_scores s2 !! k).
  { intros k Hk. rewrite V2_recalculateScores_eq. cbn. rewrite lookup_upsert_all.
    apply written_notin. rewrite V2_entries_keys. intros (r & Hr & Heq). by apply (Hk r). }
  split_and!.
  - exact H1.
  - intros u l q e He. apply H1. intros r _. unfold V1.score_key. congruence.
  - intros k Hk. rewrite V1_recalculateScores_eq. cbn. rewrite lookup_upsert_all.
    by apply written_is_Some.
  - exact H2.
  - intros u rk e He. apply H2. intros r _. unfold V2.score_key. congruence.
  - intros k Hk. rewrite V2_recalculateScores_eq. cbn. rewrite lookup_upsert_all.
    by apply written_is_Some.
Qed.

(** X8. The rows that the second version scores are the pairs of a roster
    entry of the episode and a membership of its user: a row for every
    league the user belongs to, whatever league the roster entry names, and
    none for a user who belongs to no league. *)
Theorem V2_scores_every_league_of_the_user (t : tables) (ep : Z)
    (u : string) (l rk : Z) (q : string) :
  (exists raw, V2.EpPoints u l rk q raw ∈ V2.epPoints t ep) <->
  (exists entry, entry ∈ rosters t /\ roster_episode_number entry = ep /\
     roster_user_id entry = u /\ roster_rank entry = rk /\ roster_queen_name entry = q) /\
  Member l u ∈ league_members t.
Proof.
  assert (Hjoined : forall j, j ∈ V2.joined t ep <->
    j.1 ∈ rosters t /\ roster_episode_number j.1 = ep /\
    j.2 ∈ league_members t /\ roster_user_id j.1 = member_user_id j.2).
  { intros [r lm]. unfold V2.joined. rewrite list_elem_of_bind. split.
    - intros (r' & Hj & Hr'). apply list_elem_of_filter in Hr' as [Hep Hr'].
      apply list_elem_of_bind in Hj as (lm' & Hj & Hlm').
      apply list_elem_of_filter in Hlm' as [Hu Hlm'].
      apply list_elem_of_singleton in Hj as [= -> ->]. done.
    - intros (Hr & Hep & Hlm & Hu). cbn in *. exists r. split.
      + apply list_elem_of_bind. exists lm. split; [by left|].
        by apply list_elem_of_filter.
      + by apply list_elem_of_filter. }
  unfold V2.epPoints. split.
  - intros (raw & Hrow). apply list_elem_of_fmap in Hrow as ([[[u' l'] rk'] q'] & [= -> -> -> -> _] & Hg).
    apply elem_of_remove_dups, list_elem_of_fmap in Hg as ([r lm] & Hgroup & Hj).
    apply Hjoined in Hj as (Hr & Hep & Hlm & Hu). cbn in *.
    unfold V2.group_of in Hgroup. cbn in Hgroup. injection Hgroup as -> -> -> ->.
    split; [by exists r|]. destruct lm as [lid uid]. cbn in *. by subst.
  - intros [(r & Hr & Hep & Hu & Hrk & Hq) Hlm].
    exists (V2.raw_points t ep (u, l, rk, q)).
    apply list_elem_of_fmap. exists (u, l, rk, q). split; [done|].
    apply elem_of_remove_dups, list_elem_of_fmap. exists (r, Member l u). split.
    + unfold V2.group_of. cbn. congruence.
    + apply Hjoined. cbn. done.
Qed.

(** ** Rosters *)

Lemma foldl_snoc_fmap {A B : Type} (f : A -> B) (l0 : list B) (l : list A) :
  foldl (fun rows x => rows ++ [f x]) l0 l = l0 ++ (f <$> l).
Proof.
  revert l0. induction l as [|x l IH]; intros l0; cbn.
  - by rewrite app_nil_r.
  - by rewrite IH, <- (assoc_L (++)).
Qed.

Lemma saveRosterSelection_rosters (u : string) (l e : Z)
    (selections : list Roster1.selection) (t : tables) :
  rosters (Roster1.saveRosterSelection u l e selections t)
  = filter (fun r => ~ Roster1.same_roster u l e r) (rosters t)
    ++ (selected u l e <$> selections).
Proof. unfold Roster1.saveRosterSelection. cbn. apply foldl_snoc_fmap. Qed.

Lemma filter_selected_all (u : string) (l e : Z) (selections : list Roster1.selection) :
  filter (Roster1.same_roster u l e) (selected u l e <$> selections)
  = selected u l e <$> selections.
Proof.
  induction selections as [|x xs IH]; [done|].
  rewrite fmap_cons, filter_cons_True by done. by rewrite IH.
Qed.

Lemma filter_selected_none (u : string) (l e : Z) (selections : list Roster1.selection) :
  filter (fun r => ~ Roster1.same_roster u l e r) (selected u l e <$> selections) = [].
Proof.
  induction selections as [|x xs IH]; [done|].
  rewrite fmap_cons, filter_cons_False; [done|]. intros Hn. by apply Hn.
Qed.

Lemma filter_idemp {A : Type} (P : A -> Prop) `{forall x, Decision (P x)} (l : list A) :
  filter P (filter P l) = filter P l.
Proof.
  induction l as [|x l IH]; [done|].
  rewrite filter_cons. destruct (decide (P x)); [|done].
  by rewrite filter_cons_True, IH.
Qed.

Lemma filter_not_filter {A : Type} (P : A -> Prop) `{forall x, Decision (P x)} (l : list A) :
  filter P (filter (fun x => ~ P x) l) = [].
Proof.
  induction l as [|x l IH]; [done|].
  rewrite filter_cons. destruct (decide (~ P x)); [|done].
  by rewrite filter_cons_False.
Qed.

(** X9. [saveRosterSelection] replaces the roster of the user for the league
    and the episode, and nothing else: afterwards the rows of that (user,
    league, episode) are the selections, in their order, and the rows of
    every other user, league or episode are the ones that were there, in
    their order.  The other tables are left as they are. *)
Theorem saveRosterSelection_replaces_one_roster (u : string) (l e : Z)
    (selections : list Roster1.selection) (t : tables) :
  let t' := Roster1.saveRosterSelection u l e selections t in
  filter (Roster1.same_roster u l e) (rosters t') = selected u l e <$> selections /\
  filter (fun r => ~ Roster1.same_roster u l e r) (rosters t')
  = filter (fun r => ~ Roster1.same_roster u l e r) (rosters t) /\
  queen_box_scores t' = queen_box_scores t /\ settings t' = settings t /\
  league_members t' = league_members t /\ leagues t' = leagues t.
Proof.
  intros t'. subst t'. split_and!; [| |done..].
  - rewrite saveRosterSelection_rosters, filter_app, filter_not_filter.
    apply filter_selected_all.
  - rewrite saveRosterSelection_rosters, filter_app, filter_idemp, filter_selected_none.
    apply app_nil_r.
Qed.

(** X10. Of two submissions for the same user, league and episode the last
    one wins: saving a second list of selections over a first leaves the
    tables as saving the second alone does.  In particular saving the same
    list twice is saving it once. *)
Theorem saveRosterSelection_last_wins (u : string) (l e : Z)
    (first second : list Roster1.selection) (t : tables) :
  Roster1.saveRosterSelection u l e second (Roster1.saveRosterSelection u l e first t)
  = Roster1.saveRosterSelection u l e second t.
Proof.
  unfold Roster1.saveRosterSelection at 1 3. cbn [set_rosters].
  rewrite !foldl_snoc_fmap, saveRosterSelection_rosters.
  rewrite filter_app, filter_idemp, filter_selected_none, app_nil_r.
  done.
Qed.

(** ** The team page *)

#[global] Instance rank_le_total : Total Roster1.rank_le.
Proof. intros a b. unfold Roster1.rank_le. lia. Qed.

Lemma bind_singletons {A B : Type} (g : A -> list B) (f : A -> B) (l : list A) :
  (forall x, x ∈ l -> g x = [f x]) -> l ≫= g = f <$> l.
Proof.
  induction l as [|x l IH]; [done|]. intros Hg.
  rewrite bind_cons, fmap_cons, (Hg x) by left.
  cbn. f_equal. apply IH. intros y Hy. apply Hg. by right.
Qed.

Lemma written_app_NoDup `{Countable K} {V : Type} (k : K) (v : V) (o : option V)
    (l1 l2 : list (K * V)) :
  NoDup l2.*1 -> (k, v) ∈ l2 -> written k o (l1 ++ l2) = Some v.
Proof.
  intros Hnd Hin. unfold written. rewrite foldl_app. by apply written_NoDup.
Qed.

Lemma NoDup_fmap_inj_on {A B : Type} (f : A -> B) (l : list A) (x y : A) :
  NoDup (f <$> l) -> x ∈ l -> y ∈ l -> f x = f y -> x = y.
Proof.
  induction l as [|z l IH]; [by intros _ ?%elem_of_nil|].
  rewrite fmap_cons.
  intros [Hz Hnd]%NoDup_cons [->|Hx]%elem_of_cons [->|Hy]%elem_of_cons Heq.
  - done.
  - destruct Hz. rewrite Heq. by apply list_elem_of_fmap_2.
  - destruct Hz. rewrite <- Heq. by apply list_elem_of_fmap_2.
  - by apply IH.
Qed.

Lemma V1_allRosters_after_save (u : string) (l e : Z)
    (selections : list Roster1.selection) (t : tables) :
  V1.allRosters (Roster1.saveRosterSelection u l e selections t) e
  = filter (fun r => roster_episode_number r = e)
           (filter (fun r => ~ Roster1.same_roster u l e r) (rosters t))
    ++ (selected u l e <$> selections).
Proof.
  unfold V1.allRosters. rewrite saveRosterSelection_rosters, filter_app. f_equal.
  induction selections as [|x xs IH]; [done|].
  rewrite fmap_cons, filter_cons_True by done. by rewrite IH.
Qed.

(** The score row of a selection after the roster was saved and the episode
    recalculated, when no contestant is selected twice. *)
Lemma V1_score_of_selection (s : V1.db) (u : string) (l e : Z)
    (selections : list Roster1.selection) (sel : Roster1.selection) :
  NoDup (Roster1.sel_queen_name <$> selections) ->
  sel ∈ selections ->
  let s' := V1.recalculateScores e
              (Roster1.with_base (Roster1.saveRosterSelection u l e selections) s) in
  V1.user_queen_scores s' !! (u, l, Roster1.sel_queen_name sel, e)
  = Some (nmul (V1.rawPoints (V1.base s) e (Roster1.sel_queen_name sel))
               (V1.multiplier (V1.base s) (Roster1.sel_rank sel)),
          Roster1.sel_rank sel).
Proof.
  intros Hnd Hsel s'. subst s'. rewrite V1_recalculateScores_eq.
  cbn [V1.user_queen_scores V1.base Roster1.with_base].
  rewrite lookup_upsert_all. unfold V1_entries.
  rewrite V1_allRosters_after_save, fmap_app.
  apply written_app_NoDup.
  - rewrite <- !list_fmap_compose.
    apply (NoDup_fmap_2_strong _ selections); [|by apply (NoDup_fmap_1 Roster1.sel_queen_name)].
    intros x y Hx Hy [= Hq].
    by apply (NoDup_fmap_inj_on Roster1.sel_queen_name selections).
  - apply list_elem_of_fmap. exists (selected u l e sel). split; [done|].
    by apply list_elem_of_fmap_2.
Qed.

Lemma getUserTeam_roster_filter (u : string) (e l : Z) (rows : list roster) :
  filter (fun r => roster_user_id r = u /\ roster_episode_number r = e
                   /\ roster_league_id r = l) rows
  = filter (Roster1.same_roster u l e) rows.
Proof. apply list_filter_iff. intros r. unfold Roster1.same_roster. tauto. Qed.

(** X11. From a roster submission to the team page.  After
    [saveRosterSelection] with selections that name no contestant twice and a
    recalculation of the episode, [getUserTeam] shows one row for every
    selection, with the contestant, the rank and the raw points of the
    contestant times the multiplier of the rank, and the rows are ordered by
    rank. *)
Theorem team_page_after_save_and_recalculation (s : V1.db) (u : string) (l e : Z)
    (selections : list Roster1.selection)
    (Hdistinct : NoDup (Roster1.sel_queen_name <$> selections)) :
  let s' := V1.recalculateScores e
              (Roster1.with_base (Roster1.saveRosterSelection u l e selections) s) in
  Roster1.getUserTeam u e l s' ≡ₚ
    (fun sel => Roster1.TeamRow (Roster1.sel_queen_name sel) (Roster1.sel_rank sel)
                  (nmul (V1.rawPoints (V1.base s) e (Roster1.sel_queen_name sel))
                        (V1.multiplier (V1.base s) (Roster1.sel_rank sel))))
      <$> selections /\
  Sorted Roster1.rank_le (Roster1.getUserTeam u e l s').
Proof.
  intros s'. unfold Roster1.getUserTeam. split; [|apply Sorted_merge_sort, _].
  etrans; [apply merge_sort_Permutation|].
  assert (Hbase : V1.base s' = Roster1.saveRosterSelection u l e selections (V1.base s))
    by (subst s'; by rewrite V1_recalculateScores_eq).
  rewrite Hbase, getUserTeam_roster_filter, saveRosterSelection_rosters.
  rewrite filter_app, filter_not_filter, filter_selected_all, app_nil_l, list_fmap_bind.
  rewrite (bind_singletons _
    (fun sel => Roster1.TeamRow (Roster1.sel_queen_name sel) (Roster1.sel_rank sel)
                  (nmul (V1.rawPoints (V1.base s) e (Roster1.sel_queen_name sel))
                        (V1.multiplier (V1.base s) (Roster1.sel_rank sel))))); [done|].
  intros sel Hsel. unfold compose, selected.
  cbn [roster_user_id roster_league_id roster_queen_name roster_episode_number roster_rank].
  subst s'. by rewrite (V1_score_of_selection s u l e selections sel Hdistinct Hsel).
Qed.

(** X12. [getUserTeam] shows one row per roster entry of the user for the
    episode and the league, ordered by rank; while [user_queen_scores] holds
    no row of that user, league and episode, as before the first
    recalculation of the episode, every row shows 0 points. *)
Theorem team_page_before_recalculation (s : V1.db) (u : string) (e l : Z) :
  length (Roster1.getUserTeam u e l s)
  = length (filter (Roster1.same_roster u l e) (rosters (V1.base s))) /\
  Sorted Roster1.rank_le (Roster1.getUserTeam u e l s) /\
  ((forall q, V1.user_queen_scores s !! (u, l, q, e) = None) ->
   Roster1.getUserTeam u e l s ≡ₚ
     (fun r => Roster1.TeamRow (roster_queen_name r) (roster_rank r) (Fin 0))
       <$> filter (Roster1.same_roster u l e) (rosters (V1.base s))).
Proof.
  unfold Roster1.getUserTeam. rewrite getUserTeam_roster_filter.
  split_and!; [|apply Sorted_merge_sort, _|].
  - rewrite merge_sort_Permutation.
    induction (filter (Roster1.same_roster u l e) (rosters (V1.base s))) as [|r rows IH];
      [done|].
    rewrite bind_cons, length_app, IH. cbn [length].
    by destruct (V1.user_queen_scores s !! _) as [[pt rk]|].
  - intros Hnone. etrans; [apply merge_sort_Permutation|].
    rewrite (bind_singletons _
      (fun r => Roster1.TeamRow (roster_queen_name r) (roster_rank r) (Fin 0))); [done|].
    intros r Hr. apply list_elem_of_filter in Hr as [(Hu & Hl & He) _].
    by rewrite Hu, Hl, He, Hnone.
Qed.

(** ** Leagues *)

Lemma filter_none {A : Type} (P : A -> Prop) `{forall x, Decision (P x)} (l : list A) :
  (forall x, x ∈ l -> ~ P x) -> filter P l = [].
Proof.
  intros Hno. induction l as [|x l IH]; [done|].
  rewrite filter_cons_False by (apply Hno; left).
  apply IH. intros y Hy. apply Hno. by right.
Qed.

(** X13. [updateLeagueName] renames the leagues with the given id that the
    given user created, and returns the id once for each of them.  When
    there is none it returns no id and leaves the tables as they are; in
    every case the ids, the invite codes and the creators of the leagues,
    the other leagues and all the other tables stay as they were, and
    afterwards every league with that id created by that user bears the new
    name. *)
Theorem updateLeagueName_only_by_creator (leagueId : Z) (userId newName : string)
    (t : tables) :
  let t' := (updateLeagueName leagueId userId newName t).1 in
  let ids := (updateLeagueName leagueId userId newName t).2 in
  let own (lg : league) := league_id lg = leagueId /\ league_created_by lg = userId in
  ((forall lg, lg ∈ leagues t -> ~ own lg) -> ids = [] /\ t' = t) /\
  (forall i lg, leagues t !! i = Some lg -> ~ own lg -> leagues t' !! i = Some lg) /\
  (forall i lg, leagues t !! i = Some lg -> own lg ->
     leagues t' !! i = Some (League leagueId (league_invite_code lg) newName userId)) /\
  league_id <$> leagues t' = league_id <$> leagues t /\
  league_invite_code <$> leagues t' = league_invite_code <$> leagues t /\
  league_created_by <$> leagues t' = league_created_by <$> leagues t /\
  league_members t' = league_members t /\ rosters t' = rosters t /\
  settings t' = settings t /\ queen_box_scores t' = queen_box_scores t /\
  ids = replicate (length (filter own (leagues t))) leagueId /\
  (forall lg, lg ∈ leagues t -> own lg -> leagueId ∈ ids).
Proof.
  intros t' ids own.
  assert (Hids : ids = replicate (length (filter own (leagues t))) leagueId).
  { subst ids. unfold updateLeagueName. cbn [snd]. fold own.
    induction (leagues t) as [|lg lgs IH]; [done|].
    rewrite filter_cons. destruct (decide (own lg)) as [[Hid _]|_]; [|done].
    rewrite fmap_cons. cbn [length replicate]. by rewrite IH, Hid. }
  split_and!; [| | | | | |done..|exact Hids|].
  - intros Hnone. split.
    + rewrite Hids, (filter_none own) by done. done.
    + clear Hids. subst t' ids. unfold updateLeagueName. cbn [fst].
      destruct t as [ro bs se lm lgs]. unfold set_leagues. cbn in *. f_equal.
      induction lgs as [|lg lgs IH]; [done|].
      rewrite fmap_cons, decide_False by (apply Hnone; left).
      f_equal. apply IH. intros lg' Hlg'. apply Hnone. by right.
  - intros i lg Hi Hnot. subst t'. cbn. rewrite list_lookup_fmap, Hi. cbn.
    by rewrite decide_False.
  - intros i lg Hi [Hid Hby]. subst t'. cbn. rewrite list_lookup_fmap, Hi. cbn.
    rewrite decide_True by done. by rewrite Hid, Hby.
  - subst t'. cbn. rewrite <- list_fmap_compose. apply list_fmap_ext. intros i lg _. cbn.
    by destruct (decide _).
  - subst t'. cbn. rewrite <- list_fmap_compose. apply list_fmap_ext. intros i lg _. cbn.
    by destruct (decide _).
  - subst t'. cbn. rewrite <- list_fmap_compose. apply list_fmap_ext. intros i lg _. cbn.
    by destruct (decide _).
  - intros lg Hlg Hown. rewrite Hids.
    assert (Hf : lg ∈ filter own (leagues t)) by (by apply list_elem_of_filter).
    destruct (filter own (leagues t)); [by apply elem_of_nil in Hf|]. cbn. left.
Qed.

Lemma member_eta (lm : member) (id : Z) (u : string) :
  member_league_id lm = id /\ member_user_id lm = u <-> lm = Member id u.
Proof. destruct lm as [i v]. cbn. split; [by intros [-> ->]|by intros [= -> ->]]. Qed.

Lemma count_members_pos (id : Z) (u : string) (t : tables) :
  Member id u ∈ league_members t -> 1 <= count_members id t.
Proof.
  intros Hin. unfold count_members.
  assert (Hf : Member id u ∈ filter (fun lm => member_league_id lm = id) (league_members t))
    by (by apply list_elem_of_filter).
  destruct (filter _ (league_members t)); [by apply elem_of_nil in Hf|]. cbn. lia.
Qed.

Lemma getLeagueDetails_Some (leagueId : Z) (userId : string) (t : tables) (d : league_details) :
  getLeagueDetails leagueId userId t = Some d ->
  details_league d ∈ leagues t /\ league_id (details_league d) = leagueId /\
  Member leagueId userId ∈ league_members t /\
  details_member_count d = count_members leagueId t.
Proof.
  unfold getLeagueDetails. intros Hd. apply head_Some_elem_of in Hd.
  apply list_elem_of_bind in Hd as (lg & Hd & Hlg).
  apply list_elem_of_filter in Hlg as [Hid Hlg].
  apply list_elem_of_bind in Hd as (lm & Hd & Hlm).
  apply list_elem_of_filter in Hlm as [[Hl Hu] Hlm].
  apply list_elem_of_singleton in Hd as ->. cbn.
  assert (lm = Member leagueId userId) as -> by (apply member_eta; split; congruence).
  rewrite Hid. done.
Qed.

Lemma getLeagueDetails_is_Some (leagueId : Z) (userId : string) (t : tables) (lg : league) :
  lg ∈ leagues t -> league_id lg = leagueId -> Member leagueId userId ∈ league_members t ->
  is_Some (getLeagueDetails leagueId userId t).
Proof.
  intros Hlg Hid Hin. unfold getLeagueDetails. apply head_is_Some. intros Hnil.
  assert (Hd : LeagueDetails lg (count_members (league_id lg) t) ∈ @nil league_details);
    [|by apply elem_of_nil in Hd].
  rewrite <- Hnil. apply list_elem_of_bind. exists lg. split.
  - apply list_elem_of_bind. exists (Member leagueId userId). split; [by left|].
    apply list_elem_of_filter. cbn. done.
  - by apply list_elem_of_filter.
Qed.

(** X14. [getLeagueDetails] answers only a member: it returns a row exactly
    when a league with the id exists and the user is a member of it, and the
    row is then a league of the table with that id, with the number of
    members of the league, which is at least 1. *)
Theorem getLeagueDetails_only_for_members (leagueId : Z) (userId : string) (t : tables) :
  (is_Some (getLeagueDetails leagueId userId t) <->
   (exists lg, lg ∈ leagues t /\ league_id lg = leagueId) /\
   Member leagueId userId ∈ league_members t) /\
  (forall d, getLeagueDetails leagueId userId t = Some d ->
     details_league d ∈ leagues t /\ league_id (details_league d) = leagueId /\
     details_member_count d = count_members leagueId t /\
     1 <= details_member_count d).
Proof.
  split.
  - split.
    + intros [d Hd]. apply getLeagueDetails_Some in Hd as (Hlg & Hid & Hin & _).
      split; [by exists (details_league d)|done].
    + intros [(lg & Hlg & Hid) Hin]. by apply (getLeagueDetails_is_Some _ _ _ lg).
  - intros d Hd. apply getLeagueDetails_Some in Hd as (Hlg & Hid & Hin & Hcount).
    split_and!; [done..|]. rewrite Hcount. by apply (count_members_pos _ userId).
Qed.

(** X15. [createLeague], when the id that the database hands out is that of
    no league of the table (the primary key) and every membership is that of
    a league of the table (the foreign key): both statements are accepted
    and the id is returned; the league is added after the others with the
    invite code, the name and the creator given; the creator becomes its
    only member, so that [getLeagueDetails] shows the league to the creator
    with a member count of 1 and to nobody else; the memberships that were
    there stay; and every membership is still that of a league of the
    table. *)
Theorem createLeague_creator_is_only_member (id : Z) (inviteCode userId leagueName : string)
    (t : tables)
    (Hfresh : forall lg, lg ∈ leagues t -> league_id lg <> id)
    (Hfk : members_reference_leagues t) :
  let created := League id inviteCode leagueName userId in
  let t' := (Membership.createLeague id inviteCode userId leagueName t).1 in
  (Membership.createLeague id inviteCode userId leagueName t).2 = Some id /\
  leagues t' = leagues t ++ [created] /\
  league_members t' = league_members t ++ [Member id userId] /\
  (forall u, Member id u ∈ league_members t' <-> u = userId) /\
  getLeagueDetails id userId t' = Some (LeagueDetails created 1) /\
  (forall u, u <> userId -> getLeagueDetails id u t' = None) /\
  members_reference_leagues t' /\
  rosters t' = rosters t /\ queen_box_scores t' = queen_box_scores t /\
  settings t' = settings t.
Proof.
  intros created t'.
  assert (Hold : forall lm, lm ∈ league_members t -> member_league_id lm <> id).
  { intros lm Hlm. destruct (Hfk lm Hlm) as (lg & Hlg & <-). by apply Hfresh. }
  assert (Hnew : Member id userId ∉ league_members t).
  { intros Hin. by apply (Hold _ Hin). }
  assert (Hrun : Membership.createLeague id inviteCode userId leagueName t
                 = (Tables (rosters t) (queen_box_scores t) (settings t)
                      (league_members t ++ [Member id userId]) (leagues t ++ [created]),
                    Some id)).
  { unfold Membership.createLeague, Membership.insert_plain.
    cbn [league_members]. by rewrite decide_False by done. }
  subst t'. rewrite Hrun. cbn [fst snd leagues league_members rosters queen_box_scores settings].
  assert (Honly : forall u, Member id u ∈ league_members t ++ [Member id userId]
                            <-> u = userId).
  { intros u. rewrite elem_of_app, list_elem_of_singleton. split.
    - intros [Hin|[= ->]]; [|done]. by destruct (Hold _ Hin).
    - intros ->. by right. }
  split_and!; try done.
  - unfold getLeagueDetails, count_members. cbn [leagues league_members].
    rewrite filter_app, (filter_none _ (leagues t)) by done.
    rewrite filter_cons_True, filter_nil by done. cbn [app].
    rewrite bind_singleton. cbn [league_id created].
    rewrite !filter_app, !(filter_none _ (league_members t)).
    + rewrite !filter_cons_True by done. done.
    + intros lm Hlm [Heq _]. by apply (Hold lm Hlm).
    + intros lm Hlm. by apply Hold.
  - intros u Hu.
    destruct (getLeagueDetails id u _) as [d|] eqn:Hd; [|done].
    apply getLeagueDetails_Some in Hd as (_ & _ & Hin & _).
    cbn [league_members] in Hin. by apply Honly in Hin.
  - intros lm Hlm. cbn in Hlm |- *. apply elem_of_app in Hlm as [Hlm|Hlm].
    + destruct (Hfk lm Hlm) as (lg & Hlg & Heq). exists lg. split; [|done].
      apply elem_of_app. by left.
    + apply list_elem_of_singleton in Hlm as ->. exists created. split; [|done].
      apply elem_of_app. right. left.
Qed.

(** ** Joining *)

Lemma insert_do_nothing_spec (row : member) (lm : list member) :
  row ∈ Membership.insert_do_nothing row lm /\
  lm `prefix_of` Membership.insert_do_nothing row lm /\
  (forall id,
     Z.of_nat (length (filter (fun x => member_league_id x = id)
                              (Membership.insert_do_nothing row lm)))
     = Z.of_nat (length (filter (fun x => member_league_id x = id) lm))
       + (if decide ((row ∉ lm) /\ member_league_id row = id) then 1 else 0)).
Proof.
  unfold Membership.insert_do_nothing. destruct (decide (row ∈ lm)) as [Hin|Hnot].
  - split_and!; [done|done|]. intros id. rewrite decide_False by tauto. lia.
  - split_and!.
    + apply elem_of_app. right. left.
    + by apply prefix_app_r.
    + intros id. rewrite filter_app, length_app, filter_cons.
      destruct (decide (member_league_id row = id)) as [Hid|Hid].
      * rewrite decide_True by done. cbn. lia.
      * rewrite decide_False by tauto. cbn. lia.
Qed.

Lemma select_league_elem (code : option string) (t : tables) (id : Z) :
  id ∈ Membership.select_league code t -> exists lg, lg ∈ leagues t /\ league_id lg = id.
Proof.
  unfold Membership.select_league. destruct code as [c|]; [|by intros ?%elem_of_nil].
  intros Hid. apply list_elem_of_fmap in Hid as (lg & -> & Hlg).
  apply list_elem_of_filter in Hlg as [_ Hlg]. by exists lg.
Qed.

(** X16. What a join changes, for an invite code of ASCII characters (in the
    second handler, a code that is so once trimmed).  When the user id is
    there (and, for the second handler, is not empty) and the code resolves
    to a league, the user is a member of that league afterwards,
    [getLeagueDetails] shows the league to the user, the memberships that
    were there are all kept in their order, the member count of the league
    grows by one for a new member and by nothing for a member, and no other
    table changes.  When the code resolves to no league, nothing changes at
    all. *)
Theorem join_league_adds_the_member (t : tables) (req : Membership.request)
    (u : string) (id : Z) :
  let codeA := Membership.toUpperCase <$> Membership.form_inviteCode req in
  let codeB := (fun c => Membership.toUpperCase (Membership.trim c))
                 <$> Membership.form_inviteCode req in
  let asciiA := forall c, Membership.form_inviteCode req = Some c -> ascii_text c in
  let asciiB := forall c, Membership.form_inviteCode req = Some c ->
                          ascii_text (Membership.trim c) in
  let joined (t' : tables) :=
    Member id u ∈ league_members t' /\
    is_Some (getLeagueDetails id u t') /\
    league_members t `prefix_of` league_members t' /\
    count_members id t'
    = count_members id t + (if decide (Member id u ∈ league_members t) then 0 else 1) /\
    leagues t' = leagues t /\ rosters t' = rosters t /\ settings t' = settings t /\
    queen_box_scores t' = queen_box_scores t in
  (asciiA -> Membership.cookie_userId req = Some u ->
   head (Membership.select_league codeA t) = Some id ->
   joined (Membership.JoinA.POST req t).1) /\
  (asciiB -> Membership.cookie_userId req = Some u -> u <> "" ->
   head (Membership.select_league codeB t) = Some id ->
   joined (Membership.JoinB.POST req t).1) /\
  (asciiA -> Membership.select_league codeA t = [] -> (Membership.JoinA.POST req t).1 = t) /\
  (asciiB -> Membership.select_league codeB t = [] -> (Membership.JoinB.POST req t).1 = t).
Proof.
  intros codeA codeB asciiA asciiB joined.
  assert (Hjoined : forall code, head (Membership.select_league code t) = Some id ->
    joined (Membership.set_members
              (Membership.insert_do_nothing (Member id u) (league_members t)) t)).
  { intros code Hid.
    destruct (select_league_elem code t id) as (lg & Hlg & Hlid);
      [by apply head_Some_elem_of|].
    destruct (insert_do_nothing_spec (Member id u) (league_members t))
      as (Hin & Hpre & Hcount).
    subst joined. cbn beta. unfold Membership.set_members. cbn [league_members leagues].
    split_and!; try done.
    - by apply (getLeagueDetails_is_Some _ _ _ lg).
    - unfold count_members. cbn [league_members]. rewrite (Hcount id). cbn.
      destruct (decide (Member id u ∈ league_members t)) as [Hm|Hm].
      + rewrite decide_False by tauto. done.
      + rewrite decide_True by tauto. done. }
  split_and!.
  - intros _ Hu Hid. unfold Membership.JoinA.POST. fold codeA. rewrite Hu.
    pose proof (Hjoined codeA Hid) as Hj.
    destruct (Membership.select_league codeA t) as [|id' ids]; [done|].
    injection Hid as ->. exact Hj.
  - intros _ Hu Hne Hid. unfold Membership.JoinB.POST. fold codeB. rewrite Hu.
    rewrite decide_False by done.
    pose proof (Hjoined codeB Hid) as Hj.
    destruct (Membership.select_league codeB t) as [|id' ids]; [done|].
    injection Hid as ->. exact Hj.
  - intros _ Hnone. unfold Membership.JoinA.POST. fold codeA. by rewrite Hnone.
  - intros _ Hnone. unfold Membership.JoinB.POST. fold codeB.
    destruct (Membership.cookie_userId req) as [v|]; [|done].
    destruct (decide (v = "")); [done|]. by rewrite Hnone.
Qed.

Lemma upper_idemp (c : ascii) : Membership.upper (Membership.upper c) = Membership.upper c.
Proof. destruct c as [[] [] [] [] [] [] [] []]; reflexivity. Qed.

Lemma toUpperCase_idemp (s : string) :
  Membership.toUpperCase (Membership.toUpperCase s) = Membership.toUpperCase s.
Proof. induction s as [|c s IH]; [done|]. cbn. by rewrite upper_idemp, IH. Qed.

(** White space and the reversal of a text. *)

Lemma string_app_cons (c : ascii) (a b : string) :
  String.app (String c a) b = String c (String.app a b).
Proof. reflexivity. Qed.

Lemma string_app_nil_r (s : string) : String.app s "" = s.
Proof. induction s as [|c s IH]; [done|]. by rewrite string_app_cons, IH. Qed.

Lemma string_app_assoc (a b c : string) :
  String.app (String.app a b) c = String.app a (String.app b c).
Proof. induction a as [|x a IH]; [done|]. by rewrite !string_app_cons, IH. Qed.

Lemma rev_app_append (s a : string) :
  String.rev_app s a = String.app (String.rev s) a.
Proof.
  unfold String.rev. revert a. induction s as [|c s IH]; intros a; [done|].
  cbn [String.rev_app]. rewrite (IH (String c a)), (IH (String c "")).
  by rewrite string_app_assoc.
Qed.

Lemma rev_cons (c : ascii) (s : string) :
  String.rev (String c s) = String.app (String.rev s) (String c "").
Proof. unfold String.rev at 1. cbn [String.rev_app]. apply rev_app_append. Qed.

Lemma rev_append (a b : string) :
  String.rev (String.app a b) = String.app (String.rev b) (String.rev a).
Proof.
  induction a as [|c a IH].
  - change (String.app "" b) with b. change (String.rev "") with "".
    by rewrite string_app_nil_r.
  - by rewrite string_app_cons, !rev_cons, IH, string_app_assoc.
Qed.

Lemma rev_rev (s : string) : String.rev (String.rev s) = s.
Proof.
  induction s as [|c s IH]; [done|].
  rewrite rev_cons, rev_append, IH. done.
Qed.

Lemma skip_ws_unfold (bw : bool) (s : string) :
  Parse.skip_ws bw s
  = match Parse.ws_head bw s with Some r => Parse.skip_ws bw r | None => s end.
Proof.
  destruct s as [|a [|b [|c s3]]]; cbn; [done|by destruct (Parse.is_ws a)| |].
  - destruct (Parse.is_ws a); [done|]. by destruct (Parse.ws2 bw a b).
  - destruct (Parse.is_ws a); [done|]. destruct (Parse.ws2 bw a b); [done|].
    by destruct (Parse.ws3 bw a b c).
Qed.

(** The white-space character at the head of a text is a prefix of one to
    three bytes. *)
Lemma ws_head_split (bw : bool) (s r : string) :
  Parse.ws_head bw s = Some r ->
  exists w, s = String.app w r /\ (String.length r < String.length s)%nat.
Proof.
  destruct s as [|a [|b [|c s3]]]; cbn; [done| | |].
  - destruct (Parse.is_ws a); [|done]. intros [= <-]. exists (String a ""). split; [reflexivity|cbn; lia].
  - destruct (Parse.is_ws a).
    { intros [= <-]. exists (String a ""). split; [reflexivity|cbn; lia]. }
    destruct (Parse.ws2 bw a b); [|done].
    intros [= <-]. exists (String a (String b "")). split; [reflexivity|cbn; lia].
  - destruct (Parse.is_ws a).
    { intros [= <-]. exists (String a ""). split; [reflexivity|cbn; lia]. }
    destruct (Parse.ws2 bw a b).
    { intros [= <-]. exists (String a (String b "")). split; [reflexivity|cbn; lia]. }
    destruct (Parse.ws3 bw a b c); [|done].
    intros [= <-]. exists (String a (String b (String c ""))). split; [reflexivity|cbn; lia].
Qed.

Lemma ws_head_app (bw : bool) (a x r : string) :
  Parse.ws_head bw a = Some r -> Parse.ws_head bw (String.app a x) = Some (String.app r x).
Proof.
  destruct a as [|c1 [|c2 [|c3 a3]]]; [done|..];
    rewrite ?string_app_cons; cbn [Parse.ws_head];
    destruct (Parse.is_ws c1); try (by intros [= <-]).
  - destruct (Parse.ws2 bw c1 c2); [|done]. by intros [= <-].
  - destruct (Parse.ws2 bw c1 c2); [by intros [= <-]|].
    destruct (Parse.ws3 bw c1 c2 c3); [|done]. by intros [= <-].
Qed.

Lemma skip_ws_no_leading_ws (bw : bool) (s : string) : no_leading_ws bw (Parse.skip_ws bw s).
Proof.
  remember (String.length s) as n eqn:Hn. revert s Hn.
  induction n as [n IH] using lt_wf_ind. intros s ->.
  rewrite skip_ws_unfold. destruct (Parse.ws_head bw s) as [r|] eqn:Hr; [|done].
  destruct (ws_head_split bw s r Hr) as (w & _ & Hlen). by apply (IH _ Hlen).
Qed.

Lemma skip_ws_id (bw : bool) (s : string) : no_leading_ws bw s -> Parse.skip_ws bw s = s.
Proof. intros Hs. rewrite skip_ws_unfold. unfold no_leading_ws in Hs. by rewrite Hs. Qed.

Lemma skip_ws_suffix (bw : bool) (s : string) :
  exists w, s = String.app w (Parse.skip_ws bw s).
Proof.
  remember (String.length s) as n eqn:Hn. revert s Hn.
  induction n as [n IH] using lt_wf_ind. intros s ->.
  rewrite skip_ws_unfold. destruct (Parse.ws_head bw s) as [r|] eqn:Hr; [|by exists ""].
  destruct (ws_head_split bw s r Hr) as (w & -> & Hlen).
  destruct (IH _ Hlen r eq_refl) as [w' Hw'].
  exists (String.app w w'). by rewrite string_app_assoc, <- Hw'.
Qed.

Lemma no_leading_ws_prefix (bw : bool) (a b : string) :
  no_leading_ws bw (String.app a b) -> no_leading_ws bw a.
Proof.
  unfold no_leading_ws. intros Hab.
  destruct (Parse.ws_head bw a) as [r|] eqn:Hr; [|done].
  by rewrite (ws_head_app bw a b r Hr) in Hab.
Qed.

Lemma trim_no_leading_ws (s : string) : no_leading_ws false (Membership.trim s).
Proof.
  unfold Membership.trim, Parse.trim_right, Parse.trim_left.
  set (y := Parse.skip_ws false s). set (z := Parse.skip_ws true (String.rev y)).
  destruct (skip_ws_suffix true (String.rev y)) as [w Hw]. fold z in Hw.
  apply (f_equal String.rev) in Hw. rewrite rev_rev, rev_append in Hw.
  apply (no_leading_ws_prefix false _ (String.rev w)).
  rewrite <- Hw. apply skip_ws_no_leading_ws.
Qed.

Lemma trim_idemp (s : string) : Membership.trim (Membership.trim s) = Membership.trim s.
Proof.
  unfold Membership.trim at 1. unfold Parse.trim_left.
  rewrite (skip_ws_id false (Membership.trim s)) by apply trim_no_leading_ws.
  unfold Membership.trim, Parse.trim_right. rewrite rev_rev.
  by rewrite (skip_ws_id true (Parse.skip_ws true _)) by apply skip_ws_no_leading_ws.
Qed.

(** [toUpperCase] changes no byte of a white-space character and makes
    none. *)
Lemma upper_cases (c : ascii) :
  Membership.upper c = c \/
  (nat_of_ascii c < 128 /\ nat_of_ascii (Membership.upper c) < 128)%nat.
Proof.
  destruct c as [[] [] [] [] [] [] [] []];
    first [left; reflexivity|right; vm_compute; split; lia].
Qed.

Lemma is_ws_upper (c : ascii) : Parse.is_ws (Membership.upper c) = Parse.is_ws c.
Proof. destruct c as [[] [] [] [] [] [] [] []]; reflexivity. Qed.

Lemma is_ws2_high (a b : ascii) :
  Parse.is_ws2 a b = true -> (128 <= nat_of_ascii a /\ 128 <= nat_of_ascii b)%nat.
Proof.
  unfold Parse.is_ws2. rewrite andb_true_iff, !Nat.eqb_eq. lia.
Qed.

Lemma is_ws3_high (a b c : ascii) :
  Parse.is_ws3 a b c = true ->
  (128 <= nat_of_ascii a /\ 128 <= nat_of_ascii b /\ 128 <= nat_of_ascii c)%nat.
Proof.
  unfold Parse.is_ws3. cbv zeta.
  rewrite !orb_true_iff, !andb_true_iff, !orb_true_iff, !andb_true_iff,
    !Nat.eqb_eq, !Nat.leb_le. lia.
Qed.

Lemma is_ws2_upper (a b : ascii) :
  Parse.is_ws2 (Membership.upper a) (Membership.upper b) = Parse.is_ws2 a b.
Proof.
  destruct (upper_cases a) as [->|[Ha Ha']], (upper_cases b) as [->|[Hb Hb']]; [done|..];
    destruct (Parse.is_ws2 _ _) eqn:H1; destruct (Parse.is_ws2 a b) eqn:H2; try done;
    try apply is_ws2_high in H1; try apply is_ws2_high in H2; lia.
Qed.

Lemma is_ws3_upper (a b c : ascii) :
  Parse.is_ws3 (Membership.upper a) (Membership.upper b) (Membership.upper c)
  = Parse.is_ws3 a b c.
Proof.
  destruct (upper_cases a) as [->|[Ha Ha']], (upper_cases b) as [->|[Hb Hb']],
    (upper_cases c) as [->|[Hc Hc']]; [done|..];
    destruct (Parse.is_ws3 _ _ _) eqn:H1; destruct (Parse.is_ws3 a b c) eqn:H2; try done;
    try apply is_ws3_high in H1; try apply is_ws3_high in H2; lia.
Qed.

Lemma ws_head_toUpperCase (bw : bool) (s : string) :
  Parse.ws_head bw (Membership.toUpperCase s) = Membership.toUpperCase <$> Parse.ws_head bw s.
Proof.
  assert (H2 : forall a b, Parse.ws2 bw (Membership.upper a) (Membership.upper b)
                           = Parse.ws2 bw a b)
    by (intros a b; destruct bw; apply is_ws2_upper).
  assert (H3 : forall a b c,
            Parse.ws3 bw (Membership.upper a) (Membership.upper b) (Membership.upper c)
            = Parse.ws3 bw a b c)
    by (intros a b c; destruct bw; apply is_ws3_upper).
  destruct s as [|a [|b [|c s3]]]; cbn; [done|..]; rewrite is_ws_upper.
  - by destruct (Parse.is_ws a).
  - rewrite H2. destruct (Parse.is_ws a); [done|]. by destruct (Parse.ws2 bw a b).
  - rewrite H2, H3. destruct (Parse.is_ws a); [done|].
    destruct (Parse.ws2 bw a b); [done|]. by destruct (Parse.ws3 bw a b c).
Qed.

Lemma toUpperCase_length (s : string) :
  String.length (Membership.toUpperCase s) = String.length s.
Proof. induction s as [|c s IH]; [done|]. cbn. by rewrite IH. Qed.

Lemma skip_ws_toUpperCase (bw : bool) (s : string) :
  Parse.skip_ws bw (Membership.toUpperCase s) = Membership.toUpperCase (Parse.skip_ws bw s).
Proof.
  remember (String.length s) as n eqn:Hn. revert s Hn.
  induction n as [n IH] using lt_wf_ind. intros s ->.
  rewrite (skip_ws_unfold bw s), skip_ws_unfold, ws_head_toUpperCase.
  destruct (Parse.ws_head bw s) as [r|] eqn:Hr; [|done]. cbn.
  destruct (ws_head_split bw s r Hr) as (w & _ & Hlen). by apply (IH _ Hlen).
Qed.

Lemma rev_app_toUpperCase (s a : string) :
  String.rev_app (Membership.toUpperCase s) (Membership.toUpperCase a)
  = Membership.toUpperCase (String.rev_app s a).
Proof.
  revert a. induction s as [|c s IH]; intros a; [done|].
  cbn. by rewrite <- IH.
Qed.

Lemma trim_toUpperCase (s : string) :
  Membership.trim (Membership.toUpperCase s) = Membership.toUpperCase (Membership.trim s).
Proof.
  unfold Membership.trim, Parse.trim_right, Parse.trim_left, String.rev.
  rewrite skip_ws_toUpperCase.
  rewrite (rev_app_toUpperCase _ ""), skip_ws_toUpperCase.
  by rewrite (rev_app_toUpperCase _ "").
Qed.

(** X17. The join handlers read the invite code without regard to the case
    of its letters a-z, and the second one without regard to the white space
    around it either: a request answers and changes the tables as the same
    request with the code in upper case (and trimmed) does.  A league is found
    only under a stored code that is its own upper case. *)
Theorem join_ignores_case_of_code (t : tables) (userId : option string) (code : string) :
  Membership.JoinA.POST (Membership.Request userId (Some code)) t
  = Membership.JoinA.POST
      (Membership.Request userId (Some (Membership.toUpperCase code))) t /\
  Membership.JoinB.POST (Membership.Request userId (Some code)) t
  = Membership.JoinB.POST
      (Membership.Request userId
         (Some (Membership.toUpperCase (Membership.trim code)))) t /\
  (forall id, id ∈ Membership.select_league (Some (Membership.toUpperCase code)) t ->
     exists lg, lg ∈ leagues t /\ league_id lg = id /\
       Membership.toUpperCase (league_invite_code lg) = league_invite_code lg).
Proof.
  split_and!.
  - unfold Membership.JoinA.POST. cbn. by rewrite toUpperCase_idemp.
  - unfold Membership.JoinB.POST. cbn.
    by rewrite trim_toUpperCase, trim_idemp, toUpperCase_idemp.
  - intros id Hid. cbn in Hid. apply list_elem_of_fmap in Hid as (lg & -> & Hlg).
    apply list_elem_of_filter in Hlg as [Hcode Hlg]. exists lg.
    split_and!; [done..|]. rewrite Hcode. apply toUpperCase_idemp.
Qed.

(** ** The dashboard *)

Lemma pair_scores_nil (rows : list score) (p : string * Z) :
  (forall r, r ∈ rows -> score_pair r <> p) -> pair_scores rows p = [].
Proof. intros Hno. unfold pair_scores. by rewrite filter_none. Qed.

(** The cached total of a pair after a recalculation of the second version,
    0 standing for a missing row, is the sum of the scores of the pair. *)
Lemma V2_season_total (ep : Z) (m : gmap Z number) (s : V2.db) (p : string * Z) :
  let f := V2.recalculateScores ep m s in
  default (Fin 0) (V2.league_standings f !! p)
  = sum_numbers (pair_scores (V2.score_rows f) p).
Proof.
  intros f. destruct (V2.league_standings f !! p) as [total|] eqn:Hp.
  - by apply V2_standings_rows in Hp as [_ ->].
  - cbn. rewrite pair_scores_nil; [done|].
    intros r Hr <-. subst f. revert Hr Hp. rewrite V2_recalculateScores_eq. cbn.
    unfold V2.score_rows; cbn. intros Hr.
    by rewrite lookup_rebuilt_standings.
Qed.

(** X18. The dashboard after a recalculation of the second version:
    [getUserLeagues] has a row for every league of which the user is a
    member; each row is that of a league of the table of which the user is a
    member, with a member count of at least 1; and the season total of each
    row is the sum of the calculated points of all the score rows of the user
    in that league, 0 when there are none. *)
Theorem dashboard_shows_season_totals (ep currentEp : Z) (m : gmap Z number) (s : V2.db)
    (u : string) :
  let f := V2.recalculateScores ep m s in
  (forall row, row ∈ Dashboard2.getUserLeagues u currentEp f ->
     Dashboard2.summary_season_total row
     = sum_numbers (pair_scores (V2.score_rows f) (u, Dashboard2.summary_id row)) /\
     Member (Dashboard2.summary_id row) u ∈ league_members (V2.base s) /\
     (exists lg, lg ∈ leagues (V2.base s) /\ league_id lg = Dashboard2.summary_id row /\
        league_name lg = Dashboard2.summary_league_name row /\
        league_invite_code lg = Dashboard2.summary_invite_code row) /\
     Dashboard2.summary_member_count row
     = count_members (Dashboard2.summary_id row) (V2.base s) /\
     1 <= Dashboard2.summary_member_count row) /\
  (forall lg, lg ∈ leagues (V2.base s) ->
     Member (league_id lg) u ∈ league_members (V2.base s) ->
     exists row, row ∈ Dashboard2.getUserLeagues u currentEp f /\
       Dashboard2.summary_id row = league_id lg).
Proof.
  intros f.
  assert (Hbase : V2.base f = V2.base s) by (subst f; by rewrite V2_recalculateScores_eq).
  split.
  - intros row Hrow. unfold Dashboard2.getUserLeagues in Hrow. rewrite Hbase in Hrow.
    apply list_elem_of_bind in Hrow as (lg & Hrow & Hlg).
    apply list_elem_of_bind in Hrow as (lm & Hrow & Hlm).
    apply list_elem_of_filter in Hlm as [[Hid Hu] Hlm].
    apply list_elem_of_singleton in Hrow as ->. cbn.
    assert (lm = Member (league_id lg) u) as -> by (apply member_eta; split; congruence).
    split_and!; [|done| |done|].
    + apply V2_season_total.
    + by exists lg.
    + by apply (count_members_pos _ u).
  - intros lg Hlg Hin. rewrite <- Hbase in Hlg, Hin.
    exists (Dashboard2.LeagueSummary (league_id lg) (league_name lg) (league_invite_code lg)
              (default (Fin 0) (V2.league_standings f !! (u, league_id lg)))
              (Dashboard2.weekly_score u currentEp (league_id lg) f)
              (count_members (league_id lg) (V2.base f))).
    split; [|done]. unfold Dashboard2.getUserLeagues.
    apply list_elem_of_bind. exists lg. split; [|done].
    apply list_elem_of_bind. exists (Member (league_id lg) u). split; [left|].
    by apply list_elem_of_filter.
Qed.

(** ** Sequences of operations on a store of the first version *)

Lemma V1_backed_with_base (f : tables -> tables) (s : V1.db) :
  V1_backed s -> V1_backed (Roster1.with_base f s).
Proof. intros Hb p total Hp. exact (Hb p total Hp). Qed.

Lemma V1_backed_apply (s : V1.db) (o : Roster1.operation) :
  V1_backed s -> V1_backed (Roster1.apply s o).
Proof.
  intros Hb. destruct o as [ep|u l e selections|updates]; cbn.
  - by apply V1_backed_preserved.
  - by apply V1_backed_with_base.
  - by apply V1_backed_with_base.
Qed.

Lemma V1_backed_operations (ops : list Roster1.operation) (s : V1.db) :
  V1_backed s -> V1_backed (foldl Roster1.apply s ops).
Proof.
  revert s. induction ops as [|o ops IH]; intros s Hb; [done|].
  cbn. by apply IH, V1_backed_apply.
Qed.

(** X19. Whatever roster submissions, batches of settings and
    recalculations a store of the first version goes through, starting with
    empty [user_queen_scores] and [league_standings]: every row of the cache
    belongs to a (user, league) pair that has scores, and right after a
    recalculation the cache is exactly the season totals: every row of it
    is the sum of the calculated points of the score rows of that user and
    that league, of which there is at least one, and every score row has the
    row of its user and league in the cache. *)
Theorem standings_after_any_operations (t : tables) (ops : list Roster1.operation) (ep : Z) :
  let s := foldl Roster1.apply (V1.Db t ∅ ∅) ops in
  let f := foldl Roster1.apply (V1.Db t ∅ ∅) (ops ++ [Roster1.Recalculate ep]) in
  V1_backed s /\
  (forall u l total, V1.league_standings f !! (u, l) = Some total ->
     total = season_total (V1.score_rows f) u l /\
     exists r, r ∈ V1.score_rows f /\ score_user_id r = u /\ score_league_id r = l) /\
  (forall r, r ∈ V1.score_rows f ->
     V1.league_standings f !! (score_user_id r, score_league_id r)
     = Some (season_total (V1.score_rows f) (score_user_id r) (score_league_id r))).
Proof.
  intros s f.
  assert (Hb : V1_backed s) by apply V1_backed_operations, V1_backed_empty.
  assert (Hf : f = V1.recalculateScores ep s) by (subst f s; by rewrite foldl_app).
  split_and!; [done| |].
  - intros u l total Hp. rewrite Hf in Hp |- *.
    apply V1_standings_rows in Hp as [(r & Hr & Hpair) ->]; [|done].
    split; [apply season_total_pair_scores|].
    exists r. by injection Hpair as -> ->.
  - intros r Hr. rewrite Hf in Hr |- *. revert Hr.
    rewrite V1_recalculateScores_eq. cbn. unfold V1.score_rows; cbn. intros Hr.
    rewrite <- season_total_pair_scores. by apply lookup_rebuilt_standings.
Qed.

(** ** Picks that were replaced *)

(** X20. A pick that was dropped keeps its score.  When the user saves a
    roster without a contestant that has a score row for the episode and the
    episode is recalculated, the row is still there with its points, the
    season total of the user in the league is the sum over all the rows, that
    one included, and the team page has no row for the contestant. *)
Theorem dropped_pick_keeps_its_score (s : V1.db) (u : string) (l e : Z)
    (selections : list Roster1.selection) (q : string) (v : number * Z)
    (Hscore : V1.user_queen_scores s !! (u, l, q, e) = Some v)
    (Hdropped : q ∉ Roster1.sel_queen_name <$> selections) :
  let s' := V1.recalculateScores e
              (Roster1.with_base (Roster1.saveRosterSelection u l e selections) s) in
  V1.user_queen_scores s' !! (u, l, q, e) = Some v /\
  Score u l q e v.1 v.2 ∈ V1.score_rows s' /\
  V1.league_standings s' !! (u, l)
  = Some (sum_numbers (pair_scores (V1.score_rows s') (u, l))) /\
  (forall row, row ∈ Roster1.getUserTeam u e l s' -> Roster1.team_queen_name row <> q).
Proof.
  intros s'.
  assert (Hkept : V1.user_queen_scores s' !! (u, l, q, e) = Some v).
  { subst s'. rewrite V1_recalculateScores_eq.
    cbn [V1.user_queen_scores V1.base Roster1.with_base].
    rewrite lookup_upsert_all, Hscore. apply written_notin.
    rewrite V1_entries_keys. intros (r & Hr & Hk).
    rewrite V1_allRosters_after_save in Hr.
    apply elem_of_app in Hr as [Hr|Hr].
    - apply list_elem_of_filter in Hr as [He Hr].
      apply list_elem_of_filter in Hr as [Hnot _]. apply Hnot.
      unfold V1.score_key in Hk. injection Hk as Hu Hl Hq. by split.
    - apply list_elem_of_fmap in Hr as (sel & -> & Hsel).
      unfold V1.score_key, selected in Hk. cbn in Hk. injection Hk as Hq.
      apply Hdropped. rewrite <- Hq. by apply list_elem_of_fmap_2. }
  destruct v as [pt rk]. cbn [fst snd].
  assert (Hrow : Score u l q e pt rk ∈ V1.score_rows s').
  { unfold V1.score_rows.
    apply (list_elem_of_fmap_2
             (fun e => match e with ((u, l, q, ep), (p, rk)) => Score u l q ep p rk end)
             _ ((u, l, q, e), (pt, rk))).
    by apply elem_of_map_to_list. }
  split_and!; [done|done| |].
  - revert Hrow. subst s'. rewrite V1_recalculateScores_eq. cbn. unfold V1.score_rows; cbn.
    intros Hrow. by apply (lookup_rebuilt_standings _ (Score u l q e pt rk)).
  - intros row Hrow'. unfold Roster1.getUserTeam in Hrow'.
    rewrite merge_sort_Permutation in Hrow'.
    assert (Hbase : V1.base s' = Roster1.saveRosterSelection u l e selections (V1.base s))
      by (subst s'; by rewrite V1_recalculateScores_eq).
    rewrite Hbase, getUserTeam_roster_filter, saveRosterSelection_rosters in Hrow'.
    rewrite filter_app, filter_not_filter, filter_selected_all, app_nil_l in Hrow'.
    apply list_elem_of_bind in Hrow' as (r & Hrow' & Hr).
    apply list_elem_of_fmap in Hr as (sel & -> & Hsel).
    intros Hq. apply Hdropped.
    assert (Roster1.team_queen_name row = Roster1.sel_queen_name sel) as Hname.
    { revert Hrow'.
      destruct (V1.user_queen_scores s' !! (roster_user_id (selected u l e sel), _, _, _))
        as [[pt' rk']|]; by intros ->%list_elem_of_singleton. }
    rewrite <- Hq, Hname. by apply list_elem_of_fmap_2.
Qed.

(** ** The status of a user *)

(** X21. [toggleUserStatus] sets the status of the target to the opposite of
    the status that the caller passes, whatever the table holds, and leaves
    every other user as it is.  Called twice with the same arguments it
    changes nothing the second time; called with the status that the table
    holds for the target, and then again with the new status, it brings the
    table back. *)
Theorem toggleUserStatus_negates_the_argument (targetId : string) (currentStatus : bool)
    (users : list user) :
  (forall i x, users !! i = Some x -> user_id x <> targetId ->
     toggleUserStatus targetId currentStatus users !! i = Some x) /\
  (forall i x, users !! i = Some x -> user_id x = targetId ->
     toggleUserStatus targetId currentStatus users !! i
     = Some (User targetId (user_username x) (negb currentStatus))) /\
  toggleUserStatus targetId currentStatus (toggleUserStatus targetId currentStatus users)
  = toggleUserStatus targetId currentStatus users /\
  ((forall x, x ∈ users -> user_id x = targetId -> user_is_active x = currentStatus) ->
   toggleUserStatus targetId (negb currentStatus)
     (toggleUserStatus targetId currentStatus users) = users).
Proof.
  unfold toggleUserStatus. split_and!.
  - intros i x Hi Hx. rewrite list_lookup_fmap, Hi. cbn. by rewrite decide_False.
  - intros i x Hi Hx. rewrite list_lookup_fmap, Hi. cbn. rewrite decide_True by done.
    by rewrite Hx.
  - rewrite <- list_fmap_compose. apply list_fmap_ext. intros i x _. cbn.
    destruct (decide (user_id x = targetId)) as [Hx|Hx]; cbn.
    + by rewrite decide_True.
    + by rewrite decide_False.
  - intros Hcur. rewrite <- list_fmap_compose.
    rewrite <- (list_fmap_id users) at 2. apply list_fmap_ext. intros i x Hi. cbn.
    destruct (decide (user_id x = targetId)) as [Hx|Hx]; cbn.
    + rewrite decide_True by done. rewrite Bool.negb_involutive.
      rewrite <- (Hcur x); [by destruct x|by apply list_elem_of_lookup_2 with i|done].
    + by rewrite decide_False.
Qed.

(** ** The team page of the second version *)

Lemma joined_rows_length (r : roster) (s : V2.db) :
  (1 <= length (Team2.joined_rows r s))%nat.
Proof.
  unfold Team2.joined_rows.
  destruct (filter (Team2.matches r) (V2.score_rows s)); cbn; lia.
Qed.

Lemma joined_rows_elem (r : roster) (s : V2.db) (row : Roster1.team_row) :
  row ∈ Team2.joined_rows r s ->
  Roster1.team_queen_name row = roster_queen_name r /\
  Roster1.team_rank row = roster_rank r.
Proof.
  unfold Team2.joined_rows.
  destruct (filter (Team2.matches r) (V2.score_rows s)) as [|x xs].
  - by intros ->%list_elem_of_singleton.
  - by intros (y & -> & _)%list_elem_of_fmap.
Qed.

Lemma joined_rows_match (r : roster) (s : V2.db) (x : score) :
  x ∈ V2.score_rows s -> Team2.matches r x ->
  Roster1.TeamRow (roster_queen_name r) (roster_rank r) (score_calculated_points x)
    ∈ Team2.joined_rows r s.
Proof.
  intros Hx Hm. unfold Team2.joined_rows.
  assert (Hin : x ∈ filter (Team2.matches r) (V2.score_rows s))
    by (by apply list_elem_of_filter).
  destruct (filter (Team2.matches r) (V2.score_rows s)) as [|y ys];
    [by apply elem_of_nil in Hin|].
  by apply (list_elem_of_fmap_2
              (fun x => Roster1.TeamRow (roster_queen_name r) (roster_rank r)
                          (score_calculated_points x))).
Qed.

(** X22. The team page of the second version takes no league.  It is
    ordered by rank; every row bears the contestant and the rank of a roster
    entry of the user for the episode; every such entry, of whatever league,
    has at least one row; and an entry shows the points of every score row
    of the user, the contestant and the episode, whatever the league and
    the rank under which that row is stored. *)
Theorem V2_team_page_spans_leagues (s : V2.db) (u : string) (e : Z) :
  let entries := filter (fun r => roster_user_id r = u /\ roster_episode_number r = e)
                        (rosters (V2.base s)) in
  Sorted Roster1.rank_le (Team2.getUserTeam u e s) /\
  (length entries <= length (Team2.getUserTeam u e s))%nat /\
  (forall row, row ∈ Team2.getUserTeam u e s ->
     exists r, r ∈ entries /\ Roster1.team_queen_name row = roster_queen_name r /\
       Roster1.team_rank row = roster_rank r) /\
  (forall r rk l p, r ∈ entries ->
     V2.user_queen_scores s !! (u, rk, e) = Some (l, roster_queen_name r, p) ->
     Roster1.TeamRow (roster_queen_name r) (roster_rank r) p ∈ Team2.getUserTeam u e s) /\
  ((forall rk, V2.user_queen_scores s !! (u, rk, e) = None) ->
   Team2.getUserTeam u e s ≡ₚ
     (fun r => Roster1.TeamRow (roster_queen_name r) (roster_rank r) (Fin 0)) <$> entries).
Proof.
  intros entries. unfold Team2.getUserTeam. fold entries.
  split_and!; [apply Sorted_merge_sort, _| | | |].
  - rewrite merge_sort_Permutation.
    induction entries as [|r rows IH]; [done|].
    rewrite bind_cons, length_app. cbn [length].
    pose proof (joined_rows_length r s). lia.
  - intros row Hrow. rewrite merge_sort_Permutation in Hrow.
    apply list_elem_of_bind in Hrow as (r & Hrow & Hr).
    exists r. split; [done|]. by apply joined_rows_elem in Hrow.
  - intros r rk l p Hr Hv. rewrite merge_sort_Permutation.
    apply list_elem_of_bind. exists r. split; [|done].
    apply list_elem_of_filter in Hr as [[Hu He] _].
    apply (joined_rows_match r s (Score u l (roster_queen_name r) e p rk)); [|done].
    unfold V2.score_rows.
    apply (list_elem_of_fmap_2
             (fun e => match e with ((u, rk, ep), (l, q, p)) => Score u l q ep p rk end)
             _ ((u, rk, e), (l, roster_queen_name r, p))).
    by apply elem_of_map_to_list.
  - intros Hnone. etrans; [apply merge_sort_Permutation|].
    rewrite (bind_singletons _
      (fun r => Roster1.TeamRow (roster_queen_name r) (roster_rank r) (Fin 0))); [done|].
    intros r Hr. apply list_elem_of_filter in Hr as [[Hu He] _].
    unfold Team2.joined_rows.
    rewrite (filter_none (Team2.matches r) (V2.score_rows s)); [done|].
    intros x Hx (Hxu & _ & Hxe).
    unfold V2.score_rows in Hx.
    apply list_elem_of_fmap in Hx as ([[[u' rk'] e'] [[l' q'] p']] & -> & Hx).
    apply elem_of_map_to_list in Hx. cbn in Hxu, Hxe.
    rewrite <- Hxu, <- Hxe, Hu, He, Hnone in Hx. discriminate.
Qed.

(** ** The further theorems at the sample stores *)

Ltac decided := apply (bool_decide_unpack _); vm_compute; exact I.

Lemma settings_keys_stay_unique_witness :
  NoDup (settings Sample.two_users).*1 /\
  NoDup (settings (updateSetting "current_episode" "2" Sample.two_users)).*1 /\
  NoDup (settings (updateSettingsBatch Scenario.updates Sample.two_users)).*1 /\
  "multiplier_rank_2" ∈ (settings Sample.two_users).*1 /\
  "multiplier_rank_2" ∈ (settings (updateSettingsBatch Scenario.updates Sample.two_users)).*1.
Proof.
  destruct (settings_keys_stay_unique Scenario.updates "current_episode" "2" Sample.two_users)
    as [Hnd Hin].
  assert (H0 : NoDup (settings Sample.two_users).*1) by decided.
  assert (H1 : "multiplier_rank_2" ∈ (settings Sample.two_users).*1) by decided.
  destruct (Hnd H0) as [Hnd1 Hnd2]. destruct (Hin _ H1) as [_ Hin2].
  split_and!; [exact H0|exact Hnd1|exact Hnd2|exact H1|exact Hin2].
Defined.

Lemma updateSettingsBatch_sets_nonempty_entries_witness :
  let after := getSettings (updateSettingsBatch Scenario.updates Sample.two_users) in
  NoDup Scenario.updates.*1 /\
  after !! "multiplier_rank_1" = Some "3" /\
  after !! "multiplier_rank_2" = Some "2.0" /\
  after !! "multiplier_rank_3" = Some "1.5".
Proof.
  intros after.
  assert (Hkeys : NoDup Scenario.updates.*1) by decided.
  pose proof (updateSettingsBatch_sets_nonempty_entries Scenario.updates Sample.two_users
                "multiplier_rank_1" Hkeys) as (H1 & _).
  pose proof (updateSettingsBatch_sets_nonempty_entries Scenario.updates Sample.two_users
                "multiplier_rank_2" Hkeys) as (_ & H2 & _).
  pose proof (updateSettingsBatch_sets_nonempty_entries Scenario.updates Sample.two_users
                "multiplier_rank_3" Hkeys) as (_ & _ & H3).
  split_and!; [exact Hkeys| | |].
  - apply H1; [decided|discriminate].
  - etrans; [apply H2; decided|vm_compute; reflexivity].
  - etrans; [apply H3; decided|vm_compute; reflexivity].
Defined.

Lemma getCurrentEpisode_reads_updateSetting_witness :
  getCurrentEpisode (updateSetting "current_episode" "7" Sample.two_users) = Fin 7 /\
  getCurrentEpisode (updateSetting "multiplier_rank_1" "7" Sample.two_users) = Fin 1 /\
  getCurrentEpisode (updateSettingsBatch Scenario.no_new_episode Sample.two_users) = Fin 1.
Proof.
  destruct (getCurrentEpisode_reads_updateSetting "multiplier_rank_1" "7"
              Scenario.no_new_episode Sample.two_users) as (H1 & H2 & H3).
  split_and!.
  - etrans; [apply H1; discriminate|vm_compute; reflexivity].
  - etrans; [apply H2; discriminate|vm_compute; reflexivity].
  - etrans; [apply H3|vm_compute; reflexivity].
    intros v Hin. apply elem_of_cons in Hin as [Heq|Hin]; [congruence|].
    apply elem_of_cons in Hin as [Heq|Hin]; [discriminate|].
    by apply elem_of_nil in Hin.
Defined.

Lemma formatMultipliers_after_updateSettingsBatch_witness :
  let after := getSettings (updateSettingsBatch Scenario.updates Sample.two_users) in
  NoDup Scenario.updates.*1 /\
  V1.formatMultipliers after !! 1 = Some (Fin 3) /\
  V2.formatMultipliers after !! 1 = Some (Fin 3) /\
  V1.formatMultipliers after !! 2 = Some (Fin 2) /\
  V2.formatMultipliers after !! 3 = Some (Fin (3 # 2)).
Proof.
  intros after.
  assert (Hkeys : NoDup Scenario.updates.*1) by decided.
  assert (Hr1 : 1 <= 1 <= 4) by lia.
  assert (Hr2 : 1 <= 2 <= 4) by lia.
  assert (Hr3 : 1 <= 3 <= 4) by lia.
  pose proof (formatMultipliers_after_updateSettingsBatch Scenario.updates Sample.two_users
                1 Hkeys Hr1) as (H1 & _).
  pose proof (formatMultipliers_after_updateSettingsBatch Scenario.updates Sample.two_users
                2 Hkeys Hr2) as (_ & H2).
  pose proof (formatMultipliers_after_updateSettingsBatch Scenario.updates Sample.two_users
                3 Hkeys Hr3) as (_ & H3).
  destruct (H1 "3") as [H11 H12]; [decided|discriminate|].
  destruct H2 as [H21 _]; [left; decided|].
  destruct H3 as [_ H32]; [right; decided|].
  split_and!; [exact Hkeys| | | |].
  - etrans; [exact H11|vm_compute; reflexivity].
  - etrans; [exact H12|vm_compute; reflexivity].
  - etrans; [exact H21|vm_compute; reflexivity].
  - etrans; [exact H32|vm_compute; reflexivity].
Defined.

Lemma multiplier_falls_back_to_one_witness :
  let t := Scenario.zero_multiplier in
  let m := V2.formatMultipliers (getSettings t) in
  getSettings t !! multiplier_key 1 = Some "0" /\
  truthy (Parse.parseFloat "0") = false /\
  V1.multiplier t 1 = Fin 1 /\
  V1.points t 2 (Roster "ada" 1 "Bob" 1 2) = Fin 7 /\
  V1.points t 2 (Roster "eve" 1 "constructor" 1 2) = NaN /\
  V2.weighted m (V2.EpPoints "ada" 1 1 "Bob" (Fin 7)) = Fin 7 /\
  V2.weighted m (V2.EpPoints "eve" 1 1 "constructor" (Fin 0)) = Fin 0 /\
  V2.EpPoints "ada" 2 1 "Bob" (Fin 14) ∈ V2.epPoints Sample.two_leagues 2 /\
  V2.weighted m (V2.EpPoints "ada" 2 1 "Bob" (Fin 14)) = Fin 14.
Proof.
  intros t m.
  destruct (multiplier_falls_back_to_one t 2 1 m) as (_ & H2 & H3).
  destruct (multiplier_falls_back_to_one Sample.two_leagues 2 1 m) as (_ & _ & H3').
  assert (Hset : getSettings t !! multiplier_key 1 = Some "0") by (vm_compute; reflexivity).
  assert (Hfalsy : truthy (Parse.parseFloat "0") = false) by (vm_compute; reflexivity).
  assert (Hep : V2.epPoints t 2
                = [V2.EpPoints "ada" 1 1 "Bob" (Fin 7);
                   V2.EpPoints "eve" 1 1 "constructor" (Fin 0)])
    by (vm_compute; reflexivity).
  assert (Hep' : V2.epPoints Sample.two_leagues 2
                 = [V2.EpPoints "ada" 1 1 "Bob" (Fin 14);
                    V2.EpPoints "ada" 2 1 "Bob" (Fin 14)])
    by (vm_compute; reflexivity).
  assert (Hin' : V2.EpPoints "ada" 2 1 "Bob" (Fin 14) ∈ V2.epPoints Sample.two_leagues 2)
    by (rewrite Hep'; right; left).
  destruct (H2 "0") as [Hm Hp]; [lia|exact Hset|discriminate|exact Hfalsy|].
  split_and!; [exact Hset|exact Hfalsy|exact Hm| | | | |exact Hin'|].
  - etrans; [apply Hp; reflexivity|vm_compute; reflexivity].
  - etrans; [apply Hp; reflexivity|vm_compute; reflexivity].
  - apply (H3 (Fin 0)); [vm_compute; reflexivity|reflexivity|].
    rewrite Hep. left.
  - apply (H3 (Fin 0)); [vm_compute; reflexivity|reflexivity|].
    rewrite Hep. right. left.
  - apply (H3' (Fin 0)); [vm_compute; reflexivity|reflexivity|exact Hin'].
Defined.

Lemma recalculateScores_writes_only_its_entries_witness :
  let m := V2.formatMultipliers (getSettings Sample.second_episode) in
  V1.user_queen_scores (V1.recalculateScores 2 Sample.after_first_V1) !! ("ada", 1, "Bob", 1)
  = Some (Fin (35 # 2), 1) /\
  V2.user_queen_scores (V2.recalculateScores 2 m Sample.after_first_V2) !! ("ada", 1, 1)
  = Some (1, "Bob", Fin (35 # 2)) /\
  is_Some (V1.user_queen_scores (V1.recalculateScores 2 Sample.after_first_V1)
             !! ("ada", 1, "Bob", 1)).
Proof.
  intros m.
  destruct (recalculateScores_writes_only_its_entries 2 m Sample.after_first_V1
              Sample.after_first_V2) as (_ & H2 & H3 & _ & H5 & _).
  split_and!.
  - etrans; [apply H2; lia|vm_compute; reflexivity].
  - etrans; [apply H5; lia|vm_compute; reflexivity].
  - apply H3. exists (Fin (35 # 2), 1). vm_compute. reflexivity.
Defined.

Lemma V2_scores_every_league_of_the_user_witness :
  Roster "ada" 1 "Bob" 1 2 ∈ rosters Sample.one_pick /\
  Member 2 "ada" ∈ league_members Sample.one_pick /\
  exists raw, V2.EpPoints "ada" 2 1 "Bob" raw ∈ V2.epPoints Sample.one_pick 2.
Proof.
  assert (Hr : Roster "ada" 1 "Bob" 1 2 ∈ rosters Sample.one_pick) by left.
  assert (Hm : Member 2 "ada" ∈ league_members Sample.one_pick) by (right; left).
  split_and!; [exact Hr|exact Hm|].
  apply (V2_scores_every_league_of_the_user Sample.one_pick 2 "ada" 2 1 "Bob").
  split; [|exact Hm].
  exists (Roster "ada" 1 "Bob" 1 2). split_and!; [exact Hr|reflexivity..].
Defined.

Lemma team_page_after_save_and_recalculation_witness :
  let s' := V1.recalculateScores 2
              (Roster1.with_base (Roster1.saveRosterSelection "ada" 1 2 Scenario.picks)
                 (V1.Db Sample.unconfigured ∅ ∅)) in
  let s'' := V1.recalculateScores 2
               (Roster1.with_base
                  (Roster1.saveRosterSelection "ada" 1 2 Scenario.inherited_pick)
                  (V1.Db Sample.unconfigured ∅ ∅)) in
  NoDup (Roster1.sel_queen_name <$> Scenario.picks) /\
  Roster1.getUserTeam "ada" 2 1 s' ≡ₚ
    [Roster1.TeamRow "Cat" 2 (Fin 0); Roster1.TeamRow "Bob" 1 (Fin (35 # 2))] /\
  Sorted Roster1.rank_le (Roster1.getUserTeam "ada" 2 1 s') /\
  NoDup (Roster1.sel_queen_name <$> Scenario.inherited_pick) /\
  Roster1.getUserTeam "ada" 2 1 s'' ≡ₚ
    [Roster1.TeamRow "constructor" 1 NaN; Roster1.TeamRow "Bob" 2 (Fin 14)].
Proof.
  intros s' s''.
  assert (Hdistinct : NoDup (Roster1.sel_queen_name <$> Scenario.picks)) by decided.
  assert (Hdistinct' : NoDup (Roster1.sel_queen_name <$> Scenario.inherited_pick))
    by decided.
  destruct (team_page_after_save_and_recalculation (V1.Db Sample.unconfigured ∅ ∅)
              "ada" 1 2 Scenario.picks Hdistinct) as [Hperm Hsorted].
  destruct (team_page_after_save_and_recalculation (V1.Db Sample.unconfigured ∅ ∅)
              "ada" 1 2 Scenario.inherited_pick Hdistinct') as [Hperm' _].
  split_and!; [exact Hdistinct| |exact Hsorted|exact Hdistinct'|].
  - etrans; [exact Hperm|]. vm_compute. reflexivity.
  - etrans; [exact Hperm'|]. vm_compute. reflexivity.
Defined.

Lemma team_page_before_recalculation_witness :
  let s := V1.Db Sample.unconfigured ∅ ∅ in
  (forall q, V1.user_queen_scores s !! ("eve", 1, q, 2) = None) /\
  Roster1.getUserTeam "eve" 2 1 s ≡ₚ
    [Roster1.TeamRow "Bob" 5 (Fin 0); Roster1.TeamRow "Cat" 2 (Fin 0)].
Proof.
  intros s.
  assert (Hnone : forall q, V1.user_queen_scores s !! ("eve", 1, q, 2) = None)
    by (intros q; apply lookup_empty).
  destruct (team_page_before_recalculation s "eve" 2 1) as (_ & _ & H).
  split; [exact Hnone|].
  etrans; [exact (H Hnone)|]. vm_compute. reflexivity.
Defined.

Lemma updateLeagueName_only_by_creator_witness :
  updateLeagueName 2 "ada" "Mine" Sample.two_users = (Sample.two_users, []) /\
  (updateLeagueName 1 "ada" "Mine" Sample.two_users).2 = [1] /\
  leagues (updateLeagueName 1 "ada" "Mine" Sample.two_users).1 !! 0%nat
  = Some (League 1 "AAAA1111" "Mine" "ada") /\
  leagues (updateLeagueName 1 "ada" "Mine" Sample.two_users).1 !! 1%nat
  = Some (League 2 "BBBB2222" "Second" "eve").
Proof.
  destruct (updateLeagueName_only_by_creator 2 "ada" "Mine" Sample.two_users) as (H1 & _).
  destruct (updateLeagueName_only_by_creator 1 "ada" "Mine" Sample.two_users)
    as (_ & H2 & H3 & _ & _ & _ & _ & _ & _ & _ & Hids & _).
  split_and!.
  - destruct H1 as [Hnone Ht].
    + intros lg Hin [Hid Hby].
      apply elem_of_cons in Hin as [->|Hin]; [discriminate Hid|].
      apply elem_of_cons in Hin as [->|Hin]; [discriminate Hby|].
      by apply elem_of_nil in Hin.
    + destruct (updateLeagueName 2 "ada" "Mine" Sample.two_users) as [t' ids].
      cbn in Hnone, Ht. by rewrite Hnone, Ht.
  - etrans; [exact Hids|]. vm_compute. reflexivity.
  - apply (H3 0%nat (League 1 "AAAA1111" "First" "ada")); [reflexivity|by split].
  - apply (H2 1%nat (League 2 "BBBB2222" "Second" "eve")); [reflexivity|].
    intros [Hid _]. discriminate Hid.
Defined.

Lemma getLeagueDetails_only_for_members_witness :
  let d := LeagueDetails (League 1 "AAAA1111" "First" "ada") 1 in
  is_Some (getLeagueDetails 1 "ada" Sample.two_users) /\
  getLeagueDetails 1 "ada" Sample.two_users = Some d /\
  details_member_count d = count_members 1 Sample.two_users /\
  ~ is_Some (getLeagueDetails 2 "ada" Sample.two_users).
Proof.
  intros d.
  destruct (getLeagueDetails_only_for_members 1 "ada" Sample.two_users) as [Hiff Hd].
  destruct (getLeagueDetails_only_for_members 2 "ada" Sample.two_users) as [Hiff2 _].
  assert (Hget : getLeagueDetails 1 "ada" Sample.two_users = Some d)
    by (vm_compute; reflexivity).
  split_and!; [|exact Hget| |].
  - apply Hiff. split; [|left].
    exists (League 1 "AAAA1111" "First" "ada"). split; [left|reflexivity].
  - apply (Hd d Hget).
  - intros [_ Hin]%Hiff2.
    apply elem_of_cons in Hin as [Heq|Hin]; [discriminate|].
    apply elem_of_cons in Hin as [Heq|Hin]; [discriminate|].
    by apply elem_of_nil in Hin.
Defined.

Lemma createLeague_creator_is_only_member_witness :
  let t' := (Membership.createLeague 7 "CCCC3333" "zoe" "Third" Sample.two_users).1 in
  (forall lg, lg ∈ leagues Sample.two_users -> league_id lg <> 7) /\
  members_reference_leagues Sample.two_users /\
  (Membership.createLeague 7 "CCCC3333" "zoe" "Third" Sample.two_users).2 = Some 7 /\
  getLeagueDetails 7 "zoe" t' = Some (LeagueDetails (League 7 "CCCC3333" "Third" "zoe") 1) /\
  getLeagueDetails 7 "ada" t' = None /\
  members_reference_leagues t'.
Proof.
  intros t'.
  assert (Hfresh : forall lg, lg ∈ leagues Sample.two_users -> league_id lg <> 7).
  { intros lg Hin.
    apply elem_of_cons in Hin as [->|Hin]; [discriminate|].
    apply elem_of_cons in Hin as [->|Hin]; [discriminate|].
    by apply elem_of_nil in Hin. }
  assert (Hfk : members_reference_leagues Sample.two_users).
  { intros lm Hin.
    apply elem_of_cons in Hin as [->|Hin].
    { exists (League 1 "AAAA1111" "First" "ada"). split; [left|reflexivity]. }
    apply elem_of_cons in Hin as [->|Hin].
    { exists (League 2 "BBBB2222" "Second" "eve"). split; [right; left|reflexivity]. }
    by apply elem_of_nil in Hin. }
  destruct (createLeague_creator_is_only_member 7 "CCCC3333" "zoe" "Third" Sample.two_users
              Hfresh Hfk) as (Hid & _ & _ & _ & Hd & Hother & Hfk' & _).
  split_and!; [exact Hfresh|exact Hfk|exact Hid|exact Hd| |exact Hfk'].
  apply Hother. discriminate.
Defined.

Lemma join_league_adds_the_member_witness :
  let tA := (Membership.JoinA.POST Sample.join_other Sample.two_users).1 in
  let tB := (Membership.JoinB.POST Scenario.join_padded Sample.two_users).1 in
  ascii_text "bbbb2222" /\
  Membership.trim (String.app Scenario.nbsp (String.app "bbbb2222" Scenario.nbsp))
  = "bbbb2222" /\
  Member 2 "ada" ∈ league_members tA /\ count_members 2 tA = 2 /\
  Member 2 "ada" ∈ league_members tB /\ is_Some (getLeagueDetails 2 "ada" tB) /\
  count_members 2 tB = 2.
Proof.
  intros tA tB.
  assert (Hascii : ascii_text "bbbb2222") by decided.
  assert (Htrim : Membership.trim (String.app Scenario.nbsp (String.app "bbbb2222" Scenario.nbsp))
                  = "bbbb2222") by (vm_compute; reflexivity).
  pose proof (join_league_adds_the_member Sample.two_users Sample.join_other "ada" 2) as HA.
  pose proof (join_league_adds_the_member Sample.two_users Scenario.join_padded "ada" 2) as HB.
  cbv beta zeta in HA, HB. destruct HA as (HA & _). destruct HB as (_ & HB & _).
  destruct HA as (HA1 & _ & _ & HA4 & _);
    [intros c [= <-]; exact Hascii|reflexivity|vm_compute; reflexivity|].
  destruct HB as (HB1 & HB2 & _ & HB4 & _);
    [intros c [= <-]; rewrite Htrim; exact Hascii|reflexivity|discriminate
    |vm_compute; reflexivity|].
  split_and!; [exact Hascii|exact Htrim|exact HA1| |exact HB1|exact HB2|].
  - etrans; [exact HA4|vm_compute; reflexivity].
  - etrans; [exact HB4|vm_compute; reflexivity].
Defined.

Lemma join_ignores_case_of_code_witness :
  1 ∈ Membership.select_league (Some (Membership.toUpperCase "aaaa1111")) Sample.two_users /\
  exists lg, lg ∈ leagues Sample.two_users /\ league_id lg = 1 /\
    Membership.toUpperCase (league_invite_code lg) = league_invite_code lg.
Proof.
  assert (Hin : 1 ∈ Membership.select_league (Some (Membership.toUpperCase "aaaa1111"))
                     Sample.two_users) by decided.
  destruct (join_ignores_case_of_code Sample.two_users (Some "ada") "aaaa1111") as (_ & _ & H).
  split; [exact Hin|]. exact (H 1 Hin).
Defined.

Lemma dashboard_shows_season_totals_witness :
  let m := V2.formatMultipliers (getSettings Sample.second_episode) in
  let f := V2.recalculateScores 2 m Sample.after_first_V2 in
  let row := Dashboard2.LeagueSummary 1 "First" "AAAA1111" (Fin (55 # 2)) (Fin 10) 1 in
  Dashboard2.getUserLeagues "ada" 2 f = [row] /\
  Fin (55 # 2) = sum_numbers (pair_scores (V2.score_rows f) ("ada", 1)) /\
  (exists row', row' ∈ Dashboard2.getUserLeagues "ada" 2 f /\ Dashboard2.summary_id row' = 1).
Proof.
  intros m f row.
  assert (Hrows : Dashboard2.getUserLeagues "ada" 2 f = [row]) by (vm_compute; reflexivity).
  destruct (dashboard_shows_season_totals 2 2 m Sample.after_first_V2 "ada") as [H1 H2].
  split_and!; [exact Hrows| |].
  - assert (Hin : row ∈ Dashboard2.getUserLeagues "ada" 2 f) by (rewrite Hrows; left).
    destruct (H1 row Hin) as (Hs & _). exact Hs.
  - apply (H2 (League 1 "AAAA1111" "First" "ada")); left.
Defined.

Lemma standings_after_any_operations_witness :
  let s := foldl Roster1.apply (V1.Db Scenario.season ∅ ∅) Scenario.operations in
  let f := Roster1.apply s (Roster1.Recalculate 2) in
  V1_backed s /\
  V1.league_standings f !! ("ada", 1) = Some (Fin 21) /\
  V1.league_standings f !! ("ada", 2) = Some (Fin 6) /\
  V1.league_standings f !! ("eve", 1) = Some (Fin 4) /\
  Fin 21 = season_total (V1.score_rows f) "ada" 1 /\
  Fin 6 = season_total (V1.score_rows f) "ada" 2 /\
  (exists r, r ∈ V1.score_rows f /\ score_user_id r = "ada" /\ score_league_id r = 2).
Proof.
  intros s f.
  destruct (standings_after_any_operations Scenario.season Scenario.operations 2)
    as (Hb & Ht & _).
  assert (Hf : foldl Roster1.apply (V1.Db Scenario.season ∅ ∅)
                 (Scenario.operations ++ [Roster1.Recalculate 2]) = f)
    by (by rewrite foldl_app).
  rewrite Hf in Ht.
  assert (H1 : V1.league_standings f !! ("ada", 1) = Some (Fin 21))
    by (vm_compute; reflexivity).
  assert (H2 : V1.league_standings f !! ("ada", 2) = Some (Fin 6))
    by (vm_compute; reflexivity).
  clear Hf.
  split_and!; [exact Hb|exact H1|exact H2|vm_compute; reflexivity| | |].
  - exact (proj1 (Ht _ _ _ H1)).
  - exact (proj1 (Ht _ _ _ H2)).
  - exact (proj2 (Ht _ _ _ H2)).
Defined.

Lemma dropped_pick_keeps_its_score_witness :
  let s' := V1.recalculateScores 2
              (Roster1.with_base (Roster1.saveRosterSelection "ada" 1 2 Scenario.other_pick)
                 Scenario.scored) in
  V1.user_queen_scores Scenario.scored !! ("ada", 1, "Bob", 2) = Some (Fin (35 # 2), 1) /\
  ("Bob" ∉ Roster1.sel_queen_name <$> Scenario.other_pick) /\
  V1.user_queen_scores s' !! ("ada", 1, "Bob", 2) = Some (Fin (35 # 2), 1) /\
  (forall row, row ∈ Roster1.getUserTeam "ada" 2 1 s' -> Roster1.team_queen_name row <> "Bob").
Proof.
  intros s'.
  assert (Hscore : V1.user_queen_scores Scenario.scored !! ("ada", 1, "Bob", 2)
                   = Some (Fin (35 # 2), 1)) by (vm_compute; reflexivity).
  assert (Hdropped : "Bob" ∉ Roster1.sel_queen_name <$> Scenario.other_pick) by decided.
  destruct (dropped_pick_keeps_its_score Scenario.scored "ada" 1 2 Scenario.other_pick
              "Bob" (Fin (35 # 2), 1) Hscore Hdropped) as (H1 & _ & _ & H4).
  split_and!; [exact Hscore|exact Hdropped|exact H1|exact H4].
Defined.

Lemma toggleUserStatus_negates_the_argument_witness :
  toggleUserStatus "ada" true Scenario.users !! 0%nat = Some (User "ada" "Ada" false) /\
  toggleUserStatus "ada" true Scenario.users !! 1%nat = Some (User "eve" "Eve" false) /\
  toggleUserStatus "ada" false (toggleUserStatus "ada" true Scenario.users) = Scenario.users.
Proof.
  destruct (toggleUserStatus_negates_the_argument "ada" true Scenario.users)
    as (H1 & H2 & _ & H4).
  split_and!.
  - apply (H2 0%nat (User "ada" "Ada" true)); reflexivity.
  - apply (H1 1%nat (User "eve" "Eve" false)); [reflexivity|discriminate].
  - apply H4. intros x Hin Hid.
    apply elem_of_cons in Hin as [->|Hin]; [reflexivity|].
    apply elem_of_cons in Hin as [->|Hin]; [discriminate|].
    by apply elem_of_nil in Hin.
Defined.

Lemma V2_team_page_spans_leagues_witness :
  let s := V2.recalculateScores 2 (V2.formatMultipliers ∅) (V2.Db Sample.two_leagues ∅ ∅) in
  let entries := filter (fun r => roster_user_id r = "ada" /\ roster_episode_number r = 2)
                        (rosters (V2.base s)) in
  Roster "ada" 1 "Bob" 1 2 ∈ entries /\
  V2.user_queen_scores s !! ("ada", 1, 2) = Some (2, "Bob", Fin 28) /\
  Roster1.TeamRow "Bob" 1 (Fin 28) ∈ Team2.getUserTeam "ada" 2 s /\
  (2 <= length (Team2.getUserTeam "ada" 2 s))%nat /\
  (forall rk, V2.user_queen_scores (V2.Db Sample.two_leagues ∅ ∅) !! ("ada", rk, 2) = None) /\
  Team2.getUserTeam "ada" 2 (V2.Db Sample.two_leagues ∅ ∅) ≡ₚ
    [Roster1.TeamRow "Bob" 1 (Fin 0); Roster1.TeamRow "Bob" 1 (Fin 0)].
Proof.
  intros s entries.
  assert (Hentries : entries = rosters Sample.two_leagues) by (vm_compute; reflexivity).
  assert (Hr : Roster "ada" 1 "Bob" 1 2 ∈ entries) by (rewrite Hentries; left).
  assert (Hv : V2.user_queen_scores s !! ("ada", 1, 2) = Some (2, "Bob", Fin 28))
    by (vm_compute; reflexivity).
  assert (Hnone : forall rk,
            V2.user_queen_scores (V2.Db Sample.two_leagues ∅ ∅) !! ("ada", rk, 2) = None)
    by (intros rk; apply lookup_empty).
  destruct (V2_team_page_spans_leagues s "ada" 2) as (_ & Hlen & _ & Hrow & _).
  destruct (V2_team_page_spans_leagues (V2.Db Sample.two_leagues ∅ ∅) "ada" 2)
    as (_ & _ & _ & _ & Hzero).
  split_and!; [exact Hr|exact Hv| | |exact Hnone|].
  - exact (Hrow (Roster "ada" 1 "Bob" 1 2) 1 2 (Fin 28) Hr Hv).
  - etrans; [|exact Hlen]. fold entries. rewrite Hentries. cbn. lia.
  - etrans; [exact (Hzero Hnone)|]. vm_compute. reflexivity.
Defined.
